(** * Attio -> Apollo synchronisation: a shallow embedding of the TypeScript
      sources and the properties of its extraction, stage mapping and
      create-or-update logic.

    The development follows the source files one module per file:
    - [JS]                       the fragment of JavaScript semantics the code
                                 relies on (truthiness, [String()], optional
                                 chaining, [trim], [toLowerCase], [includes]);
    - [AttributeMapping]         attribute-mapping.server.ts;
    - [StageMapping]             stage-mapping.server.ts;
    - [OpportunityStageMapping]  opportunity-stage-mapping.server.ts;
    - [SyncToApollo]             sync-to-apollo.server.ts;
    - [RecordUpdated]            record.updated.event.ts;
    - [SyncDealToApollo]         sync-deal-to-apollo.server.ts;
    - [SyncCompanyToApollo]      sync-company-to-apollo.server.ts.

    An [async] function is a state-passing function over the two stage
    caches of the process and the log of the calls made to the REST
    wrappers; it returns or throws.  Console output is not part of the
    state; where a property is about the branch taken, the branch is kept
    as a tag of the result.  Timers ([setTimeout]) are left out. *)

From Stdlib Require Import String Ascii List Bool Arith Lia.
Import ListNotations.
Local Open Scope list_scope.
Local Open Scope string_scope.
Set Warnings "-register-all".

(* ===================================================================== *)
(** * JavaScript values and the operations the sources use                *)
(* ===================================================================== *)

Module JS.

(** Thrown values.  The sources throw [new Error(msg)]; the runtime throws
    [TypeError] on a property read of [null]/[undefined] or on a call of
    something that is not a function. *)
Inductive exn : Type :=
| Error (msg : string)
| TypeError (msg : string).

(** Outcome of an expression or statement block that may throw. *)
Inductive Result (A : Type) : Type :=
| Ok (a : A)
| Throw (e : exn).
Arguments Ok {A} a.
Arguments Throw {A} e.

Definition rbind {A B : Type} (r : Result A) (k : A -> Result B) : Result B :=
  match r with
  | Ok a => k a
  | Throw e => Throw e
  end.

(** Values reachable from [JSON.parse], plus [undefined] (the result of a
    missing property).  A string is a sequence of UTF-16 code units; the
    model keeps the code units below 256.  A number is kept by its
    [String(n)] rendering (["42"], ["1.5"], ["0"] for both zeros, ["NaN"]):
    the sources only test numbers for truthiness and print them.  An
    object lists its own fields in insertion order, each key once (a key
    listed twice is read at its first binding). *)
Inductive value : Type :=
| JUndefined
| JNull
| JBool (b : bool)
| JNum (repr : string)
| JStr (s : string)
| JArr (items : list value)
| JObj (fields : list (string * value)).

(** ** Strings *)

Definition is_empty (s : string) : bool :=
  match s with
  | EmptyString => true
  | String _ _ => false
  end.

(** The double-quote character, for messages. *)
Definition dquote : string := String (ascii_of_nat 34) EmptyString.

(** White space removed by [String.prototype.trim]: TAB, LF, VT, FF, CR,
    SPACE and NBSP. *)
Definition is_space (c : ascii) : bool :=
  let n := nat_of_ascii c in
  (((9 <=? n) && (n <=? 13)) || (n =? 32) || (n =? 160))%nat.

Fixpoint trimStart (s : string) : string :=
  match s with
  | EmptyString => EmptyString
  | String c rest => if is_space c then trimStart rest else s
  end.

(** [trimEnd] drops a trailing run of white space: a character is kept when
    it is not white space or when something is kept after it. *)
Fixpoint trimEnd (s : string) : string :=
  match s with
  | EmptyString => EmptyString
  | String c rest =>
      let rest' := trimEnd rest in
      if is_space c && is_empty rest' then EmptyString else String c rest'
  end.

Definition trim (s : string) : string := trimEnd (trimStart s).

(** [toLowerCase] on one code unit: A-Z, and the Latin-1 capitals
    U+00C0..U+00DE except the multiplication sign U+00D7. *)
Definition lower_char (c : ascii) : ascii :=
  let n := nat_of_ascii c in
  if (((65 <=? n) && (n <=? 90))
      || ((192 <=? n) && (n <=? 222) && negb (n =? 215)))%nat
  then ascii_of_nat (n + 32) else c.

Fixpoint toLowerCase (s : string) : string :=
  match s with
  | EmptyString => EmptyString
  | String c rest => String (lower_char c) (toLowerCase rest)
  end.

(** [s.startsWith(p)] *)
Fixpoint startsWith (s p : string) {struct p} : bool :=
  match p with
  | EmptyString => true
  | String a p' =>
      match s with
      | EmptyString => false
      | String b s' => Ascii.eqb a b && startsWith s' p'
      end
  end.

(** [s.includes(sub)] *)
Fixpoint includes (s sub : string) : bool :=
  startsWith s sub ||
  match s with
  | EmptyString => false
  | String _ rest => includes rest sub
  end.

(** ** Coercions *)

(** [Boolean(v)], the test of [if (v)], [!v], [a || b] and [a && b]. *)
Definition truthy (v : value) : bool :=
  match v with
  | JUndefined | JNull => false
  | JBool b => b
  | JNum repr => negb (String.eqb repr "0" || String.eqb repr "NaN")
  | JStr s => negb (is_empty s)
  | JArr _ | JObj _ => true
  end.

(** The string [String(v)] gives when the conversion returns (it may
    throw, see [toStr] below); also the conversion used inside template
    literals.  An array prints its elements joined by commas, [null] and
    [undefined] elements printing as the empty string. *)
Fixpoint toString (v : value) : string :=
  match v with
  | JUndefined => "undefined"
  | JNull => "null"
  | JBool true => "true"
  | JBool false => "false"
  | JNum repr => repr
  | JStr s => s
  | JArr items =>
      let elem (x : value) : string :=
        match x with
        | JUndefined | JNull => ""
        | _ => toString x
        end in
      (fix join (l : list value) : string :=
         match l with
         | [] => ""
         | [x] => elem x
         | x :: rest => elem x ++ "," ++ join rest
         end) items
  | JObj _ => "[object Object]"
  end.

(** [String(v)] returns: the conversion of an object calls its [toString]
    method, then its [valueOf].  An object read from JSON that has a field
    of its own named [toString] holds there a value that is no function,
    and [valueOf] (its own field or the inherited method) gives no
    primitive, so the conversion ends in a [TypeError]; without such a
    field the inherited [toString] answers.  An array converts its
    elements, [null] and [undefined] apart. *)
Fixpoint convertible (v : value) : bool :=
  match v with
  | JArr items =>
      (fix all (l : list value) : bool :=
         match l with
         | [] => true
         | x :: rest => convertible x && all rest
         end) items
  | JObj fields =>
      negb (existsb (fun field => String.eqb (fst field) "toString") fields)
  | _ => true
  end.

(** The error of a conversion that cannot be done. *)
Definition conversion_error : exn :=
  TypeError "Cannot convert object to primitive value".

(** [String(v)] and [`${v}`], returning or throwing.  The extraction of
    attribute-mapping.server.ts and the identifier test of
    [mapStageToAttio], whose properties are about returning and throwing,
    go through [toStr]; elsewhere [String(v)] is written [toString v], the
    value of the conversion on the runs on which it returns. *)
Definition toStr (v : value) : Result string :=
  if convertible v then Ok (toString v) else Throw conversion_error.


(** The characters of [s] before its first dot. *)
Fixpoint before_dot (s : string) : string :=
  match s with
  | EmptyString => EmptyString
  | String c rest => if Ascii.eqb c "." then EmptyString else String c (before_dot rest)
  end.

(** [n > 20] for the number [n] that prints as [repr].  A negative number
    prints with a sign; a number from [1e21] on prints with [e+], one
    below [1e-6] with [e-]; any other prints its integer part without
    leading zeros, then its fraction if it has one. *)
Definition above_20 (repr : string) : bool :=
  if startsWith repr "-" then false
  else if String.eqb repr "NaN" then false
  else if String.eqb repr "Infinity" then true
  else if includes repr "e" then includes repr "e+"
  else
    match before_dot repr with
    | String a (String b EmptyString) =>
        let n := (10 * (nat_of_ascii a - 48) + (nat_of_ascii b - 48))%nat in
        (20 <? n)%nat || ((n =? 20)%nat && includes repr ".")
    | String _ (String _ (String _ _)) => true
    | _ => false
    end.

(** The answers of [typeof] the sources compare with. *)
Definition typeof_string (v : value) : bool :=
  match v with JStr _ => true | _ => false end.

Definition typeof_number (v : value) : bool :=
  match v with JNum _ => true | _ => false end.

(** [typeof v === 'object'], which holds of [null], arrays and objects. *)
Definition typeof_object (v : value) : bool :=
  match v with JNull | JArr _ | JObj _ => true | _ => false end.

Definition isArray (v : value) : bool :=
  match v with JArr _ => true | _ => false end.

Definition is_nullish (v : value) : bool :=
  match v with JUndefined | JNull => true | _ => false end.

(** [a || b] and [a && b] on values. *)
Definition js_or (a b : value) : value := if truthy a then a else b.
Definition js_and (a b : value) : value := if truthy a then b else a.

(** ** Property reads *)

Fixpoint lookup {A : Type} (k : string) (fields : list (string * A)) : option A :=
  match fields with
  | [] => None
  | (k', v) :: rest => if String.eqb k k' then Some v else lookup k rest
  end.

(** [v.k] for a [v] that is neither [null] nor [undefined], and for the
    property names the sources read by name ([value], [title], [option],
    [email_address], ...).  None of them is an index, [length] or a method
    inherited from a prototype, so only an object's own fields answer. *)
Definition get (v : value) (k : string) : value :=
  match v with
  | JObj fields =>
      match lookup k fields with
      | Some x => x
      | None => JUndefined
      end
  | _ => JUndefined
  end.

(** [v?.k]: [undefined] when [v] is [null] or [undefined]. *)
Definition oget (v : value) (k : string) : value := get v k.

(** [v.k]: a [TypeError] when [v] is [null] or [undefined]. *)
Definition sget (v : value) (k : string) : Result value :=
  if is_nullish v
  then Throw (TypeError ("Cannot read properties of " ++ toString v))
  else Ok (get v k).

(** [v[0]] for a [v] that is neither [null] nor [undefined]. *)
Definition first (v : value) : value :=
  match v with
  | JArr (x :: _) => x
  | JStr (String c _) => JStr (String c EmptyString)
  | JObj fields =>
      match lookup "0" fields with
      | Some x => x
      | None => JUndefined
      end
  | _ => JUndefined
  end.

(** A value where the sources call a string method ([startsWith], [trim],
    [includes], ...): anything but a string throws. *)
Definition as_string (method : string) (v : value) : Result string :=
  match v with
  | JStr s => Ok s
  | JUndefined | JNull =>
      Throw (TypeError ("Cannot read properties of " ++ toString v))
  | _ => Throw (TypeError (method ++ " is not a function"))
  end.

End JS.

Declare Scope js_scope.
Delimit Scope js_scope with js.
Notation "x <- e ;; k" := (JS.rbind e (fun x => k))
  (at level 61, e at next level, right associativity) : js_scope.

(* ===================================================================== *)
(** * attribute-mapping.server.ts                                         *)
(* ===================================================================== *)

Module AttributeMapping.
Import JS.
Local Open Scope js_scope.

(** [return String(v)] *)
Definition converted (v : value) : Result value :=
  s <- toStr v ;; Ok (JStr s).

(** [return `${a} ${b}`.trim()]: [a] is converted first. *)
Definition joined (a b : value) : Result value :=
  x <- toStr a ;;
  y <- toStr b ;;
  Ok (JStr (trim (x ++ " " ++ y))).

(** [extractAttioValue(attioData: unknown): string | null].  The result is
    kept as a [value]: the declared type is not enforced at run time. *)
Definition extractAttioValue (attioData : value) : Result value :=
  if negb (truthy attioData) then Ok JNull else
  match attioData with
  | JArr (entry :: _) =>
      if truthy (oget (oget entry "option") "title") then
        opt <- sget entry "option" ;;
        t <- sget opt "title" ;;
        converted t
      else if negb (is_nullish (oget entry "value")) then
        v <- sget entry "value" ;;
        converted v
      else if truthy (js_or (oget entry "first_name") (oget entry "last_name")) then
        full <- sget entry "full_name" ;;
        if truthy full then converted full else
        fn <- sget entry "first_name" ;;
        ln <- sget entry "last_name" ;;
        if truthy (js_and fn ln)
        then joined fn ln
        else converted (js_or (js_or fn ln) (JStr ""))
      else if truthy (oget entry "email_address") then
        e <- sget entry "email_address" ;;
        converted e
      else if truthy (oget entry "phone_number") then
        p <- sget entry "phone_number" ;;
        converted p
      else
        Ok (js_or (js_or (js_or (oget entry "title") (oget entry "name"))
                         (oget entry "label")) JNull)
  | _ =>
      if typeof_string attioData || typeof_number attioData then
        Ok (JStr (toString attioData))
      else if typeof_object attioData && negb (is_nullish attioData) then
        let value := get attioData "value" in
        let title := get attioData "title" in
        let name := get attioData "name" in
        let label := get attioData "label" in
        if typeof_string value then Ok value
        else if typeof_string title then Ok title
        else if typeof_string name then Ok name
        else if typeof_string label then Ok label
        else Ok JNull
      else Ok JNull
  end.

(** [s.replace(/^\/+/, '')]: drop every leading slash. *)
Fixpoint strip_leading_slashes (s : string) : string :=
  match s with
  | String "/" rest => strip_leading_slashes rest
  | _ => s
  end.

(** [s.replace(/^@/, '')]: drop one leading at-sign. *)
Definition strip_leading_at (s : string) : string :=
  match s with
  | String "@" rest => rest
  | _ => s
  end.

(** The record [apolloFields]: its keys in insertion order. *)
Definition fields := list (string * value).

(** One social-URL block of [extractAttioAttributes]: [mk] builds the URL
    from the extracted string. *)
Definition url_field (attioValues : value) (src dst who : string)
    (mk : string -> string) (acc : fields) : Result fields :=
  if truthy (get attioValues src) then
    v <- extractAttioValue (get attioValues src) ;;
    if truthy v then
      s <- as_string (who ++ ".startsWith") v ;;
      Ok (acc ++ [(dst, JStr (mk s))])%list
    else Ok acc
  else Ok acc.

Definition linkedin_url (s : string) : string :=
  if startsWith s "http" then s
  else if startsWith s "linkedin.com" || startsWith s "/"
  then "https://" ++ strip_leading_slashes s
  else "https://linkedin.com/in/" ++ s.

Definition twitter_url (s : string) : string :=
  if startsWith s "http" then s
  else if startsWith s "twitter.com" || startsWith s "x.com"
  then "https://" ++ s
  else "https://twitter.com/" ++ strip_leading_at s.

Definition facebook_url (s : string) : string :=
  if startsWith s "http" then s else "https://facebook.com/" ++ s.

Definition instagram_url (s : string) : string :=
  if startsWith s "http" then s
  else "https://instagram.com/" ++ strip_leading_at s.

(** [extractAttioAttributes(attioValues)]. *)
Definition extractAttioAttributes (attioValues : value) : Result fields :=
  let acc : fields := [] in
  acc <- (if truthy (get attioValues "job_title") then
            t <- extractAttioValue (get attioValues "job_title") ;;
            Ok (acc ++ [("title", t)])%list
          else Ok acc) ;;
  acc <- (if truthy (get attioValues "company") then
            companyValue <- extractAttioValue (get attioValues "company") ;;
            if truthy companyValue
            then Ok (acc ++ [("organization_name", companyValue)])%list
            else Ok acc
          else Ok acc) ;;
  acc <- url_field attioValues "linkedin" "linkedin_url" "linkedinValue"
           linkedin_url acc ;;
  acc <- url_field attioValues "twitter" "twitter_url" "twitterValue"
           twitter_url acc ;;
  acc <- url_field attioValues "facebook" "facebook_url" "facebookValue"
           facebook_url acc ;;
  acc <- url_field attioValues "instagram" "instagram_url" "instagramValue"
           instagram_url acc ;;
  acc <- (if truthy (get attioValues "description") then
            b <- extractAttioValue (get attioValues "description") ;;
            Ok (acc ++ [("bio", b)])%list
          else Ok acc) ;;
  _ <- (if truthy (get attioValues "primary_location")
        then extractAttioValue (get attioValues "primary_location")
        else Ok JNull) ;;
  Ok acc.

(** ** The priority order, read as a list of candidates *)











End AttributeMapping.

(* ===================================================================== *)
(** * apollo-api.server.ts and attio-api.server.ts: the outside world     *)
(* ===================================================================== *)

(** The REST wrappers are the boundary of the model.  Every call is logged
    as an [Event]; what a call answers is decided by a [World], which sees
    the calls made so far, so that an answer may change during a run. *)
Module Api.
Import JS.

Definition fields := list (string * value).

(** [ApolloContactStage] and [ApolloOpportunityStage]: [{id, name}]. *)
Record Stage : Type := { stage_id : string; stage_name : string }.

(** The parsed schemas keep the fields the sync code reads.  An optional,
    nullable string is an [option string].  The deal sync reads
    [opp.account_id], which [apolloOpportunitySchema] does not list; the
    model lets it be anything, and it only decides what is logged. *)
Record ApolloContact : Type := {
  contact_id : option string;
  contact_email : option string;
  contact_first_name : option string;
  contact_last_name : option string;
}.

Record ApolloOpportunity : Type := {
  opp_id : option string;
  opp_name : option string;
  opp_description : option string;
  opp_account_id : option string;
}.

Record ApolloAccount : Type := {
  account_id : option string;
  account_name : option string;
  account_domain : option string;
  account_website_url : option string;
}.

(** The envelope answered by the Attio REST API, [{data: {...}}]: the
    fields of the object [data], or [None] when the envelope or its [data]
    is missing or falsy ([!attioRecord?.data]).  A [data] that is truthy
    without being an object is outside what the API answers and outside
    the model. *)
Definition AttioResponse := option fields.

Inductive Event : Type :=
| EvGetPerson (recordId : string)
| EvGetCompany (recordId : string)
| EvGetDeal (recordId : string)
| EvListContactStages
| EvListOpportunityStages
| EvSearchContacts (params : fields)
| EvCreateContact (contact : fields)
| EvUpdateContact (contactId : string) (contact : fields)
| EvSearchOpportunities (params : fields)
| EvCreateOpportunity (opp : fields)
| EvUpdateOpportunity (oppId : string) (opp : fields)
| EvSearchAccounts (params : fields)
| EvCreateAccount (account : fields)
| EvUpdateAccount (accountId : string) (account : fields)
| EvGetApolloOrganizationId (recordId : value).

(** The calls that reach the target platform. *)
Definition targets_apollo (ev : Event) : bool :=
  match ev with
  | EvGetPerson _ | EvGetCompany _ | EvGetDeal _ => false
  | _ => true
  end.

Record World : Type := {
  getPerson : list Event -> string -> Result AttioResponse;
  getCompany : list Event -> string -> Result AttioResponse;
  getDeal : list Event -> string -> Result AttioResponse;
  listApolloContactStages : list Event -> Result (list Stage);
  listApolloOpportunityStages : list Event -> Result (list Stage);
  searchApolloContacts : list Event -> fields -> Result (list ApolloContact);
  createApolloContact : list Event -> fields -> Result ApolloContact;
  updateApolloContact : list Event -> string -> fields -> Result ApolloContact;
  searchApolloOpportunities :
    list Event -> fields -> Result (list ApolloOpportunity);
  createApolloOpportunity : list Event -> fields -> Result ApolloOpportunity;
  updateApolloOpportunity :
    list Event -> string -> fields -> Result ApolloOpportunity;
  searchApolloAccounts : list Event -> fields -> Result (list ApolloAccount);
  createApolloAccount : list Event -> fields -> Result ApolloAccount;
  updateApolloAccount : list Event -> string -> fields -> Result ApolloAccount;
  (** [getApolloOrganizationId] of get-apollo-organization-id.server.ts,
      reached by a dynamic import inside [try]: taken as one call, whatever
      it answers or throws *)
  getApolloOrganizationId : list Event -> value -> Result value;
  (** [new URL(s).hostname]; [None] when the constructor throws *)
  url_hostname : string -> option string;
  (** [s.match(/(?:https?:\/\/)?(?:www\.)?([^\/]+)/)]: its first group *)
  domain_regex : string -> option string;
  (** [Number(v)]; [None] for [NaN] *)
  to_number : value -> option string;
}.

(** The module-level variables of the process and the log of calls. *)
Record State : Type := {
  trace : list Event;
  apolloStagesCache : option (list Stage);
  apolloOpportunityStagesCache : option (list Stage);
}.

(** An [async] function body: it reads and writes the state and either
    returns or throws. *)
Definition M (A : Type) : Type := State -> State * Result A.

Definition ret {A : Type} (a : A) : M A := fun st => (st, Ok a).

Definition throw {A : Type} (e : exn) : M A := fun st => (st, Throw e).

Definition lift {A : Type} (r : Result A) : M A := fun st => (st, r).

Definition bind {A B : Type} (m : M A) (k : A -> M B) : M B :=
  fun st =>
    match m st with
    | (st', Ok a) => k a st'
    | (st', Throw e) => (st', Throw e)
    end.

(** [try { m } catch (error) { handler(error) }] *)
Definition try_catch {A : Type} (m : M A) (handler : exn -> M A) : M A :=
  fun st =>
    match m st with
    | (st', Ok a) => (st', Ok a)
    | (st', Throw e) => handler e st'
    end.

(** A call of a REST wrapper: log it, then ask the world. *)
Definition call {A : Type} (ev : Event) (answer : list Event -> Result A) : M A :=
  fun st =>
    ({| trace := (trace st ++ [ev])%list;
        apolloStagesCache := apolloStagesCache st;
        apolloOpportunityStagesCache := apolloOpportunityStagesCache st |},
     answer (trace st)).

Definition initial : State :=
  {| trace := []; apolloStagesCache := None;
     apolloOpportunityStagesCache := None |}.

(** [/^[a-zA-Z0-9]+$/.test(s)] *)
Definition is_alnum (c : ascii) : bool :=
  let n := nat_of_ascii c in
  (((48 <=? n) && (n <=? 57)) || ((65 <=? n) && (n <=? 90))
   || ((97 <=? n) && (n <=? 122)))%nat.

Fixpoint all_alnum (s : string) : bool :=
  match s with
  | EmptyString => true
  | String c rest => is_alnum c && all_alnum rest
  end.

Definition alphanumeric (s : string) : bool := negb (is_empty s) && all_alnum s.

(** [s.length > 20 && /^[a-zA-Z0-9]+$/.test(s)]: the shape of an Apollo
    stage identifier. *)
Definition looks_like_stage_id (s : string) : bool :=
  (20 <? String.length s)%nat && alphanumeric s.

(** ** Plain objects used as lookup tables *)

(** What [TABLE[key]] answers on an object literal whose own values are
    strings: an own value, a member inherited from [Object.prototype]
    (a function or the prototype itself, always truthy), or [undefined]. *)
Inductive table_value : Type :=
| TString (s : string)
| TInherited
| TUndefined.

Definition object_prototype_keys : list string :=
  [ "constructor"; "__defineGetter__"; "__defineSetter__"; "hasOwnProperty";
    "__lookupGetter__"; "__lookupSetter__"; "isPrototypeOf";
    "propertyIsEnumerable"; "toString"; "valueOf"; "__proto__";
    "toLocaleString" ].

Definition table_get (table : list (string * string)) (key : string) : table_value :=
  match lookup key table with
  | Some s => TString s
  | None =>
      if existsb (String.eqb key) object_prototype_keys
      then TInherited else TUndefined
  end.

Definition table_truthy (t : table_value) : bool :=
  match t with
  | TString s => negb (is_empty s)
  | TInherited => true
  | TUndefined => false
  end.

(** [===] between two [string | null] values. *)
Definition same (a b : option string) : bool :=
  match a, b with
  | Some x, Some y => String.eqb x y
  | None, None => true
  | _, _ => false
  end.

End Api.

Declare Scope sync_scope.
Delimit Scope sync_scope with sync.
Notation "x <- e ;; k" := (Api.bind e (fun x => k))
  (at level 61, e at next level, right associativity) : sync_scope.

(* ===================================================================== *)
(** * stage-mapping.server.ts                                             *)
(* ===================================================================== *)

Module StageMapping.
Import JS Api.
Local Open Scope sync_scope.

(** [getApolloStages()]: the cache when it is set (an empty array is
    truthy), else one fetch, cached when it succeeds. *)
Definition getApolloStages (w : World) : M (list Stage) :=
  fun st =>
    match apolloStagesCache st with
    | Some cached => (st, Ok cached)
    | None =>
        try_catch
          (stages <- call EvListContactStages (listApolloContactStages w) ;;
           let mapped :=
             map (fun s => {| stage_id := stage_id s; stage_name := stage_name s |})
                 stages in
           fun st' =>
             ({| trace := trace st';
                 apolloStagesCache := Some mapped;
                 apolloOpportunityStagesCache := apolloOpportunityStagesCache st' |},
              Ok mapped))
          (fun _ => ret [])
          st
    end.

(** [STAGE_NAME_MAPPING]: no entry. *)
Definition STAGE_NAME_MAPPING : list (string * string) := [].

(** [normalizeStage] on a string. *)
Definition normalizeName (stage : string) : option string :=
  if is_empty stage then None else Some (toLowerCase (trim stage)).

(** [normalizeStage(stage)]: a truthy value that is not a string has no
    [trim] method. *)
Definition normalizeStage (stage : value) : Result (option string) :=
  if negb (truthy stage) then Ok None
  else rbind (as_string "stage.trim" stage) (fun s => Ok (normalizeName s)).

(** Which of the three endings of a lookup was taken; each one logs its
    own message ("Found exact match", "Found partial match", "No match"). *)
Inductive Lookup : Type :=
| ExactMatch (id : string)
| PartialMatch (id : string)
| NoMatch.

(** What the lookup functions return: [string | null]. *)
Definition lookup_result (l : Lookup) : value :=
  match l with
  | ExactMatch id | PartialMatch id => JStr id
  | NoMatch => JNull
  end.

(** [normalizeStage(s.name) === normalized] *)
Definition exact (normalized : option string) (s : Stage) : bool :=
  same (normalizeName (stage_name s)) normalized.

(** [sNormalized?.includes(normalized || "")
     || normalized?.includes(sNormalized || "")] *)
Definition partial (normalized : option string) (s : Stage) : bool :=
  let sNormalized := normalizeName (stage_name s) in
  let or_empty (o : option string) := match o with Some x => x | None => "" end in
  match sNormalized with
  | Some x => includes x (or_empty normalized)
  | None => false
  end
  ||
  match normalized with
  | Some y => includes y (or_empty sNormalized)
  | None => false
  end.

(** The body of [findApolloStageIdByName] once [stages] and [normalized]
    are known. *)
Definition findInStages (stages : list Stage) (normalized : option string) : Lookup :=
  match find (exact normalized) stages with
  | Some exactMatch => ExactMatch (stage_id exactMatch)
  | None =>
      match find (partial normalized) stages with
      | Some partialMatch => PartialMatch (stage_id partialMatch)
      | None => NoMatch
      end
  end.

Definition findApolloStageIdByName_lookup (w : World) (stageName : value) : M Lookup :=
  stages <- getApolloStages w ;;
  normalized <- lift (normalizeStage stageName) ;;
  ret (findInStages stages normalized).

Definition findApolloStageIdByName (w : World) (stageName : value) : M value :=
  l <- findApolloStageIdByName_lookup w stageName ;;
  ret (lookup_result l).

(** [findApolloStageIdByName(m)] for an inherited member [m] of the table:
    the stages are fetched, then [m.trim] is not a function. *)
Definition findApolloStageIdByName_inherited (w : World) : M value :=
  _ <- getApolloStages w ;;
  throw (TypeError "stage.trim is not a function").

(** [STAGE_NAME_MAPPING[attioStage]
     || STAGE_NAME_MAPPING[normalizeStage(attioStage) || ""]] *)
Definition mappedName (attioStage : value) : Result table_value :=
  let direct := table_get STAGE_NAME_MAPPING (toString attioStage) in
  if table_truthy direct then Ok direct
  else
    rbind (normalizeStage attioStage) (fun n =>
      Ok (table_get STAGE_NAME_MAPPING
            (match n with Some x => x | None => "" end))).

(** [mapStageToApollo(attioStage)] *)
Definition mapStageToApollo (w : World) (attioStage : value) : M value :=
  if negb (truthy attioStage) then ret attioStage else
  mapped <- lift (mappedName attioStage) ;;
  viaTable <-
    (match mapped with
     | TString name =>
         if negb (is_empty name) then
           stageId <- findApolloStageIdByName w (JStr name) ;;
           ret (if truthy stageId then Some stageId else None)
         else ret None
     | TInherited =>
         stageId <- findApolloStageIdByName_inherited w ;;
         ret (if truthy stageId then Some stageId else None)
     | TUndefined => ret None
     end) ;;
  match viaTable with
  | Some stageId => ret stageId
  | None =>
      stageId <- findApolloStageIdByName w attioStage ;;
      if truthy stageId then ret stageId
      else if (match attioStage with
               | JStr s => looks_like_stage_id s
               | _ => false
               end)
      then ret attioStage
      else ret attioStage
  end.

(** [a === b] between primitive values (the comparison of
    [validateStageMapping] sees strings). *)
Definition strict_eq (a b : value) : bool :=
  match a, b with
  | JUndefined, JUndefined => true
  | JNull, JNull => true
  | JBool x, JBool y => Bool.eqb x y
  | JNum x, JNum y => String.eqb x y && negb (String.eqb x "NaN")
  | JStr x, JStr y => String.eqb x y
  | _, _ => false
  end.

(** [s.id === apolloStage] *)
Definition has_id (apolloStage : string) (s : Stage) : bool :=
  String.eqb (stage_id s) apolloStage.

(** [validateStageMapping(attioStage, apolloStage)]: the list of warnings;
    [isValid] is its emptiness. *)
Definition validateStageMapping (w : World) (attioStage apolloStage : value)
  : M (list string) :=
  warnings <-
    (if truthy attioStage then
       mapped <- mapStageToApollo w attioStage ;;
       if strict_eq mapped attioStage
          && negb (table_truthy (table_get STAGE_NAME_MAPPING (toString attioStage)))
       then ret ["Attio stage " ++ dquote ++ toString attioStage ++ dquote
                   ++ " is not mapped to Apollo"]
       else ret []
     else ret []) ;;
  if truthy apolloStage then
    stages <- getApolloStages w ;;
    found <-
      (match apolloStage with
       | JStr s =>
           ret (if looks_like_stage_id s then find (has_id s) stages
                else find (exact (normalizeName s)) stages)
       | _ =>
           (* not an identifier; the callback of [find] calls
              [normalizeStage(apolloStage)] on the first stage *)
           match stages with
           | [] => ret None
           | _ :: _ => throw (TypeError "stage.trim is not a function")
           end
       end) ;;
    match found with
    | Some _ => ret warnings
    | None =>
        ret (app warnings
               ["Apollo stage " ++ dquote ++ toString apolloStage ++ dquote
                  ++ " not found in Apollo contact stages"])
    end
  else ret warnings.

End StageMapping.

(* ===================================================================== *)
(** * opportunity-stage-mapping.server.ts                                 *)
(* ===================================================================== *)

Module OpportunityStageMapping.
Import JS Api.
Local Open Scope sync_scope.

(** [getApolloOpportunityStages()] *)
Definition getApolloOpportunityStages (w : World) : M (list Stage) :=
  fun st =>
    match apolloOpportunityStagesCache st with
    | Some cached => (st, Ok cached)
    | None =>
        try_catch
          (stages <- call EvListOpportunityStages (listApolloOpportunityStages w) ;;
           let mapped :=
             map (fun s => {| stage_id := stage_id s; stage_name := stage_name s |})
                 stages in
           fun st' =>
             ({| trace := trace st';
                 apolloStagesCache := apolloStagesCache st';
                 apolloOpportunityStagesCache := Some mapped |},
              Ok mapped))
          (fun _ => ret [])
          st
    end.

Definition OPPORTUNITY_STAGE_NAME_MAPPING : list (string * string) :=
  [ ("NS/Reschedule", "NS/Reschedule");
    ("Discovery Call Booked", "Discovery Call Booked");
    ("Proposal Sent", "Proposal Sent");
    ("Negotiation", "Negotiation");
    ("Contract Sent", "Contract Sent");
    ("Closed Won", "Closed Won");
    ("Closed Lost", "Closed Lost");
    ("On Hold", "On Hold");
    ("ns/reschedule", "NS/Reschedule");
    ("discovery call booked", "Discovery Call Booked");
    ("proposal sent", "Proposal Sent");
    ("negotiation", "Negotiation");
    ("contract sent", "Contract Sent");
    ("closed won", "Closed Won");
    ("closed lost", "Closed Lost");
    ("on hold", "On Hold") ].

(** [normalizeStage] of this file, the same function as in
    stage-mapping.server.ts. *)
Definition normalizeName (stage : string) : option string :=
  if is_empty stage then None else Some (toLowerCase (trim stage)).

Definition normalizeStage (stage : value) : Result (option string) :=
  if negb (truthy stage) then Ok None
  else rbind (as_string "stage.trim" stage) (fun s => Ok (normalizeName s)).

Inductive Lookup : Type :=
| ExactMatch (id : string)
| PartialMatch (id : string)
| NoMatch.

Definition lookup_result (l : Lookup) : value :=
  match l with
  | ExactMatch id | PartialMatch id => JStr id
  | NoMatch => JNull
  end.

(** [normalizeStage(s.name) === normalizedSearch] *)
Definition exact (normalizedSearch : string) (s : Stage) : bool :=
  same (normalizeName (stage_name s)) (Some normalizedSearch).

(** [normalized && (normalized.includes(normalizedSearch)
                    || normalizedSearch.includes(normalized))] *)
Definition partial (normalizedSearch : string) (s : Stage) : bool :=
  match normalizeName (stage_name s) with
  | Some normalized =>
      negb (is_empty normalized)
      && (includes normalized normalizedSearch
          || includes normalizedSearch normalized)
  | None => false
  end.

(** The body of [findApolloOpportunityStageIdByName] once [stages] and
    [normalizedSearch] are known. *)
Definition findInStages (stages : list Stage) (normalizedSearch : option string)
  : Lookup :=
  match normalizedSearch with
  | None => NoMatch
  | Some search =>
      if is_empty search then NoMatch else
      match find (exact search) stages with
      | Some exactMatch => ExactMatch (stage_id exactMatch)
      | None =>
          match find (partial search) stages with
          | Some partialMatch => PartialMatch (stage_id partialMatch)
          | None => NoMatch
          end
      end
  end.

Definition findApolloOpportunityStageIdByName_lookup (w : World) (stageName : value)
  : M Lookup :=
  stages <- getApolloOpportunityStages w ;;
  match stages with
  | [] => ret NoMatch
  | _ :: _ =>
      normalizedSearch <- lift (normalizeStage stageName) ;;
      ret (findInStages stages normalizedSearch)
  end.

Definition findApolloOpportunityStageIdByName (w : World) (stageName : value)
  : M value :=
  l <- findApolloOpportunityStageIdByName_lookup w stageName ;;
  ret (lookup_result l).

(** The same call on an inherited member of the table. *)
Definition findApolloOpportunityStageIdByName_inherited (w : World) : M value :=
  stages <- getApolloOpportunityStages w ;;
  match stages with
  | [] => ret JNull
  | _ :: _ => throw (TypeError "stage.trim is not a function")
  end.

(** [const name = TABLE[key]; if (name) { const stageId = await find(name);
    if (stageId) return stageId }]: the identifier returned, if any. *)
Definition viaTable (w : World) (key : string) : M (option value) :=
  match table_get OPPORTUNITY_STAGE_NAME_MAPPING key with
  | TString name =>
      if negb (is_empty name) then
        stageId <- findApolloOpportunityStageIdByName w (JStr name) ;;
        ret (if truthy stageId then Some stageId else None)
      else ret None
  | TInherited =>
      stageId <- findApolloOpportunityStageIdByName_inherited w ;;
      ret (if truthy stageId then Some stageId else None)
  | TUndefined => ret None
  end.

(** [mapDealStageToApollo(attioStage)] *)
Definition mapDealStageToApollo (w : World) (attioStage : value) : M value :=
  if negb (truthy attioStage) then ret attioStage else
  s <- lift (as_string "attioStage.trim" attioStage) ;;
  let trimmedStage := trim s in
  if looks_like_stage_id trimmedStage then ret (JStr trimmedStage) else
  direct <- viaTable w trimmedStage ;;
  match direct with
  | Some stageId => ret stageId
  | None =>
      let normalized := normalizeName trimmedStage in
      byNormalized <-
        (match normalized with
         | Some n =>
             if negb (is_empty n) && negb (String.eqb n trimmedStage)
             then viaTable w n
             else ret None
         | None => ret None
         end) ;;
      match byNormalized with
      | Some stageId => ret stageId
      | None =>
          stageId <- findApolloOpportunityStageIdByName w (JStr trimmedStage) ;;
          if truthy stageId then ret stageId
          else ret (JStr trimmedStage)
      end
  end.

End OpportunityStageMapping.

(* ===================================================================== *)
(** * sync-to-apollo.server.ts                                            *)
(* ===================================================================== *)

(** What the three sync functions return: [{created, updated}]. *)
Record SyncResult : Type := { created : nat; updated : nat }.

Module SyncToApollo.
Import JS Api.
Local Open Scope sync_scope.

(** [a || b || ... || z]: the first truthy operand, else the last one. *)
Fixpoint or_chain (operands : list value) : value :=
  match operands with
  | [] => JUndefined
  | [x] => x
  | x :: rest => if truthy x then x else or_chain rest
  end.

(** [Object.keys(v).length > 0] for a truthy [v]. *)
Definition has_keys (v : value) : bool :=
  match v with
  | JObj (_ :: _) | JArr (_ :: _) | JStr (String _ _) => true
  | _ => false
  end.

(** [Object.keys(v)], as far as the keys can contain the words the scan
    looks for: the index keys of arrays and strings never do. *)
Definition named_keys (v : value) : list string :=
  match v with
  | JObj fields => map fst fields
  | _ => []
  end.

(** The email of the record: [(values.email_addresses || [])[0]?.email_address]. *)
Definition extractEmail (values : value) : value :=
  let emailAddresses := js_or (get values "email_addresses") (JArr []) in
  oget (first emailAddresses) "email_address".

(** [firstName] and [lastName] out of [values.name]. *)
Definition extractName (values : value) : value * value :=
  let nameData := get values "name" in
  match nameData with
  | JArr (nameEntry :: _) =>
      (js_or (oget nameEntry "first_name") JNull,
       js_or (oget nameEntry "last_name") JNull)
  | _ =>
      if truthy nameData && typeof_object nameData && negb (isArray nameData)
      then (js_or (get nameData "first_name") JNull,
            js_or (get nameData "last_name") JNull)
      else (JNull, JNull)
  end.

Definition STATUS_ATTRIBUTE_ID : string := "0357b938-75b6-4dc2-ab04-ff5fe6f4d9d6".

(** [stageData]: looked up in [values], then in [attributes]. *)
Definition findStageData (values attributes : value) : value :=
  let stageData :=
    or_chain [ get values "status"; get values "Status"; get values "status";
               get values "Status"; get values STATUS_ATTRIBUTE_ID;
               get values "Stage"; get values "stage";
               get values "lifecycle_stage"; get values "Stage";
               get values "stage" ] in
  if negb (truthy stageData) && has_keys attributes then
    or_chain [ get attributes "status"; get attributes "Status";
               get attributes "status"; get attributes "Status";
               get attributes STATUS_ATTRIBUTE_ID;
               get attributes "Stage"; get attributes "stage" ]
  else stageData.

(** [attioStageName] out of a truthy [stageData]. *)
Definition stageNameOf (stageData : value) : value :=
  match stageData with
  | JArr (stageEntry :: _) =>
      if truthy (oget (oget stageEntry "option") "title")
      then get (get stageEntry "option") "title"
      else or_chain [ oget stageEntry "title"; oget stageEntry "name";
                      oget stageEntry "value"; oget stageEntry "label"; JNull ]
  | JArr [] | JObj _ =>
      if truthy (oget (get stageData "option") "title")
      then get (get stageData "option") "title"
      else or_chain [ get stageData "title"; get stageData "name";
                      get stageData "value"; get stageData "label"; JNull ]
  | JStr _ => stageData
  | _ => JNull
  end.

(** The test on a key in the scan for a stage-like field. *)
Definition stage_like (key : string) : bool :=
  let keyLower := toLowerCase key in
  includes keyLower "stage" || includes keyLower "lifecycle"
  || String.eqb keyLower "status".

(** What one stage-like field does to [attioStageName]. *)
Definition stageNameOfField (stageValue attioStageName : value) : value :=
  match stageValue with
  | JArr (entry :: _) =>
      or_chain [ oget (oget entry "option") "title"; oget entry "title";
                 oget entry "name"; oget entry "value"; oget entry "label";
                 JNull ]
  | JArr [] | JObj _ =>
      or_chain [ oget (get stageValue "option") "title"; get stageValue "title";
                 get stageValue "name"; get stageValue "value";
                 get stageValue "label"; JNull ]
  | JStr _ => stageValue
  | _ => attioStageName
  end.

(** The loop over [Object.keys(values)] run when no stage data was found. *)
Fixpoint scanStageKeys (values : value) (keys : list string)
    (attioStageName : value) : value :=
  match keys with
  | [] => attioStageName
  | key :: rest =>
      let stageValue := get values key in
      let next :=
        if stage_like key && truthy stageValue && negb (truthy attioStageName)
        then stageNameOfField stageValue attioStageName
        else attioStageName in
      scanStageKeys values rest next
  end.

Definition extractStageName (values attributes : value) : value :=
  let stageData := findStageData values attributes in
  if truthy stageData then stageNameOf stageData
  else scanStageKeys values (named_keys values) JNull.

(** [additionalAttributes.k] *)
Definition attribute (additionalAttributes : fields) (k : string) : value :=
  match lookup k additionalAttributes with
  | Some v => v
  | None => JUndefined
  end.

Definition extra_keys : list string :=
  [ "title"; "organization_name"; "linkedin_url"; "twitter_url";
    "facebook_url"; "instagram_url"; "bio" ].

(** [v === ""] *)
Definition strict_empty (v : value) : bool :=
  match v with
  | JStr EmptyString => true
  | _ => false
  end.

(** The object [updateData] sent on the update path. *)
Definition updateData (email firstName lastName apolloStage : value)
    (additionalAttributes : fields) : fields :=
  ([("email", email)]
   ++ [("first_name", firstName)]
   ++ [("last_name", lastName)]
   ++ (if negb (is_nullish apolloStage) && negb (strict_empty apolloStage)
       then [("stage", apolloStage)] else [])
   ++ flat_map
        (fun k =>
           if negb (is_nullish (attribute additionalAttributes k))
           then [(k, attribute additionalAttributes k)] else [])
        extra_keys)%list.

(** The object sent on the create path. *)
Definition createData (email firstName lastName apolloStage : value)
    (additionalAttributes : fields) : fields :=
  ([("email", email); ("first_name", firstName); ("last_name", lastName);
    ("stage", apolloStage)]
   ++ map (fun k => (k, js_or (attribute additionalAttributes k) JNull))
          extra_keys)%list.

(** The parameters of both contact searches. *)
Definition searchParams (email : value) : fields :=
  [("q_keywords", email); ("per_page", JNum "1")].

(** [syncToApollo(recordId)] *)
Definition syncToApollo (w : World) (recordId : string) : M SyncResult :=
  attioRecord <- call (EvGetPerson recordId) (fun tr => getPerson w tr recordId) ;;
  match attioRecord with
  | None => throw (Error ("Failed to fetch Attio record " ++ recordId))
  | Some data =>
      let recordData := JObj data in
      let values := js_or (get recordData "values") (JObj []) in
      let attributes :=
        or_chain [ get recordData "attributes";
                   get recordData "attribute_values"; JObj [] ] in
      let email := extractEmail values in
      if negb (truthy email) then
        throw (Error ("No email address found for record " ++ recordId
                        ++ ". Email is required for syncing."))
      else
        let '(firstName, lastName) := extractName values in
        let attioStage := extractStageName values attributes in
        apolloStage <-
          (if truthy attioStage then
             apolloStage <- StageMapping.mapStageToApollo w attioStage ;;
             _ <- StageMapping.validateStageMapping w attioStage JNull ;;
             ret apolloStage
           else ret JNull) ;;
        additionalAttributes <-
          lift (AttributeMapping.extractAttioAttributes values) ;;
        apolloContacts <-
          call (EvSearchContacts (searchParams email))
               (fun tr => searchApolloContacts w tr (searchParams email)) ;;
        match apolloContacts with
        | existingContact :: _ =>
            match contact_id existingContact with
            | Some (String c rest as contactId) =>
                let data :=
                  updateData email firstName lastName apolloStage
                             additionalAttributes in
                _ <- call (EvUpdateContact contactId data)
                          (fun tr => updateApolloContact w tr contactId data) ;;
                _ <- call (EvSearchContacts (searchParams email))
                          (fun tr => searchApolloContacts w tr (searchParams email)) ;;
                ret {| created := 0; updated := 1 |}
            | _ => throw (Error "Found Apollo contact but missing ID")
            end
        | [] =>
            let data :=
              createData email firstName lastName apolloStage
                         additionalAttributes in
            _ <- call (EvCreateContact data)
                      (fun tr => createApolloContact w tr data) ;;
            ret {| created := 1; updated := 0 |}
        end
  end.

End SyncToApollo.

(* ===================================================================== *)
(** * record.updated.event.ts                                             *)
(* ===================================================================== *)

Module RecordUpdated.
Import JS Api.
Local Open Scope sync_scope.

(** The event: [{object, recordId}]. *)
Record RecordEvent : Type := { object : string; recordId : string }.

(** [onRecordUpdated(event)]: the handler returns nothing; the sync runs
    inside [try], and the [catch] block only logs. *)
Definition onRecordUpdated (w : World) (event : RecordEvent) : M unit :=
  if negb (String.eqb (object event) "people") then ret tt
  else
    try_catch
      (_ <- SyncToApollo.syncToApollo w (recordId event) ;;
       ret tt)
      (fun _ => ret tt).

End RecordUpdated.

(* ===================================================================== *)
(** * sync-deal-to-apollo.server.ts                                       *)
(* ===================================================================== *)

Module SyncDealToApollo.
Import JS Api.
Local Open Scope sync_scope.

Definition or_chain := SyncToApollo.or_chain.

(** The line feed of the template literals. *)
Definition LF : string := String (ascii_of_nat 10) EmptyString.

(** [String(v).trim()] when [v] is truthy. *)
Definition trimmed_if_truthy (v : value) : option string :=
  if truthy v then Some (trim (toString v)) else None.

(** The first candidate that is there. *)
Fixpoint first_some (candidates : list (option string)) : option string :=
  match candidates with
  | [] => None
  | Some s :: _ => Some s
  | None :: rest => first_some rest
  end.

(** [extractAttioValue] of this file: every result goes through
    [String(...)] or is a string already; [None] is [null]. *)
Definition extractAttioValue (attioData : value) : option string :=
  if negb (truthy attioData) then None else
  match attioData with
  | JArr (entry :: _) =>
      first_some
        [ trimmed_if_truthy (oget (oget entry "option") "title");
          (if negb (is_nullish (oget entry "value"))
           then Some (trim (toString (get entry "value"))) else None);
          trimmed_if_truthy (oget entry "title");
          trimmed_if_truthy (oget entry "name");
          trimmed_if_truthy (oget entry "label") ]
  | JStr s => Some (trim s)
  | JNum _ => Some (toString attioData)
  | JArr [] | JObj _ =>
      first_some
        [ (if truthy (get attioData "option")
              && typeof_object (get attioData "option")
           then trimmed_if_truthy (get (get attioData "option") "title")
           else None);
          (if negb (is_nullish (get attioData "value"))
           then Some (trim (toString (get attioData "value"))) else None);
          trimmed_if_truthy (get attioData "title");
          trimmed_if_truthy (get attioData "name");
          trimmed_if_truthy (get attioData "label") ]
  | _ => None
  end.

(** [Number(v)] when [v] is neither [undefined] nor [null] and the number
    is not [NaN]. *)
Definition number_of (w : World) (v : value) : option value :=
  if is_nullish v then None
  else match to_number w v with
       | Some repr => Some (JNum repr)
       | None => None
       end.

Fixpoint first_number (candidates : list (option value)) : option value :=
  match candidates with
  | [] => None
  | Some n :: _ => Some n
  | None :: rest => first_number rest
  end.

(** The candidates read from an entry or an object, in order:
    [currency_value] of a currency attribute, [value], [numeric_value],
    [amount]. *)
Definition number_candidates (w : World) (o : value) : list (option value) :=
  [ (match get o "attribute_type" with
     | JStr "currency" => number_of w (get o "currency_value")
     | _ => None
     end);
    number_of w (get o "value");
    number_of w (get o "numeric_value");
    number_of w (get o "amount") ].

(** [s.replace(/[$,€£¥]/g, '').replace(/,/g, '')] on code units below 256. *)
Fixpoint strip_currency (s : string) : string :=
  match s with
  | EmptyString => EmptyString
  | String c rest =>
      let n := nat_of_ascii c in
      if ((n =? 36) || (n =? 44) || (n =? 163) || (n =? 165))%nat
      then strip_currency rest
      else String c (strip_currency rest)
  end.

(** [extractNumberValue] of this file; [JNull] is [null]. *)
Definition extractNumberValue (w : World) (attioData : value) : value :=
  if negb (truthy attioData) then JNull else
  let from_entry :=
    match attioData with
    | JArr (entry :: _) => first_number (number_candidates w entry)
    | _ => None
    end in
  match from_entry with
  | Some n => n
  | None =>
      match attioData with
      | JNum _ => attioData
      | JStr s =>
          match to_number w (JStr (trim (strip_currency s))) with
          | Some repr => JNum repr
          | None => JNull
          end
      | JArr _ | JObj _ =>
          match first_number (number_candidates w attioData) with
          | Some n => n
          | None => JNull
          end
      | _ => JNull
      end
  end.

(** [description]: the first of [description], [notes], [deal_notes] and
    [summary] that is there. *)
Definition extractDescription (values : value) : option string :=
  extractAttioValue
    (or_chain [ get values "description"; get values "notes";
                get values "deal_notes"; get values "summary" ]).

(** [dealName] out of [values.name || values.title]. *)
Definition extractDealName (values : value) : value :=
  let nameData := js_or (get values "name") (get values "title") in
  match nameData with
  | JArr (entry :: _) =>
      or_chain [ oget entry "name"; oget entry "value"; oget entry "title"; JNull ]
  | JStr _ => nameData
  | JArr [] | JObj _ =>
      or_chain [ get nameData "name"; get nameData "value";
                 get nameData "title"; JNull ]
  | _ => JNull
  end.

(** The three places a stage title is read from, on an entry or an object. *)
Definition stageTitleOf (o : value) : option string :=
  if truthy (oget (oget o "status") "title")
  then Some (trim (toString (get (get o "status") "title")))
  else if truthy (oget (oget o "option") "title")
  then Some (trim (toString (get (get o "option") "title")))
  else if truthy (oget o "value")
  then Some (trim (toString (get o "value")))
  else None.

(** [attioStage] out of [values.stage]. *)
Definition extractStage (values : value) : option string :=
  let stage := get values "stage" in
  if truthy stage then
    match stage with
    | JArr (stageEntry :: _) => stageTitleOf stageEntry
    | JStr s => Some (trim s)
    | JArr [] | JObj _ => stageTitleOf stage
    | _ => None
    end
  else None.

(** [attioCompanyRecordId] and [accountName] out of the company reference. *)
Definition extractCompany (values : value) : value * value :=
  let companyData :=
    or_chain [ get values "company"; get values "organization";
               get values "associated_company" ] in
  if truthy companyData then
    match companyData with
    | JArr (company :: _) =>
        (or_chain [ oget (oget company "id") "record_id"; oget company "id"; JNull ],
         or_chain [ oget company "name"; oget company "title";
                    oget company "value"; JNull ])
    | JArr [] | JObj _ =>
        (or_chain [ oget (get companyData "id") "record_id";
                    get companyData "id"; JNull ],
         or_chain [ get companyData "name"; get companyData "title";
                    get companyData "value"; JNull ])
    | JStr _ => (JNull, companyData)
    | _ => (JNull, JNull)
    end
  else (JNull, JNull).

(** [`[Attio Record ID: ${recordId}]`] *)
Definition attioRecordIdMarker (recordId : string) : string :=
  "[Attio Record ID: " ++ recordId ++ "]".

(** [opp.description && opp.description.includes(attioRecordIdMarker)] *)
Definition marker_match (recordId : string) (opp : ApolloOpportunity) : bool :=
  match opp_description opp with
  | Some d => negb (is_empty d) && includes d (attioRecordIdMarker recordId)
  | None => false
  end.

(** [opp.name && opp.name.toLowerCase().trim()
                 === dealName.toLowerCase().trim()] for a string [dealName]. *)
Definition name_match (dealName : string) (opp : ApolloOpportunity) : bool :=
  match opp_name opp with
  | Some n =>
      negb (is_empty n)
      && String.eqb (trim (toLowerCase n)) (trim (toLowerCase dealName))
  | None => false
  end.

(** [opp.name] is truthy: the callback goes on to [dealName.toLowerCase()]. *)
Definition has_name (opp : ApolloOpportunity) : bool :=
  match opp_name opp with
  | Some n => negb (is_empty n)
  | None => false
  end.

(** The two [find]s that choose [matchedOpp].  The second one throws when
    [dealName] is not a string and some result has a name. *)
Definition findMatchedOpp (recordId : string) (dealName : value)
    (apolloOpps : list ApolloOpportunity) : Result (option ApolloOpportunity) :=
  match find (marker_match recordId) apolloOpps with
  | Some opp => Ok (Some opp)
  | None =>
      match dealName with
      | JStr name => Ok (find (name_match name) apolloOpps)
      | _ =>
          if existsb has_name apolloOpps
          then Throw (TypeError "dealName.toLowerCase is not a function")
          else Ok None
      end
  end.

(** The description written on the update path. *)
Definition updateDescription (recordId : string) (description : option string)
  : string :=
  match description with
  | Some d =>
      if negb (is_empty d) then
        if negb (includes d (attioRecordIdMarker recordId))
        then d ++ LF ++ LF ++ attioRecordIdMarker recordId
        else d
      else attioRecordIdMarker recordId
  | None => attioRecordIdMarker recordId
  end.

(** The description written on the create path. *)
Definition descriptionWithMarker (recordId : string) (description : option string)
  : string :=
  match description with
  | Some d =>
      if negb (is_empty d)
      then d ++ LF ++ LF ++ attioRecordIdMarker recordId
      else attioRecordIdMarker recordId
  | None => attioRecordIdMarker recordId
  end.

Definition of_nullable (o : option string) : value :=
  match o with
  | Some s => JStr s
  | None => JNull
  end.

(** The stage entry of [updateData]: [stage_id] when the mapping answers
    something shaped like an identifier, [stage_name] otherwise and when
    the mapping throws. *)
Definition stageFields (w : World) (attioStage : option string) : M fields :=
  match attioStage with
  | Some (String _ _ as stage) =>
      try_catch
        (stageId <- OpportunityStageMapping.mapDealStageToApollo w (JStr stage) ;;
         match stageId with
         | JStr id =>
             if negb (is_empty id) && looks_like_stage_id id
             then ret [("stage_id", stageId)]
             else ret [("stage_name", JStr stage)]
         | _ => ret [("stage_name", JStr stage)]
         end)
        (fun _ => ret [("stage_name", JStr stage)])
  | _ => ret []
  end.

Definition nonempty (o : option string) : bool :=
  match o with
  | Some (String _ _) => true
  | _ => false
  end.

(** [stage_name: attioStage || undefined] *)
Definition stage_or_undefined (attioStage : option string) : value :=
  match attioStage with
  | Some (String _ _ as stage) => JStr stage
  | _ => JUndefined
  end.

(** [syncDealToApollo(recordId)] *)
Definition syncDealToApollo (w : World) (recordId : string) : M SyncResult :=
  attioRecord <- call (EvGetDeal recordId) (fun tr => getDeal w tr recordId) ;;
  match attioRecord with
  | None => throw (Error ("Failed to fetch Attio deal record " ++ recordId))
  | Some data =>
      let recordData := JObj data in
      let values := js_or (get recordData "values") (JObj []) in
      let dealName := extractDealName values in
      if negb (truthy dealName) then
        throw (Error ("No deal name found for record " ++ recordId
                        ++ ". Name is required for syncing."))
      else
        let amount :=
          extractNumberValue w
            (or_chain [ get values "amount"; get values "value";
                        get values "deal_value"; get values "total_value";
                        get values "deal_amount" ]) in
        let attioStage := extractStage values in
        let probability :=
          extractNumberValue w
            (or_chain [ get values "probability"; get values "close_probability";
                        get values "win_probability";
                        get values "probability_percent" ]) in
        let closeDate :=
          extractAttioValue
            (or_chain [ get values "close_date"; get values "expected_close_date";
                        get values "closed_date"; get values "target_close_date";
                        get values "closeDate" ]) in
        let description := extractDescription values in
        let '(attioCompanyRecordId, accountName) := extractCompany values in
        accountId <-
          (if truthy attioCompanyRecordId then
             try_catch
               (call (EvGetApolloOrganizationId attioCompanyRecordId)
                     (fun tr => getApolloOrganizationId w tr attioCompanyRecordId))
               (fun _ => ret JNull)
           else ret JNull) ;;
        let byName := [("name", dealName); ("per_page", JNum "20")] in
        let byKeywords := [("q_keywords", dealName); ("per_page", JNum "20")] in
        apolloOpps <-
          call (EvSearchOpportunities byName)
               (fun tr => searchApolloOpportunities w tr byName) ;;
        apolloOpps <-
          (match apolloOpps with
           | [] => call (EvSearchOpportunities byKeywords)
                        (fun tr => searchApolloOpportunities w tr byKeywords)
           | _ :: _ => ret apolloOpps
           end) ;;
        matchedOpp <- lift (findMatchedOpp recordId dealName apolloOpps) ;;
        match matchedOpp with
        | Some existingOpp =>
            match opp_id existingOpp with
            | Some (String _ _ as oppId) =>
                stage <- stageFields w attioStage ;;
                let updateData : fields :=
                  ([("name", dealName)]
                   ++ (if truthy accountId then [("account_id", accountId)]
                       else if truthy accountName
                       then [("account_name", accountName)] else [])
                   ++ (if negb (is_nullish amount) then [("amount", amount)] else [])
                   ++ stage
                   ++ (if negb (is_nullish probability)
                       then [("probability", probability)] else [])
                   ++ (if nonempty closeDate
                       then [("close_date", of_nullable closeDate)] else [])
                   ++ [("description",
                        JStr (updateDescription recordId description))])%list in
                _ <- call (EvUpdateOpportunity oppId updateData)
                          (fun tr => updateApolloOpportunity w tr oppId updateData) ;;
                ret {| created := 0; updated := 1 |}
            | _ => throw (Error "Found Apollo opportunity but missing ID")
            end
        | None =>
            let opp : fields :=
              [ ("name", dealName); ("account_id", accountId);
                ("account_name", accountName); ("amount", amount);
                ("stage_name", stage_or_undefined attioStage);
                ("probability", probability);
                ("close_date", of_nullable closeDate);
                ("description",
                 JStr (descriptionWithMarker recordId description)) ] in
            _ <- call (EvCreateOpportunity opp)
                      (fun tr => createApolloOpportunity w tr opp) ;;
            ret {| created := 1; updated := 0 |}
        end
  end.

End SyncDealToApollo.

(* ===================================================================== *)
(** * sync-company-to-apollo.server.ts                                    *)
(* ===================================================================== *)

Module SyncCompanyToApollo.
Import JS Api.
Local Open Scope sync_scope.

Definition or_chain := SyncToApollo.or_chain.

(** [extractAttioValue] of this file.  Its last array case hands back
    [title] or [label] as they are. *)
Definition extractAttioValue (attioData : value) : value :=
  if negb (truthy attioData) then JNull else
  match attioData with
  | JArr (entry :: _) =>
      if negb (is_nullish (oget entry "value"))
      then JStr (toString (get entry "value"))
      else if truthy (oget entry "name")
      then JStr (toString (get entry "name"))
      else or_chain [ oget entry "title"; oget entry "label"; JNull ]
  | JStr _ | JNum _ => JStr (toString attioData)
  | JArr [] | JObj _ =>
      if typeof_string (get attioData "value") then get attioData "value"
      else if typeof_string (get attioData "name") then get attioData "name"
      else if typeof_string (get attioData "title") then get attioData "title"
      else if typeof_string (get attioData "label") then get attioData "label"
      else JNull
  | _ => JNull
  end.

(** [extractNumberValue] of this file. *)
Definition extractNumberValue (w : World) (attioData : value) : value :=
  if negb (truthy attioData) then JNull else
  let from_entry : option value :=
    match attioData with
    | JArr (entry :: _) =>
        if negb (is_nullish (oget entry "value"))
        then Some (match to_number w (get entry "value") with
                   | Some repr => JNum repr
                   | None => JNull
                   end)
        else None
    | _ => None
    end in
  match from_entry with
  | Some n => n
  | None =>
      match attioData with
      | JNum _ => attioData
      | JStr _ =>
          match to_number w attioData with
          | Some repr => JNum repr
          | None => JNull
          end
      | _ => JNull
      end
  end.

(** [s.replace(/^https?:\/\//, '')] *)
Definition strip_scheme (s : string) : string :=
  if startsWith s "http://" then String.substring 7 (String.length s - 7) s
  else if startsWith s "https://" then String.substring 8 (String.length s - 8) s
  else s.

(** [s.replace(/^www\./, '')] *)
Definition strip_www (s : string) : string :=
  if startsWith s "www." then String.substring 4 (String.length s - 4) s else s.

(** No LF and no CR: what [.*] can run over up to the end of the input. *)
Fixpoint one_line (s : string) : bool :=
  match s with
  | EmptyString => true
  | String c rest =>
      negb ((nat_of_ascii c =? 10) || (nat_of_ascii c =? 13))%nat && one_line rest
  end.

(** [s.replace(/\/.*$/, '')]: cut from the first slash that is followed by
    no line break. *)
Fixpoint cut_path (s : string) : string :=
  match s with
  | EmptyString => EmptyString
  | String c rest =>
      if Ascii.eqb c "/" && one_line rest then EmptyString
      else String c (cut_path rest)
  end.

(** [companyName] out of [values.name]. *)
Definition extractCompanyName (values : value) : value :=
  let nameData := get values "name" in
  match nameData with
  | JArr (entry :: _) => or_chain [ oget entry "name"; oget entry "value"; JNull ]
  | JStr _ => nameData
  | JArr [] | JObj _ =>
      or_chain [ get nameData "name"; get nameData "value"; JNull ]
  | _ => JNull
  end.

(** [domain] after the block on [values.domains]. *)
Definition domainFromDomains (values : value) : Result value :=
  let domainData := get values "domains" in
  if truthy domainData then
    let domain :=
      match domainData with
      | JArr (firstDomain :: _) =>
          if typeof_string firstDomain then firstDomain
          else if truthy firstDomain && typeof_object firstDomain
          then or_chain [ get firstDomain "value"; get firstDomain "name";
                          get firstDomain "domain"; get firstDomain "title";
                          JNull ]
          else JNull
      | _ => extractAttioValue domainData
      end in
    if truthy domain then
      rbind (as_string "domain.replace" domain) (fun d =>
        Ok (JStr (trim (cut_path (strip_www (strip_scheme d))))))
    else Ok domain
  else Ok JNull.

(** The URL handed to [new URL]. *)
Definition with_scheme (s : string) : string :=
  if startsWith s "http" then s else "https://" ++ s.

(** [domain] after the fallback on the website fields. *)
Definition domainFromWebsite (w : World) (values domain : value) : Result value :=
  if negb (truthy domain) then
    let websiteUrl :=
      extractAttioValue
        (or_chain [ get values "website_url"; get values "website";
                    get values "domain" ]) in
    if truthy websiteUrl then
      rbind (as_string "websiteUrl.match" websiteUrl) (fun s =>
        match url_hostname w (with_scheme s) with
        | Some hostname => Ok (JStr (strip_www hostname))
        | None =>
            match domain_regex w s with
            | Some d => Ok (JStr d)
            | None => Ok domain
            end
        end)
    else Ok domain
  else Ok domain.

(** [account.name && account.name.toLowerCase().trim()
                    === companyName.toLowerCase().trim()] *)
Definition name_match (companyName : string) (account : ApolloAccount) : bool :=
  match account_name account with
  | Some n =>
      negb (is_empty n)
      && String.eqb (trim (toLowerCase n)) (trim (toLowerCase companyName))
  | None => false
  end.

Definition has_name (account : ApolloAccount) : bool :=
  match account_name account with
  | Some n => negb (is_empty n)
  | None => false
  end.

Definition findExactNameMatch (companyName : value)
    (apolloAccounts : list ApolloAccount) : Result (option ApolloAccount) :=
  match companyName with
  | JStr name => Ok (find (name_match name) apolloAccounts)
  | _ =>
      if existsb has_name apolloAccounts
      then Throw (TypeError "companyName.toLowerCase is not a function")
      else Ok None
  end.

(** The callback of the search for an exact domain match. *)
Definition domain_match (w : World) (attioDomainLower : string)
    (account : ApolloAccount) : bool :=
  match account_domain account with
  | Some (String _ _ as d) =>
      String.eqb (trim (toLowerCase (strip_www d))) attioDomainLower
  | _ =>
      match account_website_url account with
      | Some (String _ _ as u) =>
          match url_hostname w (with_scheme u) with
          | Some hostname =>
              String.eqb (toLowerCase (strip_www hostname)) attioDomainLower
          | None =>
              match domain_regex w u with
              | Some d => String.eqb (toLowerCase (strip_www d)) attioDomainLower
              | None => false
              end
          end
      | _ => false
      end
  end.

Definition add_if_truthy (k : string) (v : value) : fields :=
  if truthy v then [(k, v)] else [].

(** [syncCompanyToApollo(recordId)] *)
Definition syncCompanyToApollo (w : World) (recordId : string) : M SyncResult :=
  attioRecord <- call (EvGetCompany recordId) (fun tr => getCompany w tr recordId) ;;
  match attioRecord with
  | None => throw (Error ("Failed to fetch Attio company record " ++ recordId))
  | Some data =>
      let recordData := JObj data in
      let values := js_or (get recordData "values") (JObj []) in
      let companyName := extractCompanyName values in
      if negb (truthy companyName) then
        throw (Error ("No company name found for record " ++ recordId
                        ++ ". Name is required for syncing."))
      else
        domain <- lift (domainFromDomains values) ;;
        domain <- lift (domainFromWebsite w values domain) ;;
        let websiteUrl :=
          extractAttioValue (or_chain [ get values "website_url"; get values "website" ]) in
        let linkedinUrl :=
          extractAttioValue (or_chain [ get values "linkedin"; get values "linkedin_url" ]) in
        let twitterUrl :=
          extractAttioValue (or_chain [ get values "twitter"; get values "twitter_url" ]) in
        let facebookUrl :=
          extractAttioValue (or_chain [ get values "facebook"; get values "facebook_url" ]) in
        let instagramUrl :=
          extractAttioValue (or_chain [ get values "instagram"; get values "instagram_url" ]) in
        let description :=
          extractAttioValue
            (or_chain [ get values "description"; get values "bio"; get values "about" ]) in
        let industry :=
          extractAttioValue (or_chain [ get values "industry"; get values "sector" ]) in
        let numEmployees :=
          extractNumberValue w
            (or_chain [ get values "num_employees"; get values "employee_count";
                        get values "estimated_num_employees" ]) in
        let location := get values "primary_location" in
        let city := extractAttioValue (js_or (get values "city") (oget location "city")) in
        let state := extractAttioValue (js_or (get values "state") (oget location "state")) in
        let country :=
          extractAttioValue (js_or (get values "country") (oget location "country")) in
        let params := [("name", companyName); ("per_page", JNum "50")] in
        found <- call (EvSearchAccounts params)
                      (fun tr => searchApolloAccounts w tr params) ;;
        exactNameMatch <- lift (findExactNameMatch companyName found) ;;
        let apolloAccounts :=
          match exactNameMatch with
          | Some account => [account]
          | None => []
          end in
        apolloAccounts <-
          (match apolloAccounts, domain with
           | [], JStr (String _ _ as d) =>
               domainResults <- call (EvSearchAccounts params)
                                     (fun tr => searchApolloAccounts w tr params) ;;
               match find (domain_match w (trim (toLowerCase d))) domainResults with
               | Some account => ret [account]
               | None => ret apolloAccounts
               end
           | _, _ => ret apolloAccounts
           end) ;;
        let updateData : fields :=
          (add_if_truthy "name" companyName
           ++ add_if_truthy "website_url" websiteUrl
           ++ add_if_truthy "linkedin_url" linkedinUrl
           ++ add_if_truthy "twitter_url" twitterUrl
           ++ add_if_truthy "facebook_url" facebookUrl
           ++ add_if_truthy "instagram_url" instagramUrl
           ++ add_if_truthy "description" description
           ++ add_if_truthy "industry" industry
           ++ (match numEmployees with
               | JNull => []
               | _ => [("estimated_num_employees", numEmployees)]
               end)
           ++ add_if_truthy "city" city
           ++ add_if_truthy "state" state
           ++ add_if_truthy "country" country)%list in
        let account : fields :=
          [ ("name", companyName); ("website_url", websiteUrl);
            ("linkedin_url", linkedinUrl); ("twitter_url", twitterUrl);
            ("facebook_url", facebookUrl); ("instagram_url", instagramUrl);
            ("description", description); ("industry", industry);
            ("estimated_num_employees", numEmployees); ("city", city);
            ("state", state); ("country", country) ] in
        let accountId : option string :=
          match apolloAccounts with
          | bestMatch :: _ =>
              match account_id bestMatch with
              | Some (String _ _ as id) => Some id
              | _ => None
              end
          | [] => None
          end in
        match accountId with
        | Some accountId =>
            _ <- call (EvUpdateAccount accountId updateData)
                      (fun tr => updateApolloAccount w tr accountId updateData) ;;
            ret {| created := 0; updated := 1 |}
        | None =>
            _ <- call (EvCreateAccount account)
                      (fun tr => createApolloAccount w tr account) ;;
            ret {| created := 1; updated := 0 |}
        end
  end.

End SyncCompanyToApollo.

(* ===================================================================== *)
(** * Notions used to state the properties                                *)
(* ===================================================================== *)

Module Spec.
Import JS Api.

(** Two names are equal case-insensitively after trimming. *)
Definition ci_equal (a b : string) : Prop :=
  toLowerCase (trim a) = toLowerCase (trim b).

Definition ci_equalb (a b : string) : bool :=
  String.eqb (toLowerCase (trim a)) (toLowerCase (trim b)).

(** The lookup [table[key]] fails: [key] is no entry of the table and no
    name of a member that every object inherits from [Object.prototype]
    ([constructor], [toString], [valueOf], [hasOwnProperty], ...), which a
    plain object used as a table answers with a function. *)
Definition misses (table : list (string * string)) (key : string) : Prop :=
  lookup key table = None /\ ~ In key object_prototype_keys.

(** The number of positions of [s] at which [sub] occurs. *)
Fixpoint occurrences (s sub : string) : nat :=
  (if startsWith s sub then 1 else 0)
  + match s with
    | EmptyString => 0
    | String _ rest => occurrences rest sub
    end.

(** The character [c] occurs in [s]. *)
Fixpoint mem_char (c : ascii) (s : string) : bool :=
  match s with
  | EmptyString => false
  | String x rest => Ascii.eqb x c || mem_char c rest
  end.

(** A person record holds no email address: [email_addresses] is missing
    or empty, or its first entry has no [email_address]. *)
Inductive NoEmail (values : value) : Prop :=
| NoEmail_missing : get values "email_addresses" = JUndefined -> NoEmail values
| NoEmail_empty : get values "email_addresses" = JArr [] -> NoEmail values
| NoEmail_first (entry : value) (rest : list value) :
    get values "email_addresses" = JArr (entry :: rest) ->
    get entry "email_address" = JUndefined ->
    NoEmail values.

(** [values] of a record [data], as the sync functions read it. *)
Definition values_of (data : fields) : value :=
  js_or (get (JObj data) "values") (JObj []).

(** The events a run added to the log. *)
Definition added (before after : State) : list Event :=
  skipn (List.length (trace before)) (trace after).


(** The name test of the deal sync on a [dealName] of any type: a name
    that is not a string matches nothing. *)
Definition deal_name_matches (dealName : value) (opp : ApolloOpportunity) : bool :=
  match dealName with
  | JStr name => SyncDealToApollo.name_match name opp
  | _ => false
  end.

(** The source description holds no marker of the record. *)
Definition marker_free (recordId : string) (description : option string) : Prop :=
  match description with
  | Some d => includes d (SyncDealToApollo.attioRecordIdMarker recordId) = false
  | None => True
  end.

(** The line feed, as a character. *)
Definition lf : ascii := ascii_of_nat 10.



(** The description a deal sync that returned has sent: the log ends with
    an update or a creation whose [description] field is built from the
    description of the record [data]. *)
Definition deal_description_sent (w : World) (recordId : string)
    (st st' : State) : Prop :=
  exists (data : fields) (payload : fields) (before : list Event),
    getDeal w (trace st) recordId = Ok (Some data)
    /\ ((exists oppId : string,
            trace st' = (before ++ [EvUpdateOpportunity oppId payload])%list
            /\ lookup "description" payload
               = Some (JStr (SyncDealToApollo.updateDescription recordId
                               (SyncDealToApollo.extractDescription
                                  (values_of data)))))
        \/ (trace st' = (before ++ [EvCreateOpportunity payload])%list
            /\ lookup "description" payload
               = Some (JStr (SyncDealToApollo.descriptionWithMarker recordId
                               (SyncDealToApollo.extractDescription
                                  (values_of data)))))).

(** What [findApolloOpportunityStageIdByName] computes from a cached
    stage list. *)
Definition opportunity_lookup (stages : list Stage) (stageName : value)
  : Result OpportunityStageMapping.Lookup :=
  match stages with
  | [] => Ok OpportunityStageMapping.NoMatch
  | _ :: _ =>
      rbind (OpportunityStageMapping.normalizeStage stageName)
        (fun n => Ok (OpportunityStageMapping.findInStages stages n))
  end.

End Spec.

(* ===================================================================== *)
(** * Concrete records and worlds                                         *)
(* ===================================================================== *)

Module Examples.
Import JS Api.

Definition dummyContact : ApolloContact :=
  {| contact_id := Some "c0"; contact_email := None;
     contact_first_name := None; contact_last_name := None |}.

Definition dummyOpp : ApolloOpportunity :=
  {| opp_id := Some "o0"; opp_name := None; opp_description := None;
     opp_account_id := None |}.

Definition dummyAccount : ApolloAccount :=
  {| account_id := Some "a0"; account_name := None; account_domain := None;
     account_website_url := None |}.

(** A world whose answers do not change: the three records of the source
    CRM, the two stage lists and the three search results. *)
Definition world (person company deal : AttioResponse)
    (contactStages opportunityStages : list Stage)
    (contacts : list ApolloContact) (opps : list ApolloOpportunity)
    (accounts : list ApolloAccount) : World :=
  {| getPerson := fun _ _ => Ok person;
     getCompany := fun _ _ => Ok company;
     getDeal := fun _ _ => Ok deal;
     listApolloContactStages := fun _ => Ok contactStages;
     listApolloOpportunityStages := fun _ => Ok opportunityStages;
     searchApolloContacts := fun _ _ => Ok contacts;
     createApolloContact := fun _ _ => Ok dummyContact;
     updateApolloContact := fun _ _ _ => Ok dummyContact;
     searchApolloOpportunities := fun _ _ => Ok opps;
     createApolloOpportunity := fun _ _ => Ok dummyOpp;
     updateApolloOpportunity := fun _ _ _ => Ok dummyOpp;
     searchApolloAccounts := fun _ _ => Ok accounts;
     createApolloAccount := fun _ _ => Ok dummyAccount;
     updateApolloAccount := fun _ _ _ => Ok dummyAccount;
     getApolloOrganizationId := fun _ _ => Ok JNull;
     url_hostname := fun _ => None;
     domain_regex := fun _ => None;
     to_number := fun _ => None |}.

(** A world in which every call to the target platform fails. *)
Definition apollo_down (person : AttioResponse) : World :=
  {| getPerson := fun _ _ => Ok person;
     getCompany := fun _ _ => Ok None;
     getDeal := fun _ _ => Ok None;
     listApolloContactStages := fun _ => Throw (Error "down");
     listApolloOpportunityStages := fun _ => Throw (Error "down");
     searchApolloContacts := fun _ _ => Throw (Error "down");
     createApolloContact := fun _ _ => Throw (Error "down");
     updateApolloContact := fun _ _ _ => Throw (Error "down");
     searchApolloOpportunities := fun _ _ => Throw (Error "down");
     createApolloOpportunity := fun _ _ => Throw (Error "down");
     updateApolloOpportunity := fun _ _ _ => Throw (Error "down");
     searchApolloAccounts := fun _ _ => Throw (Error "down");
     createApolloAccount := fun _ _ => Throw (Error "down");
     updateApolloAccount := fun _ _ _ => Throw (Error "down");
     getApolloOrganizationId := fun _ _ => Throw (Error "down");
     url_hostname := fun _ => None;
     domain_regex := fun _ => None;
     to_number := fun _ => None |}.

Definition closedWon : list Stage :=
  [ {| stage_id := "1"; stage_name := "Closed Won" |} ].

(** A state whose two stage caches hold [stages]. *)
Definition cached (stages : list Stage) : State :=
  {| trace := []; apolloStagesCache := Some stages;
     apolloOpportunityStagesCache := Some stages |}.

(** [{email_addresses: [{email_address: "ada@example.com"}],
      name: [{first_name: "Ada", last_name: "Lovelace"}]}] *)
Definition ada : fields :=
  [ ("values",
     JObj [ ("email_addresses",
             JArr [ JObj [ ("email_address", JStr "ada@example.com") ] ]);
            ("name",
             JArr [ JObj [ ("first_name", JStr "Ada");
                           ("last_name", JStr "Lovelace") ] ]) ]) ].

(** A person record without [email_addresses]. *)
Definition nobody : fields :=
  [ ("values", JObj [ ("name", JArr [ JObj [ ("first_name", JStr "Ada") ] ]) ]) ].

(** A contact of the target platform with another email. *)
Definition grace : ApolloContact :=
  {| contact_id := Some "c1"; contact_email := Some "grace@example.com";
     contact_first_name := Some "Grace"; contact_last_name := Some "Hopper" |}.

(** A deal named "Big Deal" with the description [description]. *)
Definition bigDeal (description : string) : fields :=
  [ ("values",
     JObj [ ("name", JArr [ JObj [ ("value", JStr "Big Deal") ] ]);
            ("description", JArr [ JObj [ ("value", JStr description) ] ]) ]) ].

(** An opportunity of the target platform with the same name. *)
Definition bigDealOpp : ApolloOpportunity :=
  {| opp_id := Some "o1"; opp_name := Some "big deal";
     opp_description := None; opp_account_id := None |}.

(** An opportunity with another name that carries the marker of "r1". *)
Definition markedOpp : ApolloOpportunity :=
  {| opp_id := Some "o2"; opp_name := Some "Renamed";
     opp_description := Some "[Attio Record ID: r1]"; opp_account_id := None |}.

Definition acme : fields :=
  [ ("values", JObj [ ("name", JArr [ JObj [ ("value", JStr "Acme") ] ]) ]) ].

(** The marker of record "r1", twice. *)
Definition twoMarkers : string := "[Attio Record ID: r1] [Attio Record ID: r1]".

(** The person [ada], one stage list, and the contact [grace] as the only
    search result. *)
Definition adaWorld : World :=
  world (Some ada) None None closedWon closedWon [grace] [] [].

(** The deal [bigDeal description] and the opportunities [opps] as search
    results. *)
Definition dealWorld (description : string) (opps : list ApolloOpportunity)
  : World :=
  world None None (Some (bigDeal description)) closedWon closedWon [] opps [].

(** The person [nobody], who has no email, in front of a target platform
    that would answer. *)
Definition nobodyWorld : World :=
  world (Some nobody) None None closedWon closedWon [grace] [] [].

(** A stage of the target platform whose name is empty. *)
Definition unnamedStage : list Stage :=
  [ {| stage_id := "1"; stage_name := "" |} ].

(** [[{title: 42}]] *)
Definition numericTitle : value := JArr [ JObj [ ("title", JNum "42") ] ].


(** [[{value: {toString: null}}]] *)
Definition unconvertible : value :=
  JArr [ JObj [ ("value", JObj [ ("toString", JNull) ]) ] ].

(** [{length: 21, toString: null}] *)
Definition longUnconvertible : value :=
  JObj [ ("length", JNum "21"); ("toString", JNull) ].

End Examples.

(* ===================================================================== *)
(** * stage-mapping.server.ts: the reverse mapping                        *)
(* ===================================================================== *)

Module StageMappingToAttio.
Import JS Api.
Local Open Scope sync_scope.

(** [Object.entries(STAGE_NAME_MAPPING).find(([_, apolloName]) =>
       normalizeStage(apolloName) === normalizeStage(name))]: the Attio
    name found, if any.  The callback runs on the first entry only when
    there is one; it throws there when [name] is truthy without being a
    string. *)
Definition reverseMapping (name : value) : Result (option string) :=
  match StageMapping.STAGE_NAME_MAPPING with
  | [] => Ok None
  | _ :: _ =>
      rbind (StageMapping.normalizeStage name) (fun n =>
        Ok (option_map fst
              (find (fun entry => same (StageMapping.normalizeName (snd entry)) n)
                    StageMapping.STAGE_NAME_MAPPING)))
  end.

(** [x > 20] for a value [x]: it is converted to a number first, which
    throws where [String(x)] throws.  [null] and the booleans count as 0
    and 1, an object that converts gives [NaN], which is above nothing; a
    string and an array are read as numbers. *)
Definition greater_than_20 (w : World) (x : value) : Result bool :=
  let as_number :=
    match to_number w x with
    | Some repr => above_20 repr
    | None => false
    end in
  match x with
  | JNum repr => Ok (above_20 repr)
  | JStr _ => Ok as_number
  | JArr _ => if convertible x then Ok as_number else Throw conversion_error
  | JObj _ => if convertible x then Ok false else Throw conversion_error
  | JUndefined | JNull | JBool _ => Ok false
  end.

(** [apolloStage.length > 20] for a truthy [apolloStage]: the length of a
    string, the number of items of an array, the field [length] of an
    object that has one; a boolean, a number and an object without the
    field have none ([undefined > 20] is false). *)
Definition long (w : World) (apolloStage : value) : Result bool :=
  match apolloStage with
  | JStr s => Ok (20 <? String.length s)%nat
  | JArr items => Ok (20 <? List.length items)%nat
  | JObj fields =>
      match lookup "length" fields with
      | Some x => greater_than_20 w x
      | None => Ok false
      end
  | _ => Ok false
  end.

(** [apolloStage.length > 20 && /^[a-zA-Z0-9]+$/.test(apolloStage)]: the
    regular expression is tested on [String(apolloStage)]. *)
Definition is_stage_id (w : World) (apolloStage : value) : Result bool :=
  rbind (long w apolloStage) (fun isLong =>
    if isLong
    then rbind (toStr apolloStage) (fun s => Ok (alphanumeric s))
    else Ok false).

(** [stages.find(s => s.id === apolloStage)]: an identifier is a string,
    and [===] fails against anything else. *)
Definition findById (apolloStage : value) (stages : list Stage) : option Stage :=
  match apolloStage with
  | JStr id => find (StageMapping.has_id id) stages
  | _ => None
  end.

(** [mapStageToAttio(apolloStage)] *)
Definition mapStageToAttio (w : World) (apolloStage : value) : M value :=
  if negb (truthy apolloStage) then ret apolloStage else
  isId <- lift (is_stage_id w apolloStage) ;;
  byId <-
    (if isId then
       stages <- StageMapping.getApolloStages w ;;
       match findById apolloStage stages with
       | Some stage =>
           reverse <- lift (reverseMapping (JStr (stage_name stage))) ;;
           match reverse with
           | Some attioName => ret (Some (JStr attioName))
           | None => ret (Some (JStr (stage_name stage)))
           end
       | None => ret None
       end
     else ret None) ;;
  match byId with
  | Some result => ret result
  | None =>
      reverse <- lift (reverseMapping apolloStage) ;;
      match reverse with
      | Some attioName => ret (JStr attioName)
      | None => ret apolloStage
      end
  end.

End StageMappingToAttio.

(* ===================================================================== *)
(** * get-apollo-contact-id.server.ts                                     *)
(* ===================================================================== *)

Module GetApolloContactId.
Import JS Api.
Local Open Scope sync_scope.

(** [apolloContacts.length > 0 && apolloContacts[0].id
       ? apolloContacts[0].id : null] *)
Definition first_id (apolloContacts : list ApolloContact) : value :=
  match apolloContacts with
  | first :: _ =>
      match contact_id first with
      | Some (String _ _ as id) => JStr id
      | _ => JNull
      end
  | [] => JNull
  end.

(** [getApolloContactId(recordId)] *)
Definition getApolloContactId (w : World) (recordId : string) : M value :=
  attioRecord <- call (EvGetPerson recordId) (fun tr => getPerson w tr recordId) ;;
  match attioRecord with
  | None => throw (Error ("Failed to fetch Attio record " ++ recordId))
  | Some data =>
      let values := js_or (get (JObj data) "values") (JObj []) in
      let email := SyncToApollo.extractEmail values in
      if negb (truthy email) then
        throw (Error ("No email address found for record " ++ recordId
                        ++ ". Email is required to find Apollo contact."))
      else
        apolloContacts <-
          call (EvSearchContacts (SyncToApollo.searchParams email))
               (fun tr => searchApolloContacts w tr (SyncToApollo.searchParams email)) ;;
        ret (first_id apolloContacts)
  end.

End GetApolloContactId.

(* ===================================================================== *)
(** * get-apollo-opportunity-id.server.ts                                 *)
(* ===================================================================== *)

Module GetApolloOpportunityId.
Import JS Api.
Local Open Scope sync_scope.

(** [apolloOpps.find(opp => opp.name && opp.name.toLowerCase().trim()
                                === dealName.toLowerCase().trim())]: it
    throws when [dealName] is not a string and some result has a name. *)
Definition findByName (dealName : value) (apolloOpps : list ApolloOpportunity)
  : Result (option ApolloOpportunity) :=
  match dealName with
  | JStr name => Ok (find (SyncDealToApollo.name_match name) apolloOpps)
  | _ =>
      if existsb SyncDealToApollo.has_name apolloOpps
      then Throw (TypeError "dealName.toLowerCase is not a function")
      else Ok None
  end.

(** [opp.id] when it is truthy. *)
Definition id_of (opp : ApolloOpportunity) : option string :=
  match opp_id opp with
  | Some (String _ _ as id) => Some id
  | _ => None
  end.

(** The answer once the search results are known: the exact name match
    when it has an identifier, else the first result when it has one,
    else [null]. *)
Definition chooseId (matchedOpp : option ApolloOpportunity)
    (apolloOpps : list ApolloOpportunity) : value :=
  match match matchedOpp with
        | Some opp => id_of opp
        | None => None
        end with
  | Some id => JStr id
  | None =>
      match apolloOpps with
      | first :: _ =>
          match id_of first with
          | Some id => JStr id
          | None => JNull
          end
      | [] => JNull
      end
  end.

(** [getApolloOpportunityId(recordId)] *)
Definition getApolloOpportunityId (w : World) (recordId : string) : M value :=
  attioRecord <- call (EvGetDeal recordId) (fun tr => getDeal w tr recordId) ;;
  match attioRecord with
  | None => throw (Error ("Failed to fetch Attio deal record " ++ recordId))
  | Some data =>
      let values := js_or (get (JObj data) "values") (JObj []) in
      let dealName := SyncDealToApollo.extractDealName values in
      if negb (truthy dealName) then
        throw (Error ("No deal name found for record " ++ recordId
                        ++ ". Name is required to find Apollo opportunity."))
      else
        let byName := [("name", dealName); ("per_page", JNum "20")] in
        let byKeywords := [("q_keywords", dealName); ("per_page", JNum "20")] in
        apolloOpps <-
          call (EvSearchOpportunities byName)
               (fun tr => searchApolloOpportunities w tr byName) ;;
        apolloOpps <-
          (match apolloOpps with
           | [] => call (EvSearchOpportunities byKeywords)
                        (fun tr => searchApolloOpportunities w tr byKeywords)
           | _ :: _ => ret apolloOpps
           end) ;;
        matchedOpp <- lift (findByName dealName apolloOpps) ;;
        ret (chooseId matchedOpp apolloOpps)
  end.

End GetApolloOpportunityId.

(* ===================================================================== *)
(** * detect-object-type.server.ts                                        *)
(* ===================================================================== *)

Module DetectObjectType.
Import JS Api.
Local Open Scope sync_scope.

(** ["people" | "companies" | "deals"]; [null] is [None]. *)
Inductive ObjectType : Type := People | Companies | Deals.

(** [try { const record = await get(recordId); if (record?.data) ... }
     catch (error) { }]: whether the record was answered. *)
Definition answered (ev : Event) (get : list Event -> Result AttioResponse)
  : M bool :=
  try_catch
    (record <- call ev get ;;
     match record with
     | Some _ => ret true
     | None => ret false
     end)
    (fun _ => ret false).

(** [detectObjectType(recordId)] *)
Definition detectObjectType (w : World) (recordId : string)
  : M (option ObjectType) :=
  person <- answered (EvGetPerson recordId) (fun tr => getPerson w tr recordId) ;;
  if person then ret (Some People) else
  company <- answered (EvGetCompany recordId) (fun tr => getCompany w tr recordId) ;;
  if company then ret (Some Companies) else
  deal <- answered (EvGetDeal recordId) (fun tr => getDeal w tr recordId) ;;
  if deal then ret (Some Deals) else ret None.

End DetectObjectType.

(* ===================================================================== *)
(** * attio-api.server.ts: the record written by [updatePerson]           *)
(* ===================================================================== *)

Module AttioApi.
Import JS Api.

(** [if (v !== undefined && v !== null && String(v).trim() !== "")
       nameFields[k] = String(v).trim()] *)
Definition nameField (k : string) (v : value) : fields :=
  if negb (is_nullish v) && negb (is_empty (trim (toString v)))
  then [(k, JStr (trim (toString v)))] else [].

(** The object [values] that [updatePerson(recordId, data)] puts in the
    body of its PATCH request, for
    [data = {email, first_name, last_name, stage}]. *)
Definition updatePerson_values (email first_name last_name stage : value)
  : fields :=
  let nameFields :=
    (nameField "first_name" first_name ++ nameField "last_name" last_name)%list in
  ([ ("email_addresses",
      JArr [ JObj [ ("email_address", email);
                    ("email_address_type", JStr "work") ] ]) ]
   ++ match nameFields with
      | [] => []
      | _ :: _ =>
          [ ("name",
             JArr [ JObj (nameFields
                          ++ [("attribute_type", JStr "personal-name")]) ]) ]
      end
   ++ (if negb (is_nullish stage) then [("Stage", JStr (toString stage))] else []))%list.

End AttioApi.

(* ===================================================================== *)
(** * Notions used to state the further properties                        *)
(* ===================================================================== *)

Module Effects.
Import JS Api.

(** The calls of the wrappers that create a record: [createApolloContact],
    [createApolloOpportunity] and [createApolloAccount]. *)
Definition is_create_call (ev : Event) : bool :=
  match ev with
  | EvCreateContact _ | EvCreateOpportunity _ | EvCreateAccount _ => true
  | _ => false
  end.

(** The calls of the update wrappers: [updateApolloContact],
    [updateApolloOpportunity] and [updateApolloAccount].  An event is the
    call, not what the wrapper then does at the endpoint: the first two
    send one PATCH, [updateApolloAccount] creates the account instead when
    its preliminary read of the account fails. *)
Definition is_update_call (ev : Event) : bool :=
  match ev with
  | EvUpdateContact _ _ | EvUpdateOpportunity _ _ | EvUpdateAccount _ _ => true
  | _ => false
  end.

Definition create_calls (evs : list Event) : nat :=
  List.length (filter is_create_call evs).
Definition update_calls (evs : list Event) : nat :=
  List.length (filter is_update_call evs).

(** Every run of [m] adds to the log a list of events that, with the
    outcome, satisfies [Q]. *)
Definition Runs {A : Type} (m : M A) (Q : Result A -> list Event -> Prop) : Prop :=
  forall (st st' : State) (r : Result A),
    m st = (st', r) ->
    exists evs : list Event, trace st' = (trace st ++ evs)%list /\ Q r evs.

(** The run wrote nothing: it called no wrapper that creates or updates. *)
Definition quiet {A : Type} (r : Result A) (evs : list Event) : Prop :=
  create_calls evs = 0 /\ update_calls evs = 0.

(** The run called a wrapper that writes once at most, and when it
    returned, its counters are the numbers of its calls of the create
    wrappers and of the update wrappers. *)
Definition counted (r : Result SyncResult) (evs : list Event) : Prop :=
  create_calls evs + update_calls evs <= 1
  /\ forall res : SyncResult,
       r = Ok res ->
       create_calls evs = created res /\ update_calls evs = updated res.

(** The run wrote nothing, and when it returned, it returned [res]. *)
Definition returned (res : SyncResult) (r : Result SyncResult)
    (evs : list Event) : Prop :=
  create_calls evs = 0 /\ update_calls evs = 0
  /\ forall res' : SyncResult, r = Ok res' -> res' = res.

(** Every event of the run satisfies [P]. *)
Definition each {A : Type} (P : Event -> Prop) (r : Result A)
    (evs : list Event) : Prop :=
  Forall P evs.

(** No entry of [payload] is [null] or [undefined], the keys of [allowed]
    apart. *)
Definition no_null_except (allowed : list string) (payload : fields) : Prop :=
  forall (k : string) (v : value),
    In (k, v) payload -> is_nullish v = true -> In k allowed.

(** The payload handed to an update wrapper holds no [null] and no
    [undefined], the two names of a contact apart. *)
Definition update_has_no_null (ev : Event) : Prop :=
  match ev with
  | EvUpdateContact _ payload => no_null_except ["first_name"; "last_name"] payload
  | EvUpdateOpportunity _ payload | EvUpdateAccount _ payload =>
      no_null_except [] payload
  | _ => True
  end.

(** What is read as the name of a record holds no name: it is falsy
    (missing, [null] or the empty string), or an empty list, or a list
    whose first entry has nothing truthy under the fields [keys] (as
    [[{value: ""}]]), or an object that has nothing truthy under them. *)
Inductive NoName (keys : list string) (nameData : value) : Prop :=
| NoName_falsy : truthy nameData = false -> NoName keys nameData
| NoName_empty : nameData = JArr [] -> NoName keys nameData
| NoName_first (entry : value) (rest : list value) :
    nameData = JArr (entry :: rest) ->
    (forall k, In k keys -> truthy (oget entry k) = false) ->
    NoName keys nameData
| NoName_object (fs : list (string * value)) :
    nameData = JObj fs ->
    (forall k, In k keys -> truthy (get nameData k) = false) ->
    NoName keys nameData.

(** The reads of the source CRM. *)
Definition is_attio_read (ev : Event) : bool :=
  match ev with
  | EvGetPerson _ | EvGetCompany _ | EvGetDeal _ => true
  | _ => false
  end.

(** The keys a person payload may carry besides the required ones. *)
Definition social_keys : list string :=
  [ "linkedin_url"; "twitter_url"; "facebook_url"; "instagram_url" ].

(** The keys [extractAttioAttributes] may set, in the order it sets them. *)
Definition mapped_keys : list string :=
  [ "title"; "organization_name"; "linkedin_url"; "twitter_url";
    "facebook_url"; "instagram_url"; "bio" ].

(** [l] is [keys] with some of its members left out. *)
Fixpoint subsequence (l keys : list string) : bool :=
  match l, keys with
  | [], _ => true
  | _ :: _, [] => false
  | x :: l', k :: keys' =>
      if String.eqb x k then subsequence l' keys' else subsequence l keys'
  end.

(** A value is an absolute URL: a string that starts with "http". *)
Definition absolute_url (v : value) : Prop :=
  exists u : string, v = JStr u /\ startsWith u "http" = true.

(** A string or [null] as a value, [null] also for the empty string. *)
Definition nonempty_or_null (s : string) : value :=
  if is_empty s then JNull else JStr s.

(** What a company sync that returned [r] has done: it read the record
    [data], and either the log ends with the update of an account that the
    search by the company name answered and whose name equals the company
    name or whose domain equals the domain read from the record, or it
    ends with the creation of an account. *)
Definition company_outcome (w : World) (recordId : string) (st st' : State)
    (r : SyncResult) : Prop :=
  exists data : fields,
    getCompany w (trace st) recordId = Ok (Some data)
    /\ ((exists (tr : list Event) (accounts : list ApolloAccount)
                (account : ApolloAccount) (accountId : string)
                (payload : fields) (before : list Event),
            searchApolloAccounts w tr
              [ ("name", SyncCompanyToApollo.extractCompanyName (Spec.values_of data));
                ("per_page", JNum "50") ]
            = Ok accounts
            /\ In account accounts
            /\ account_id account = Some accountId
            /\ ((exists name : string,
                    SyncCompanyToApollo.extractCompanyName (Spec.values_of data)
                    = JStr name
                    /\ SyncCompanyToApollo.name_match name account = true)
                \/ (exists (fromDomains : value) (domain : string),
                       SyncCompanyToApollo.domainFromDomains (Spec.values_of data)
                       = Ok fromDomains
                       /\ SyncCompanyToApollo.domainFromWebsite w
                            (Spec.values_of data) fromDomains
                          = Ok (JStr domain)
                       /\ SyncCompanyToApollo.domain_match w
                            (trim (toLowerCase domain)) account = true))
            /\ r = {| created := 0; updated := 1 |}
            /\ trace st' = (before ++ [EvUpdateAccount accountId payload])%list)
        \/ (r = {| created := 1; updated := 0 |}
            /\ exists (payload : fields) (before : list Event),
                 trace st' = (before ++ [EvCreateAccount payload])%list)).

End Effects.

(* ===================================================================== *)
(** * Further records and worlds                                          *)
(* ===================================================================== *)

Module MoreExamples.
Import JS Api.

(** A stage whose identifier has the shape of an Apollo identifier. *)
Definition wonStage : Stage :=
  {| stage_id := "6095a710bd01d100a506d4ac"; stage_name := "Closed Won" |}.

Definition lostStage : Stage :=
  {| stage_id := "6095a710bd01d100a506d4ad"; stage_name := "Closed Lost" |}.

Definition pipeline : list Stage := [ wonStage; lostStage ].

(** A state whose two caches hold [pipeline]. *)
Definition pipelineCached : State := Examples.cached pipeline.

(** A world that answers [pipeline] for both stage lists. *)
Definition pipelineWorld : World :=
  Examples.world (Some Examples.ada) (Some Examples.acme)
    (Some (Examples.bigDeal "hello")) pipeline pipeline
    [Examples.grace] [Examples.bigDealOpp] [].

(** A record whose name is there and empty: [{name: [{value: ""}]}]. *)
Definition nameless : fields :=
  [ ("values",
     JObj [ ("name", JArr [ JObj [ ("value", JStr "") ] ]);
            ("domains", JStr "acme.com") ]) ].

Definition namelessWorld : World :=
  Examples.world None (Some nameless) (Some nameless) [] [] [] [] [].

(** A person whose job title is blank, and a contact found for it. *)
Definition blankTitle : fields :=
  [ ("values",
     JObj [ ("email_addresses",
             JArr [ JObj [ ("email_address", JStr "ada@example.com") ] ]);
            ("job_title", JArr [ JObj [ ("value", JStr "") ] ]) ]) ].

Definition blankTitleWorld : World :=
  Examples.world (Some blankTitle) None None [] [] [Examples.grace] [] [].

(** An account of the target platform named "ACME". *)
Definition acmeAccount : ApolloAccount :=
  {| account_id := Some "a1"; account_name := Some " ACME ";
     account_domain := None; account_website_url := None |}.

Definition acmeWorld : World :=
  Examples.world None (Some Examples.acme) None [] [] [] [] [acmeAccount].

(** [{job_title: "CTO", company: {title: "Acme"}, linkedin: "/in/ada",
      twitter: "@ada"}] *)
Definition adaValues : value :=
  JObj [ ("job_title", JStr "CTO");
         ("company", JObj [ ("title", JStr "Acme") ]);
         ("linkedin", JStr "/in/ada");
         ("twitter", JStr "@ada") ].

(** An opportunity with another name, first in the search results. *)
Definition otherOpp : ApolloOpportunity :=
  {| opp_id := Some "o9"; opp_name := Some "Other"; opp_description := None;
     opp_account_id := None |}.

End MoreExamples.

(* ===================================================================== *)
(** * Properties                                                          *)
(* ===================================================================== *)

Import JS Api.

(** ** Property reads and coercions *)







(** ** Value extraction (attribute-mapping.server.ts) *)





(** ** Conversions that return *)













(** ** Runs of [async] bodies *)

Lemma bind_ok_inv {A B : Type} (m : M A) (k : A -> M B) (st st' : State) (b : B) :
  bind m k st = (st', Ok b) ->
  exists st1 a, m st = (st1, Ok a) /\ k a st1 = (st', Ok b).
Proof.
  unfold bind. destruct (m st) as [st1 [a | e]]; intros H.
  - exists st1, a. split; [reflexivity | exact H].
  - discriminate.
Qed.

Lemma bind_run {A B : Type} (m : M A) (k : A -> M B) (st st1 : State) (a : A) :
  m st = (st1, Ok a) -> bind m k st = k a st1.
Proof. unfold bind. intros ->. reflexivity. Qed.

Lemma call_ok_inv {A : Type} (ev : Event) (answer : list Event -> Result A)
    (st st' : State) (a : A) :
  call ev answer st = (st', Ok a) ->
  answer (trace st) = Ok a
  /\ trace st' = (trace st ++ [ev])%list
  /\ apolloStagesCache st' = apolloStagesCache st
  /\ apolloOpportunityStagesCache st' = apolloOpportunityStagesCache st.
Proof.
  unfold call. intros H. inversion H; subst. simpl. auto.
Qed.

Lemma ret_inv {A : Type} (a b : A) (st st' : State) :
  ret a st = (st', Ok b) -> st' = st /\ b = a.
Proof. unfold ret. intros H. inversion H. auto. Qed.

Lemma lift_ok_inv {A : Type} (r : Result A) (st st' : State) (a : A) :
  lift r st = (st', Ok a) -> st' = st /\ r = Ok a.
Proof. unfold lift. intros H. inversion H. auto. Qed.

(** ** Stage lookups against a cached stage list *)

Lemma getApolloStages_cached (w : World) (st : State) (stages : list Stage) :
  apolloStagesCache st = Some stages ->
  StageMapping.getApolloStages w st = (st, Ok stages).
Proof. unfold StageMapping.getApolloStages. intros ->. reflexivity. Qed.

Lemma getApolloOpportunityStages_cached (w : World) (st : State)
    (stages : list Stage) :
  apolloOpportunityStagesCache st = Some stages ->
  OpportunityStageMapping.getApolloOpportunityStages w st = (st, Ok stages).
Proof.
  unfold OpportunityStageMapping.getApolloOpportunityStages. intros ->.
  reflexivity.
Qed.

Lemma contact_lookup_cached (w : World) (st : State) (stages : list Stage)
    (stageName : value) :
  apolloStagesCache st = Some stages ->
  StageMapping.findApolloStageIdByName_lookup w stageName st
  = (st, rbind (StageMapping.normalizeStage stageName)
           (fun n => Ok (StageMapping.findInStages stages n))).
Proof.
  intros Hc. unfold StageMapping.findApolloStageIdByName_lookup.
  rewrite (bind_run _ _ _ _ _ (getApolloStages_cached w st stages Hc)).
  unfold bind, lift, ret.
  destruct (StageMapping.normalizeStage stageName); reflexivity.
Qed.

Lemma contact_find_cached (w : World) (st : State) (stages : list Stage)
    (stageName : value) :
  apolloStagesCache st = Some stages ->
  StageMapping.findApolloStageIdByName w stageName st
  = (st, rbind (StageMapping.normalizeStage stageName)
           (fun n => Ok (StageMapping.lookup_result
                           (StageMapping.findInStages stages n)))).
Proof.
  intros Hc. unfold StageMapping.findApolloStageIdByName, bind.
  rewrite (contact_lookup_cached w st stages stageName Hc).
  destruct (StageMapping.normalizeStage stageName); reflexivity.
Qed.

Lemma contact_find_inherited_cached (w : World) (st : State) (stages : list Stage) :
  apolloStagesCache st = Some stages ->
  StageMapping.findApolloStageIdByName_inherited w st
  = (st, Throw (TypeError "stage.trim is not a function")).
Proof.
  intros Hc. unfold StageMapping.findApolloStageIdByName_inherited.
  rewrite (bind_run _ _ _ _ _ (getApolloStages_cached w st stages Hc)).
  reflexivity.
Qed.

Lemma opportunity_lookup_cached (w : World) (st : State) (stages : list Stage)
    (stageName : value) :
  apolloOpportunityStagesCache st = Some stages ->
  OpportunityStageMapping.findApolloOpportunityStageIdByName_lookup w stageName st
  = (st, Spec.opportunity_lookup stages stageName).
Proof.
  intros Hc.
  unfold OpportunityStageMapping.findApolloOpportunityStageIdByName_lookup.
  rewrite (bind_run _ _ _ _ _ (getApolloOpportunityStages_cached w st stages Hc)).
  unfold Spec.opportunity_lookup. destruct stages as [ | s0 rest ]; [reflexivity |].
  unfold bind, lift, ret.
  destruct (OpportunityStageMapping.normalizeStage stageName); reflexivity.
Qed.

Lemma opportunity_find_cached (w : World) (st : State) (stages : list Stage)
    (stageName : value) :
  apolloOpportunityStagesCache st = Some stages ->
  OpportunityStageMapping.findApolloOpportunityStageIdByName w stageName st
  = (st, rbind (Spec.opportunity_lookup stages stageName)
           (fun l => Ok (OpportunityStageMapping.lookup_result l))).
Proof.
  intros Hc. unfold OpportunityStageMapping.findApolloOpportunityStageIdByName, bind.
  rewrite (opportunity_lookup_cached w st stages stageName Hc).
  destruct (Spec.opportunity_lookup stages stageName); reflexivity.
Qed.

(** ** Exact matches *)

Lemma toLowerCase_is_empty (s : string) : is_empty (toLowerCase s) = is_empty s.
Proof. destruct s; reflexivity. Qed.

Lemma trim_nonempty_input (input : string) : trim input <> "" -> is_empty input = false.
Proof. destruct input; [intros H; exfalso; apply H; reflexivity | reflexivity]. Qed.

Lemma not_empty_string (s : string) : s <> "" -> is_empty s = false.
Proof. destruct s; [intros H; exfalso; apply H; reflexivity | reflexivity]. Qed.

Lemma eqb_empty_left (n : string) : is_empty n = false -> String.eqb "" n = false.
Proof. destruct n; [discriminate | reflexivity]. Qed.

Lemma find_agree {A : Type} (f g : A -> bool) (l : list A) :
  (forall x, f x = g x) -> find f l = find g l.
Proof.
  intros Hfg. induction l as [ | x l IH ]; simpl; [reflexivity |].
  rewrite Hfg, IH. reflexivity.
Qed.

Lemma find_finds {A : Type} (f : A -> bool) (l : list A) (x : A) :
  In x l -> f x = true -> exists y, find f l = Some y.
Proof.
  induction l as [ | z l IH ]; simpl; intros Hin Hf; [contradiction |].
  destruct (f z) eqn:Ez; [eauto |].
  destruct Hin as [-> | Hin]; [congruence | auto].
Qed.

Lemma ci_equalb_spec (a b : string) : Spec.ci_equalb a b = true <-> Spec.ci_equal a b.
Proof. unfold Spec.ci_equalb, Spec.ci_equal. apply String.eqb_eq. Qed.

(** For a name that is not blank, the exact-match test of
    stage-mapping.server.ts is case-insensitive equality after trimming. *)
Lemma contact_exact_ci (input : string) (x : Stage) :
  trim input <> "" ->
  StageMapping.exact (StageMapping.normalizeName input) x
  = Spec.ci_equalb (stage_name x) input.
Proof.
  intros Hne. unfold StageMapping.exact, StageMapping.normalizeName.
  rewrite (trim_nonempty_input input Hne).
  unfold Spec.ci_equalb.
  destruct (stage_name x) as [ | c rest ] eqn:En; simpl is_empty; cbn [same].
  - symmetry. apply eqb_empty_left.
    rewrite toLowerCase_is_empty. apply not_empty_string. exact Hne.
  - reflexivity.
Qed.

(** The same for opportunity-stage-mapping.server.ts. *)
Lemma opportunity_exact_ci (input : string) (x : Stage) :
  trim input <> "" ->
  OpportunityStageMapping.exact (toLowerCase (trim input)) x
  = Spec.ci_equalb (stage_name x) input.
Proof.
  intros Hne.
  unfold OpportunityStageMapping.exact, OpportunityStageMapping.normalizeName.
  unfold Spec.ci_equalb.
  destruct (stage_name x) as [ | c rest ] eqn:En; simpl is_empty; cbn [same].
  - symmetry. apply eqb_empty_left.
    rewrite toLowerCase_is_empty. apply not_empty_string. exact Hne.
  - reflexivity.
Qed.

Lemma normalizeStage_string (input : string) :
  is_empty input = false ->
  StageMapping.normalizeStage (JStr input)
  = Ok (Some (toLowerCase (trim input))).
Proof.
  intros H. unfold StageMapping.normalizeStage, StageMapping.normalizeName.
  simpl. rewrite H. reflexivity.
Qed.

Lemma opportunity_normalizeStage_string (input : string) :
  is_empty input = false ->
  OpportunityStageMapping.normalizeStage (JStr input)
  = Ok (Some (toLowerCase (trim input))).
Proof.
  intros H.
  unfold OpportunityStageMapping.normalizeStage,
    OpportunityStageMapping.normalizeName.
  simpl. rewrite H. reflexivity.
Qed.

(** C3 (amended): for every stage name that is not blank and every cached
    remote stage list that contains a stage whose name equals it
    case-insensitively after trimming, both stage-name lookups
    ([findApolloStageIdByName] and [findApolloOpportunityStageIdByName])
    end in their exact-match branch and return the identifier of the first
    such stage of the list. *)
Theorem stage_lookup_exact_match :
  forall (w : World) (st : State) (stages : list Stage) (input : string)
         (s : Stage),
    trim input <> "" ->
    In s stages ->
    Spec.ci_equal (stage_name s) input ->
    exists first : Stage,
      find (fun x => Spec.ci_equalb (stage_name x) input) stages = Some first
      /\ Spec.ci_equal (stage_name first) input
      /\ (apolloStagesCache st = Some stages ->
          StageMapping.findApolloStageIdByName_lookup w (JStr input) st
          = (st, Ok (StageMapping.ExactMatch (stage_id first)))
          /\ StageMapping.findApolloStageIdByName w (JStr input) st
             = (st, Ok (JStr (stage_id first))))
      /\ (apolloOpportunityStagesCache st = Some stages ->
          OpportunityStageMapping.findApolloOpportunityStageIdByName_lookup
            w (JStr input) st
          = (st, Ok (OpportunityStageMapping.ExactMatch (stage_id first)))
          /\ OpportunityStageMapping.findApolloOpportunityStageIdByName
               w (JStr input) st
             = (st, Ok (JStr (stage_id first)))).
Proof.
  intros w st stages input s Hne Hin Heq.
  pose proof (trim_nonempty_input input Hne) as Hinput.
  destruct (find_finds (fun x => Spec.ci_equalb (stage_name x) input) stages s Hin)
    as [first Hfirst].
  { apply ci_equalb_spec. exact Heq. }
  exists first. split; [exact Hfirst |]. split.
  { apply find_some in Hfirst as [_ H]. apply ci_equalb_spec. exact H. }
  split; intros Hc.
  - assert (Hl : StageMapping.findInStages stages (Some (toLowerCase (trim input)))
                 = StageMapping.ExactMatch (stage_id first)).
    { unfold StageMapping.findInStages.
      rewrite (find_agree _ (fun x => Spec.ci_equalb (stage_name x) input)).
      - rewrite Hfirst. reflexivity.
      - intros x. rewrite <- (contact_exact_ci input x Hne).
        unfold StageMapping.normalizeName. rewrite Hinput. reflexivity. }
    split.
    + rewrite (contact_lookup_cached w st stages _ Hc).
      rewrite (normalizeStage_string input Hinput). cbn [rbind].
      rewrite Hl. reflexivity.
    + rewrite (contact_find_cached w st stages _ Hc).
      rewrite (normalizeStage_string input Hinput). cbn [rbind].
      rewrite Hl. reflexivity.
  - assert (Hl : Spec.opportunity_lookup stages (JStr input)
                 = Ok (OpportunityStageMapping.ExactMatch (stage_id first))).
    { unfold Spec.opportunity_lookup.
      destruct stages as [ | s0 rest ]; [contradiction |].
      rewrite (opportunity_normalizeStage_string input Hinput). cbn [rbind].
      unfold OpportunityStageMapping.findInStages.
      rewrite toLowerCase_is_empty, (not_empty_string _ Hne).
      rewrite (find_agree _ (fun x => Spec.ci_equalb (stage_name x) input)).
      - rewrite Hfirst. reflexivity.
      - intros x. apply opportunity_exact_ci. exact Hne. }
    split.
    + rewrite (opportunity_lookup_cached w st stages _ Hc). rewrite Hl.
      reflexivity.
    + rewrite (opportunity_find_cached w st stages _ Hc). rewrite Hl.
      reflexivity.
Qed.

(** ** Stage mapping against a cached stage list *)

(** With the cache set, [mapStageToApollo] makes no call: its state is
    unchanged and its outcome depends on the cached list and the input
    only. *)
Lemma mapStageToApollo_cached (stages : list Stage) (attioStage : value)
    (w1 w2 : World) (st1 st2 : State) :
  apolloStagesCache st1 = Some stages ->
  apolloStagesCache st2 = Some stages ->
  exists r : Result value,
    StageMapping.mapStageToApollo w1 attioStage st1 = (st1, r)
    /\ StageMapping.mapStageToApollo w2 attioStage st2 = (st2, r).
Proof.
  intros H1 H2.
  unfold StageMapping.mapStageToApollo.
  destruct (truthy attioStage) eqn:Ht; cbn [negb].
  2:{ eexists. split; reflexivity. }
  cbv beta iota delta [bind lift ret].
  destruct (StageMapping.mappedName attioStage) as [mapped | e] eqn:Hm.
  2:{ eexists. split; reflexivity. }
  assert (Hdirect : exists r : Result value,
            (let (st', r0) := StageMapping.findApolloStageIdByName w1 attioStage st1 in
             match r0 with
             | Ok a =>
                 (if truthy a then fun st => (st, Ok a)
                  else if (match attioStage with
                           | JStr s => looks_like_stage_id s
                           | _ => false
                           end)
                  then fun st => (st, Ok attioStage)
                  else fun st => (st, Ok attioStage)) st'
             | Throw e => (st', Throw e)
             end) = (st1, r)
            /\
            (let (st', r0) := StageMapping.findApolloStageIdByName w2 attioStage st2 in
             match r0 with
             | Ok a =>
                 (if truthy a then fun st => (st, Ok a)
                  else if (match attioStage with
                           | JStr s => looks_like_stage_id s
                           | _ => false
                           end)
                  then fun st => (st, Ok attioStage)
                  else fun st => (st, Ok attioStage)) st'
             | Throw e => (st', Throw e)
             end) = (st2, r)).
  { rewrite (contact_find_cached w1 st1 stages _ H1).
    rewrite (contact_find_cached w2 st2 stages _ H2).
    destruct (rbind (StageMapping.normalizeStage attioStage) _) as [a | e].
    - destruct (truthy a).
      + eexists; split; reflexivity.
      + destruct (match attioStage with JStr s => looks_like_stage_id s | _ => false end);
          eexists; split; reflexivity.
    - eexists; split; reflexivity. }
  destruct mapped as [name | | ].
  - destruct (is_empty name) eqn:En; cbn [negb].
    + exact Hdirect.
    + rewrite (contact_find_cached w1 st1 stages _ H1).
      rewrite (contact_find_cached w2 st2 stages _ H2).
      destruct (rbind (StageMapping.normalizeStage (JStr name)) _) as [a | e].
      * destruct (truthy a).
        -- eexists; split; reflexivity.
        -- exact Hdirect.
      * eexists; split; reflexivity.
  - rewrite (contact_find_inherited_cached w1 st1 stages H1).
    rewrite (contact_find_inherited_cached w2 st2 stages H2).
    eexists; split; reflexivity.
  - exact Hdirect.
Qed.

(** C6: for every stage-name input, two calls of [mapStageToApollo] made
    with the in-process stage cache populated with the same list return
    the same output, and a call leaves the state, hence the cache,
    unchanged. *)
Theorem mapStageToApollo_same_output :
  forall (stages : list Stage) (attioStage : value) (w1 w2 : World)
         (st1 st2 : State),
    apolloStagesCache st1 = Some stages ->
    apolloStagesCache st2 = Some stages ->
    fst (StageMapping.mapStageToApollo w1 attioStage st1) = st1
    /\ snd (StageMapping.mapStageToApollo w1 attioStage st1)
       = snd (StageMapping.mapStageToApollo w2 attioStage st2).
Proof.
  intros stages attioStage w1 w2 st1 st2 H1 H2.
  destruct (mapStageToApollo_cached stages attioStage w1 w2 st1 st2 H1 H2)
    as [r [Hr1 Hr2]].
  rewrite Hr1, Hr2. split; reflexivity.
Qed.

Lemma mapStageToApollo_same_output_witness :
  apolloStagesCache (Examples.cached Examples.closedWon) = Some Examples.closedWon
  /\ snd (StageMapping.mapStageToApollo
            (Examples.world None None None [] [] [] [] [])
            (JStr "closed won") (Examples.cached Examples.closedWon))
     = snd (StageMapping.mapStageToApollo
              (Examples.apollo_down None)
              (JStr "closed won") (Examples.cached Examples.closedWon)).
Proof.
  split; [reflexivity |].
  apply (mapStageToApollo_same_output Examples.closedWon (JStr "closed won")
           (Examples.world None None None [] [] [] [] [])
           (Examples.apollo_down None)
           (Examples.cached Examples.closedWon)
           (Examples.cached Examples.closedWon));
    reflexivity.
Defined.

(** ** Pass-through of unmapped stage names *)

Lemma table_get_misses (table : list (string * string)) (key : string) :
  Spec.misses table key -> table_get table key = TUndefined.
Proof.
  intros [Hl Hin]. unfold table_get. rewrite Hl.
  destruct (existsb (String.eqb key) object_prototype_keys) eqn:He;
    [ | reflexivity ].
  exfalso. apply Hin. apply existsb_exists in He as (k & Hk & Heq).
  apply String.eqb_eq in Heq. subst k. exact Hk.
Qed.

Lemma contact_passthrough (w : World) (st : State) (stages : list Stage)
    (input : string) :
  apolloStagesCache st = Some stages ->
  table_get StageMapping.STAGE_NAME_MAPPING input = TUndefined ->
  table_get StageMapping.STAGE_NAME_MAPPING
    (match StageMapping.normalizeName input with Some x => x | None => "" end)
  = TUndefined ->
  find (StageMapping.exact (StageMapping.normalizeName input)) stages = None ->
  find (StageMapping.partial (StageMapping.normalizeName input)) stages = None ->
  StageMapping.mapStageToApollo w (JStr input) st = (st, Ok (JStr input)).
Proof.
  intros Hc Ht1 Ht2 He Hp.
  unfold StageMapping.mapStageToApollo.
  destruct input as [ | c rest ] eqn:Ei; [reflexivity |].
  rewrite <- Ei in *.
  assert (Hn : StageMapping.normalizeStage (JStr input)
               = Ok (StageMapping.normalizeName input)).
  { rewrite Ei. reflexivity. }
  assert (Htr : truthy (JStr input) = true) by (rewrite Ei; reflexivity).
  rewrite Htr. cbn [negb].
  unfold StageMapping.mappedName. cbn [toString]. rewrite Ht1. cbn [table_truthy].
  rewrite Hn. cbn [rbind]. rewrite Ht2.
  cbv beta iota delta [bind lift ret].
  rewrite (contact_find_cached w st stages _ Hc). rewrite Hn. cbn [rbind].
  unfold StageMapping.findInStages. rewrite He, Hp.
  cbn [StageMapping.lookup_result truthy].
  destruct (looks_like_stage_id input); reflexivity.
Qed.

Lemma deal_passthrough (w : World) (st : State) (stages : list Stage)
    (input : string) :
  apolloOpportunityStagesCache st = Some stages ->
  table_get OpportunityStageMapping.OPPORTUNITY_STAGE_NAME_MAPPING (trim input)
  = TUndefined ->
  (forall n, OpportunityStageMapping.normalizeName (trim input) = Some n ->
             table_get OpportunityStageMapping.OPPORTUNITY_STAGE_NAME_MAPPING n
             = TUndefined) ->
  (forall n, OpportunityStageMapping.normalizeName (trim input) = Some n ->
             find (OpportunityStageMapping.exact n) stages = None
             /\ find (OpportunityStageMapping.partial n) stages = None) ->
  OpportunityStageMapping.mapDealStageToApollo w (JStr input) st
  = (st, Ok (JStr (trim input))).
Proof.
  intros Hc Ht1 Ht2 Hf.
  unfold OpportunityStageMapping.mapDealStageToApollo.
  destruct input as [ | c rest ] eqn:Ei; [reflexivity |].
  rewrite <- Ei in *.
  assert (Htr : truthy (JStr input) = true) by (rewrite Ei; reflexivity).
  rewrite Htr. cbn [negb as_string].
  cbv beta iota delta [bind lift ret].
  destruct (looks_like_stage_id (trim input)); [reflexivity |].
  unfold OpportunityStageMapping.viaTable at 1. rewrite Ht1.
  cbv beta iota delta [ret].
  assert (Hfind : OpportunityStageMapping.findApolloOpportunityStageIdByName
                    w (JStr (trim input)) st = (st, Ok JNull)).
  { rewrite (opportunity_find_cached w st stages _ Hc).
    unfold Spec.opportunity_lookup. destruct stages as [ | s0 l ]; [reflexivity |].
    unfold OpportunityStageMapping.normalizeStage.
    destruct (OpportunityStageMapping.normalizeName (trim input)) as [n | ] eqn:En.
    - destruct (Hf n eq_refl) as [He Hp].
      assert (Hne : is_empty (trim input) = false).
      { unfold OpportunityStageMapping.normalizeName in En.
        destruct (is_empty (trim input)); [discriminate | reflexivity]. }
      cbn [truthy]. rewrite Hne. cbn [negb as_string rbind]. rewrite En.
      unfold OpportunityStageMapping.findInStages.
      destruct (is_empty n); [reflexivity |]. rewrite He, Hp. reflexivity.
    - assert (Hne : is_empty (trim input) = true).
      { unfold OpportunityStageMapping.normalizeName in En.
        destruct (is_empty (trim input)); [reflexivity | discriminate]. }
      cbn [truthy]. rewrite Hne. reflexivity. }
  destruct (OpportunityStageMapping.normalizeName (trim input)) as [n | ] eqn:En.
  - destruct (negb (is_empty n) && negb (String.eqb n (trim input))).
    + unfold OpportunityStageMapping.viaTable. rewrite (Ht2 n eq_refl).
      cbv beta iota delta [ret]. rewrite Hfind. reflexivity.
    + rewrite Hfind. reflexivity.
  - rewrite Hfind. reflexivity.
Qed.

(** C7 (amended): for every stage-name input on which the lookup in the
    manual mapping table fails (for the input and for its normalised
    form: no entry, and no name of a member inherited from
    [Object.prototype]) and on which the case-insensitive exact match
    against the cached remote stage list and the case-insensitive
    substring match fail too, [mapStageToApollo] returns the original
    input text unchanged, and [mapDealStageToApollo], under the same
    conditions on its own table and list and on the trimmed input,
    returns the input text with its surrounding white space trimmed.
    Neither makes a call. *)
Theorem unmapped_stage_passes_through :
  forall (w : World) (st : State) (input : string),
    (forall stages : list Stage,
        apolloStagesCache st = Some stages ->
        Spec.misses StageMapping.STAGE_NAME_MAPPING input ->
        Spec.misses StageMapping.STAGE_NAME_MAPPING
          (match StageMapping.normalizeName input with
           | Some x => x
           | None => ""
           end) ->
        find (StageMapping.exact (StageMapping.normalizeName input)) stages = None ->
        find (StageMapping.partial (StageMapping.normalizeName input)) stages = None ->
        StageMapping.mapStageToApollo w (JStr input) st = (st, Ok (JStr input)))
    /\ (forall oppStages : list Stage,
          apolloOpportunityStagesCache st = Some oppStages ->
          Spec.misses OpportunityStageMapping.OPPORTUNITY_STAGE_NAME_MAPPING
            (trim input) ->
          (forall n, OpportunityStageMapping.normalizeName (trim input) = Some n ->
                     Spec.misses
                       OpportunityStageMapping.OPPORTUNITY_STAGE_NAME_MAPPING n) ->
          (forall n, OpportunityStageMapping.normalizeName (trim input) = Some n ->
                     find (OpportunityStageMapping.exact n) oppStages = None
                     /\ find (OpportunityStageMapping.partial n) oppStages = None) ->
          OpportunityStageMapping.mapDealStageToApollo w (JStr input) st
          = (st, Ok (JStr (trim input)))).
Proof.
  intros w st input. split.
  - intros stages Hc Ht1 Ht2 He Hp.
    apply (contact_passthrough w st stages input Hc
             (table_get_misses _ _ Ht1) (table_get_misses _ _ Ht2) He Hp).
  - intros oppStages Ho Hd1 Hd2 Hd3.
    apply (deal_passthrough w st oppStages input Ho (table_get_misses _ _ Hd1));
      [ | exact Hd3 ].
    intros n Hn. apply table_get_misses. exact (Hd2 n Hn).
Qed.

Lemma unmapped_stage_passes_through_witness :
  StageMapping.mapStageToApollo (Examples.apollo_down None) (JStr " Lead ")
    (Examples.cached Examples.closedWon)
  = (Examples.cached Examples.closedWon, Ok (JStr " Lead "))
  /\ OpportunityStageMapping.mapDealStageToApollo (Examples.apollo_down None)
       (JStr " Lead ") (Examples.cached Examples.closedWon)
     = (Examples.cached Examples.closedWon, Ok (JStr "Lead")).
Proof.
  destruct (unmapped_stage_passes_through (Examples.apollo_down None)
              (Examples.cached Examples.closedWon) " Lead ")
    as [Hcontact Hdeal].
  split.
  - apply (Hcontact Examples.closedWon); try reflexivity.
    + split; [reflexivity |]. simpl. intuition discriminate.
    + split; [reflexivity |]. simpl. intuition discriminate.
  - apply (Hdeal Examples.closedWon); try reflexivity.
    + split; [reflexivity |]. simpl. intuition discriminate.
    + intros n Hn. vm_compute in Hn. inversion Hn.
      split; [reflexivity |]. simpl. intuition discriminate.
    + intros n Hn. vm_compute in Hn. inversion Hn. split; reflexivity.
Defined.

(** A name inherited from [Object.prototype] is no miss of the table: on
    ["constructor"], which is no entry of either table and matches no
    stage of the list, the lookup answers a function and both mappings
    throw. *)
Lemma inherited_name_throws :
  lookup "constructor" StageMapping.STAGE_NAME_MAPPING = None
  /\ lookup "constructor" OpportunityStageMapping.OPPORTUNITY_STAGE_NAME_MAPPING
     = None
  /\ StageMapping.mapStageToApollo (Examples.apollo_down None)
       (JStr "constructor") (Examples.cached Examples.closedWon)
     = (Examples.cached Examples.closedWon,
        Throw (TypeError "stage.trim is not a function"))
  /\ OpportunityStageMapping.mapDealStageToApollo (Examples.apollo_down None)
       (JStr "constructor") (Examples.cached Examples.closedWon)
     = (Examples.cached Examples.closedWon,
        Throw (TypeError "stage.trim is not a function")).
Proof. repeat split; reflexivity. Qed.

(** C7 (as stated) fails for deal stages: on [" Foo "], with nothing in
    the manual table and an empty cached stage list, so that no exact and
    no substring match exists, [mapDealStageToApollo] returns ["Foo"], not
    the original text. *)
Lemma deal_stage_is_trimmed_counterexample :
  table_get OpportunityStageMapping.OPPORTUNITY_STAGE_NAME_MAPPING " Foo "
  = TUndefined
  /\ table_get OpportunityStageMapping.OPPORTUNITY_STAGE_NAME_MAPPING "Foo"
     = TUndefined
  /\ table_get OpportunityStageMapping.OPPORTUNITY_STAGE_NAME_MAPPING "foo"
     = TUndefined
  /\ OpportunityStageMapping.mapDealStageToApollo (Examples.apollo_down None)
       (JStr " Foo ") (Examples.cached [])
     = (Examples.cached [], Ok (JStr "Foo"))
  /\ JStr "Foo" <> JStr " Foo ".
Proof.
  repeat split; try reflexivity. discriminate.
Qed.

(** C3 (as stated) fails on blank names: the one-space name [" "] equals
    the empty stage name case-insensitively after trimming, yet the
    contact lookup reaches its substring branch and the opportunity lookup
    finds nothing. *)
Lemma blank_stage_name_counterexample :
  Spec.ci_equal "" " "
  /\ StageMapping.findApolloStageIdByName_lookup (Examples.apollo_down None)
       (JStr " ") (Examples.cached Examples.unnamedStage)
     = (Examples.cached Examples.unnamedStage, Ok (StageMapping.PartialMatch "1"))
  /\ OpportunityStageMapping.findApolloOpportunityStageIdByName_lookup
       (Examples.apollo_down None) (JStr " ")
       (Examples.cached Examples.unnamedStage)
     = (Examples.cached Examples.unnamedStage, Ok OpportunityStageMapping.NoMatch).
Proof.
  repeat split; reflexivity.
Qed.

(** The example of the specification: "closed won" against
    [[{id: "1", name: "Closed Won"}]] maps to "1" in both stage mappings. *)
Lemma closed_won_maps_to_1 :
  StageMapping.mapStageToApollo (Examples.apollo_down None)
    (JStr "closed won") (Examples.cached Examples.closedWon)
  = (Examples.cached Examples.closedWon, Ok (JStr "1"))
  /\ OpportunityStageMapping.mapDealStageToApollo (Examples.apollo_down None)
       (JStr "closed won") (Examples.cached Examples.closedWon)
     = (Examples.cached Examples.closedWon, Ok (JStr "1")).
Proof. split; reflexivity. Qed.

Lemma stage_lookup_exact_match_witness :
  trim "closed won" <> ""
  /\ Spec.ci_equal "Closed Won" "closed won"
  /\ StageMapping.findApolloStageIdByName (Examples.apollo_down None)
       (JStr "closed won") (Examples.cached Examples.closedWon)
     = (Examples.cached Examples.closedWon, Ok (JStr "1"))
  /\ OpportunityStageMapping.findApolloOpportunityStageIdByName
       (Examples.apollo_down None) (JStr "closed won")
       (Examples.cached Examples.closedWon)
     = (Examples.cached Examples.closedWon, Ok (JStr "1")).
Proof.
  assert (Hne : trim "closed won" <> "") by (vm_compute; discriminate).
  assert (Heq : Spec.ci_equal "Closed Won" "closed won") by reflexivity.
  split; [exact Hne |]. split; [exact Heq |].
  destruct (stage_lookup_exact_match (Examples.apollo_down None)
              (Examples.cached Examples.closedWon) Examples.closedWon
              "closed won" {| stage_id := "1"; stage_name := "Closed Won" |}
              Hne (or_introl eq_refl) Heq)
    as [first [Hfirst [_ [Hcontact Hopp]]]].
  vm_compute in Hfirst. inversion Hfirst; subst first.
  split.
  - apply Hcontact. reflexivity.
  - apply Hopp. reflexivity.
Defined.

(** ** Runs of the sync functions *)

(** One step of the inversion of a run that returned. *)
Ltac run_step H :=
  lazymatch type of H with
  | bind _ _ _ = (_, Ok _) =>
      let st1 := fresh "st" in
      let a := fresh "a" in
      let Hm := fresh "Hrun" in
      apply bind_ok_inv in H; destruct H as (st1 & a & Hm & H)
  | throw _ _ = (_, Ok _) => discriminate H
  | (match ?x with _ => _ end) _ = (_, Ok _) => destruct x eqn:?
  | (if ?c then _ else _) _ = (_, Ok _) => destruct c eqn:?
  end.

Lemma sync_person_result (w : World) (recordId : string) (st st' : State)
    (r : SyncResult) :
  SyncToApollo.syncToApollo w recordId st = (st', Ok r) ->
  r = {| created := 1; updated := 0 |} \/ r = {| created := 0; updated := 1 |}.
Proof.
  intros H. unfold SyncToApollo.syncToApollo in H.
  repeat run_step H;
    apply ret_inv in H; destruct H as [_ ->]; auto.
Qed.

Lemma sync_deal_result (w : World) (recordId : string) (st st' : State)
    (r : SyncResult) :
  SyncDealToApollo.syncDealToApollo w recordId st = (st', Ok r) ->
  r = {| created := 1; updated := 0 |} \/ r = {| created := 0; updated := 1 |}.
Proof.
  intros H. unfold SyncDealToApollo.syncDealToApollo in H.
  repeat run_step H;
    apply ret_inv in H; destruct H as [_ ->]; auto.
Qed.

Lemma sync_company_result (w : World) (recordId : string) (st st' : State)
    (r : SyncResult) :
  SyncCompanyToApollo.syncCompanyToApollo w recordId st = (st', Ok r) ->
  r = {| created := 1; updated := 0 |} \/ r = {| created := 0; updated := 1 |}.
Proof.
  intros H. unfold SyncCompanyToApollo.syncCompanyToApollo in H.
  repeat run_step H;
    apply ret_inv in H; destruct H as [_ ->]; auto.
Qed.

(** ** Occurrences of a substring *)

Lemma startsWith_refl (s : string) : startsWith s s = true.
Proof.
  induction s as [ | c s IH ]; simpl; [reflexivity |].
  rewrite Ascii.eqb_refl, IH. reflexivity.
Qed.

Lemma startsWith_short (a sub : string) :
  String.length a < String.length sub -> startsWith a sub = false.
Proof.
  revert a. induction sub as [ | x sub IH ]; intros a Hlen; simpl in *; [lia |].
  destruct a as [ | y a ]; [reflexivity |].
  simpl in Hlen. simpl. rewrite (IH a) by lia. apply andb_false_r.
Qed.

Lemma occurrences_short (a sub : string) :
  String.length a < String.length sub -> Spec.occurrences a sub = 0.
Proof.
  induction a as [ | y a IH ]; intros Hlen.
  - cbn [Spec.occurrences]. rewrite startsWith_short by exact Hlen. reflexivity.
  - cbn [Spec.occurrences]. rewrite startsWith_short by exact Hlen.
    rewrite IH; [reflexivity | simpl in Hlen; lia].
Qed.

Lemma occurrences_self (s : string) : s <> "" -> Spec.occurrences s s = 1.
Proof.
  destruct s as [ | c s ]; [intros H; exfalso; apply H; reflexivity |].
  intros _. cbn [Spec.occurrences]. rewrite startsWith_refl.
  rewrite occurrences_short; [reflexivity | simpl; lia].
Qed.

Lemma startsWith_sep (c : ascii) (sub a b : string) :
  Spec.mem_char c sub = false ->
  startsWith (a ++ String c b) sub = startsWith a sub.
Proof.
  revert a. induction sub as [ | x sub IH ]; intros a Hc; [reflexivity |].
  simpl in Hc. apply orb_false_iff in Hc as [Hx Hsub].
  destruct a as [ | y a ]; simpl.
  - rewrite Hx. reflexivity.
  - rewrite (IH a Hsub). reflexivity.
Qed.

Lemma occurrences_sep (c : ascii) (sub a b : string) :
  Spec.mem_char c sub = false -> sub <> "" ->
  Spec.occurrences (a ++ String c b) sub
  = Spec.occurrences a sub + Spec.occurrences b sub.
Proof.
  intros Hc Hne. induction a as [ | y a IH ].
  - pose proof (startsWith_sep c sub "" b Hc) as Hs. cbn [append] in Hs.
    cbn [append Spec.occurrences]. rewrite Hs.
    destruct sub as [ | x sub ]; [exfalso; apply Hne; reflexivity |].
    reflexivity.
  - cbn [append Spec.occurrences].
    change (String y (a ++ String c b)) with (String y a ++ String c b).
    rewrite (startsWith_sep c sub (String y a) b Hc). rewrite IH. lia.
Qed.

Lemma includes_false_occurrences (s sub : string) :
  includes s sub = false -> Spec.occurrences s sub = 0.
Proof.
  induction s as [ | y s IH ]; cbn [includes Spec.occurrences]; intros H;
    apply orb_false_iff in H as [H1 H2]; rewrite H1.
  - reflexivity.
  - rewrite (IH H2). reflexivity.
Qed.

Lemma includes_suffix (a s : string) : includes (a ++ s) s = true.
Proof.
  induction a as [ | y a IH ].
  - simpl append. destruct s; simpl; [reflexivity |].
    rewrite Ascii.eqb_refl, startsWith_refl. reflexivity.
  - cbn [append includes]. rewrite IH. apply orb_true_r.
Qed.

Lemma append_associative (a b c : string) : (a ++ b) ++ c = a ++ (b ++ c).
Proof. induction a as [ | y a IH ]; simpl; [reflexivity | rewrite IH; reflexivity]. Qed.

Lemma includes_self (s : string) : includes s s = true.
Proof. exact (includes_suffix "" s). Qed.

Lemma mem_char_append (c : ascii) (a b : string) :
  Spec.mem_char c (a ++ b) = Spec.mem_char c a || Spec.mem_char c b.
Proof.
  induction a as [ | y a IH ]; simpl; [reflexivity |].
  rewrite IH. apply orb_assoc.
Qed.

Lemma marker_one_line (recordId : string) :
  Spec.mem_char Spec.lf recordId = false ->
  Spec.mem_char Spec.lf (SyncDealToApollo.attioRecordIdMarker recordId) = false.
Proof.
  intros H. unfold SyncDealToApollo.attioRecordIdMarker.
  rewrite !mem_char_append, H. reflexivity.
Qed.

Lemma marker_not_empty (recordId : string) :
  SyncDealToApollo.attioRecordIdMarker recordId <> "".
Proof. unfold SyncDealToApollo.attioRecordIdMarker. simpl. discriminate. Qed.

(** The marker appended after two line feeds is the only occurrence when
    the text before holds none. *)
Lemma appended_marker_once (recordId d : string) :
  Spec.mem_char Spec.lf recordId = false ->
  includes d (SyncDealToApollo.attioRecordIdMarker recordId) = false ->
  Spec.occurrences
    (d ++ SyncDealToApollo.LF ++ SyncDealToApollo.LF
       ++ SyncDealToApollo.attioRecordIdMarker recordId)
    (SyncDealToApollo.attioRecordIdMarker recordId) = 1.
Proof.
  intros Hlf Hd.
  pose proof (marker_one_line recordId Hlf) as Hm.
  pose proof (marker_not_empty recordId) as Hne.
  change (d ++ SyncDealToApollo.LF ++ SyncDealToApollo.LF
            ++ SyncDealToApollo.attioRecordIdMarker recordId)
    with (d ++ String Spec.lf
            ("" ++ String Spec.lf (SyncDealToApollo.attioRecordIdMarker recordId))).
  rewrite (occurrences_sep _ _ _ _ Hm Hne).
  rewrite (occurrences_sep _ _ _ _ Hm Hne).
  rewrite (includes_false_occurrences _ _ Hd).
  rewrite (occurrences_self _ Hne).
  rewrite occurrences_short; [reflexivity |].
  destruct (SyncDealToApollo.attioRecordIdMarker recordId);
    [exfalso; apply Hne; reflexivity | simpl; lia].
Qed.

(** ** The description sent by the deal sync *)

Lemma updateDescription_includes (recordId : string) (description : option string) :
  includes (SyncDealToApollo.updateDescription recordId description)
           (SyncDealToApollo.attioRecordIdMarker recordId) = true.
Proof.
  unfold SyncDealToApollo.updateDescription.
  destruct description as [d | ]; [ | apply includes_self].
  destruct (is_empty d); cbn [negb]; [apply includes_self |].
  destruct (includes d _) eqn:Hd; cbn [negb]; [exact Hd |].
  rewrite <- !append_associative. apply includes_suffix.
Qed.

Lemma descriptionWithMarker_includes (recordId : string)
    (description : option string) :
  includes (SyncDealToApollo.descriptionWithMarker recordId description)
           (SyncDealToApollo.attioRecordIdMarker recordId) = true.
Proof.
  unfold SyncDealToApollo.descriptionWithMarker.
  destruct description as [d | ]; [ | apply includes_self].
  destruct (is_empty d); cbn [negb]; [apply includes_self |].
  rewrite <- !append_associative. apply includes_suffix.
Qed.

Lemma updateDescription_once (recordId : string) (description : option string) :
  Spec.mem_char Spec.lf recordId = false ->
  Spec.marker_free recordId description ->
  Spec.occurrences (SyncDealToApollo.updateDescription recordId description)
                   (SyncDealToApollo.attioRecordIdMarker recordId) = 1.
Proof.
  intros Hlf Hfree. unfold SyncDealToApollo.updateDescription.
  destruct description as [d | ];
    [ | apply occurrences_self, marker_not_empty].
  destruct (is_empty d); cbn [negb];
    [apply occurrences_self, marker_not_empty |].
  simpl in Hfree. rewrite Hfree. cbn [negb].
  apply appended_marker_once; assumption.
Qed.

Lemma descriptionWithMarker_once (recordId : string) (description : option string) :
  Spec.mem_char Spec.lf recordId = false ->
  Spec.marker_free recordId description ->
  Spec.occurrences (SyncDealToApollo.descriptionWithMarker recordId description)
                   (SyncDealToApollo.attioRecordIdMarker recordId) = 1.
Proof.
  intros Hlf Hfree. unfold SyncDealToApollo.descriptionWithMarker.
  destruct description as [d | ];
    [ | apply occurrences_self, marker_not_empty].
  destruct (is_empty d); cbn [negb];
    [apply occurrences_self, marker_not_empty |].
  apply appended_marker_once; assumption.
Qed.

(** ** Fields of a payload *)

Lemma lookup_app {A : Type} (k : string) (a b : list (string * A)) :
  lookup k (a ++ b)
  = match lookup k a with
    | Some v => Some v
    | None => lookup k b
    end.
Proof.
  induction a as [ | [k' v] a IH ]; simpl; [reflexivity |].
  destruct (String.eqb k k'); [reflexivity | exact IH].
Qed.

Lemma stageFields_no_description (w : World) (attioStage : option string)
    (st st' : State) (stage : fields) :
  SyncDealToApollo.stageFields w attioStage st = (st', Ok stage) ->
  lookup "description" stage = None.
Proof.
  unfold SyncDealToApollo.stageFields.
  destruct attioStage as [ [ | c s ] | ];
    try (intros H; apply ret_inv in H; destruct H as [_ ->]; reflexivity).
  unfold try_catch, bind.
  destruct (OpportunityStageMapping.mapDealStageToApollo w (JStr (String c s)) st)
    as [st1 [stageId | e]].
  - destruct stageId; try (intros H; apply ret_inv in H; destruct H as [_ ->]; reflexivity).
    destruct (negb (is_empty s0) && looks_like_stage_id s0);
      intros H; apply ret_inv in H; destruct H as [_ ->]; reflexivity.
  - intros H; apply ret_inv in H; destruct H as [_ ->]; reflexivity.
Qed.

(** ** The choice between update and create in the deal sync *)



Lemma findMatchedOpp_marker_first (recordId : string) (dealName : value)
    (opps : list ApolloOpportunity) (o : ApolloOpportunity) :
  find (SyncDealToApollo.marker_match recordId) opps = Some o ->
  SyncDealToApollo.findMatchedOpp recordId dealName opps = Ok (Some o).
Proof. unfold SyncDealToApollo.findMatchedOpp. intros ->. reflexivity. Qed.

(** What a deal sync that returned has done. *)
Lemma deal_run_inv (w : World) (recordId : string) (st st' : State)
    (r : SyncResult) :
  SyncDealToApollo.syncDealToApollo w recordId st = (st', Ok r) ->
  exists (data : fields) (tr : list Event) (params : fields)
         (opps : list ApolloOpportunity),
    getDeal w (trace st) recordId = Ok (Some data)
    /\ searchApolloOpportunities w tr params = Ok opps
    /\ ((exists (o : ApolloOpportunity) (oppId : string) (payload : fields)
                (before : list Event),
            SyncDealToApollo.findMatchedOpp recordId
              (SyncDealToApollo.extractDealName (Spec.values_of data)) opps
            = Ok (Some o)
            /\ opp_id o = Some oppId
            /\ r = {| created := 0; updated := 1 |}
            /\ trace st' = (before ++ [EvUpdateOpportunity oppId payload])%list
            /\ lookup "description" payload
               = Some (JStr (SyncDealToApollo.updateDescription recordId
                               (SyncDealToApollo.extractDescription
                                  (Spec.values_of data)))))
        \/ (exists (payload : fields) (before : list Event),
               SyncDealToApollo.findMatchedOpp recordId
                 (SyncDealToApollo.extractDealName (Spec.values_of data)) opps
               = Ok None
               /\ r = {| created := 1; updated := 0 |}
               /\ trace st' = (before ++ [EvCreateOpportunity payload])%list
               /\ lookup "description" payload
                  = Some (JStr (SyncDealToApollo.descriptionWithMarker recordId
                                  (SyncDealToApollo.extractDescription
                                     (Spec.values_of data)))))).
Proof.
  intros H. unfold SyncDealToApollo.syncDealToApollo in H.
  run_step H. apply call_ok_inv in Hrun as (Hget & _).
  destruct a as [data | ]; [ | discriminate H].
  fold (Spec.values_of data) in H.
  run_step H; [discriminate H |].
  run_step H.
  run_step H. clear Hrun.
  run_step H. rename a0 into found, Hrun into Hfirst.
  run_step H. rename a0 into opps, Hrun into Hsecond.
  assert (Hsearch : exists tr params,
             searchApolloOpportunities w tr params = Ok opps).
  { destruct found as [ | o0 l0 ].
    - apply call_ok_inv in Hsecond as (Hs & _). eauto.
    - apply ret_inv in Hsecond as [_ ->].
      apply call_ok_inv in Hfirst as (Hs & _). eauto. }
  destruct Hsearch as (tr & params & Hsearch).
  run_step H. apply lift_ok_inv in Hrun as [_ Hmatch].
  exists data, tr, params, opps. split; [exact Hget |]. split; [exact Hsearch |].
  destruct a0 as [existingOpp | ].
  - left.
    destruct (opp_id existingOpp) as [ [ | c oppId ] | ] eqn:Hid;
      try discriminate H.
    run_step H. rename a0 into stage, Hrun into Hstage.
    run_step H. apply call_ok_inv in Hrun as (_ & Htrace & _).
    apply ret_inv in H as [-> ->].
    eexists existingOpp, (String c oppId), _, _.
    split; [exact Hmatch |]. split; [exact Hid |]. split; [reflexivity |].
    split; [exact Htrace |].
    rewrite !lookup_app.
    rewrite (stageFields_no_description _ _ _ _ _ Hstage).
    cbn [lookup String.eqb Ascii.eqb Bool.eqb].
    repeat match goal with
           | |- context [if ?c then _ else _] => destruct c
           end; reflexivity.
  - right.
    run_step H. apply call_ok_inv in Hrun as (_ & Htrace & _).
    apply ret_inv in H as [-> ->].
    eexists _, _. split; [exact Hmatch |]. split; [reflexivity |].
    split; [exact Htrace |]. reflexivity.
Qed.

(** ** The person sync *)

Lemma no_email_falsy (values : value) :
  Spec.NoEmail values -> truthy (SyncToApollo.extractEmail values) = false.
Proof.
  unfold SyncToApollo.extractEmail, oget.
  intros [Hmissing | Hempty | entry rest Harr Hentry].
  - rewrite Hmissing. reflexivity.
  - rewrite Hempty. reflexivity.
  - rewrite Harr. cbn [js_or truthy first]. rewrite Hentry. reflexivity.
Qed.

Lemma skipn_all_app {A : Type} (l l' : list A) :
  skipn (List.length l) (l ++ l') = l'.
Proof. induction l as [ | x l IH ]; simpl; [reflexivity | exact IH]. Qed.



Lemma deal_run_description (w : World) (recordId : string) (st st' : State)
    (r : SyncResult) :
  SyncDealToApollo.syncDealToApollo w recordId st = (st', Ok r) ->
  Spec.deal_description_sent w recordId st st'.
Proof.
  intros H. apply deal_run_inv in H.
  destruct H as (data & tr & params & opps & Hget & _ & Hcase).
  destruct Hcase as [(o & oppId & payload & before & _ & _ & _ & Htr & Hd)
                    | (payload & before & _ & _ & Htr & Hd)].
  - exists data, payload, before. split; [exact Hget |]. left. eauto.
  - exists data, payload, before. split; [exact Hget |]. right. auto.
Qed.

(** ** Extraction, early failure, matching, swallowed errors, counts *)

(** C1 (failing input): on [[{title: 42}]] the extraction returns the
    number 42, which is neither a string nor [null]: the last array case,
    [entry?.title || entry?.name || entry?.label || null], hands the field
    back without [String(...)]. *)
Theorem extractAttioValue_numeric_title :
  AttributeMapping.extractAttioValue Examples.numericTitle = Ok (JNum "42")
  /\ typeof_string (JNum "42") = false
  /\ JNum "42" <> JNull.
Proof. repeat split; try reflexivity. discriminate. Qed.

(** C1 fails a second way: the extraction throws when the candidate it
    converts cannot be converted, as on [[{value: {toString: null}}]],
    where [String(entry.value)] ends in a [TypeError]. *)
Lemma extractAttioValue_throws_on_unconvertible :
  AttributeMapping.extractAttioValue Examples.unconvertible
  = Throw conversion_error.
Proof. reflexivity. Qed.




(** C4: for every person record whose values hold no email address,
    [syncToApollo] throws right after reading the record: the only call it
    has made is the read of the source record, none reaches the target
    platform. *)
Theorem person_without_email_fails_early :
  forall (w : World) (recordId : string) (st : State) (data : fields),
    getPerson w (trace st) recordId = Ok (Some data) ->
    Spec.NoEmail (Spec.values_of data) ->
    exists st' : State,
      SyncToApollo.syncToApollo w recordId st
      = (st', Throw (Error ("No email address found for record " ++ recordId
                              ++ ". Email is required for syncing.")))
      /\ Spec.added st st' = [EvGetPerson recordId]
      /\ existsb targets_apollo (Spec.added st st') = false.
Proof.
  intros w recordId st data Hget Hno.
  unfold SyncToApollo.syncToApollo, bind, call. rewrite Hget.
  fold (Spec.values_of data). rewrite (no_email_falsy _ Hno). cbn [negb].
  eexists. split; [reflexivity |].
  unfold Spec.added. cbn [trace]. rewrite skipn_all_app.
  split; reflexivity.
Qed.

Lemma person_without_email_fails_early_witness :
  Spec.NoEmail (Spec.values_of Examples.nobody)
  /\ exists st' : State,
       SyncToApollo.syncToApollo Examples.nobodyWorld "r1" initial
       = (st', Throw (Error ("No email address found for record " ++ "r1"
                               ++ ". Email is required for syncing.")))
       /\ Spec.added initial st' = [EvGetPerson "r1"]
       /\ existsb targets_apollo (Spec.added initial st') = false.
Proof.
  assert (Hno : Spec.NoEmail (Spec.values_of Examples.nobody)).
  { apply Spec.NoEmail_missing. reflexivity. }
  split; [exact Hno |].
  apply (person_without_email_fails_early Examples.nobodyWorld "r1" initial
           Examples.nobody eq_refl Hno).
Defined.




(** C8: for every record-updated event, [onRecordUpdated] returns
    normally; whatever the underlying sync throws is caught and not
    propagated. *)
Theorem onRecordUpdated_swallows_errors :
  forall (w : World) (event : RecordUpdated.RecordEvent) (st : State),
    snd (RecordUpdated.onRecordUpdated w event st) = Ok tt
    /\ (forall (st1 : State) (e : exn),
          RecordUpdated.object event = "people" ->
          SyncToApollo.syncToApollo w (RecordUpdated.recordId event) st
          = (st1, Throw e) ->
          RecordUpdated.onRecordUpdated w event st = (st1, Ok tt)).
Proof.
  intros w event st. unfold RecordUpdated.onRecordUpdated. split.
  - destruct (negb (RecordUpdated.object event =? "people")); [reflexivity |].
    unfold try_catch, bind.
    destruct (SyncToApollo.syncToApollo w (RecordUpdated.recordId event) st)
      as [st1 [r | e]]; reflexivity.
  - intros st1 e Hobj Hsync. rewrite Hobj.
    change (negb ("people" =? "people")) with false. cbv beta iota.
    unfold try_catch, bind. rewrite Hsync. reflexivity.
Qed.

Lemma onRecordUpdated_swallows_errors_witness :
  snd (SyncToApollo.syncToApollo (Examples.apollo_down (Some Examples.ada))
         "r1" initial) = Throw (Error "down")
  /\ snd (RecordUpdated.onRecordUpdated
            (Examples.apollo_down (Some Examples.ada))
            {| RecordUpdated.object := "people"; RecordUpdated.recordId := "r1" |}
            initial) = Ok tt.
Proof.
  split; [reflexivity |].
  rewrite (proj2 (onRecordUpdated_swallows_errors
                    (Examples.apollo_down (Some Examples.ada))
                    {| RecordUpdated.object := "people";
                       RecordUpdated.recordId := "r1" |}
                    initial)
             (fst (SyncToApollo.syncToApollo
                     (Examples.apollo_down (Some Examples.ada)) "r1" initial))
             (Error "down") eq_refl eq_refl).
  reflexivity.
Defined.

(** C9: every run of [syncToApollo], [syncCompanyToApollo] and
    [syncDealToApollo] that returns, returns [{created: 1, updated: 0}] or
    [{created: 0, updated: 1}], so that [created + updated] is 1. *)
Theorem sync_counts_one_record :
  forall (w : World) (recordId : string) (st st' : State) (r : SyncResult),
    SyncToApollo.syncToApollo w recordId st = (st', Ok r)
    \/ SyncCompanyToApollo.syncCompanyToApollo w recordId st = (st', Ok r)
    \/ SyncDealToApollo.syncDealToApollo w recordId st = (st', Ok r) ->
    (r = {| created := 1; updated := 0 |} \/ r = {| created := 0; updated := 1 |})
    /\ created r + updated r = 1.
Proof.
  intros w recordId st st' r H.
  assert (Hr : r = {| created := 1; updated := 0 |}
               \/ r = {| created := 0; updated := 1 |}).
  { destruct H as [H | [H | H]].
    - exact (sync_person_result _ _ _ _ _ H).
    - exact (sync_company_result _ _ _ _ _ H).
    - exact (sync_deal_result _ _ _ _ _ H). }
  split; [exact Hr |]. destruct Hr as [-> | ->]; reflexivity.
Qed.

Lemma sync_counts_one_record_witness :
  (snd (SyncToApollo.syncToApollo Examples.adaWorld "r1" initial)
   = Ok {| created := 0; updated := 1 |})
  /\ (snd (SyncCompanyToApollo.syncCompanyToApollo
             (Examples.world None (Some Examples.acme) None [] [] [] [] [])
             "r1" initial)
      = Ok {| created := 1; updated := 0 |})
  /\ created {| created := 0; updated := 1 |}
     + updated {| created := 0; updated := 1 |} = 1.
Proof.
  split; [reflexivity |]. split; [reflexivity |].
  apply (sync_counts_one_record Examples.adaWorld "r1" initial
           (fst (SyncToApollo.syncToApollo Examples.adaWorld "r1" initial))
           {| created := 0; updated := 1 |}).
  left. reflexivity.
Defined.

(** C10 (as stated) fails: the update path sends a description that
    already carries the marker as it is, so a source description with two
    markers is sent with two. *)
Lemma marker_twice_counterexample :
  SyncDealToApollo.syncDealToApollo
    (Examples.dealWorld Examples.twoMarkers [Examples.markedOpp]) "r1" initial
  = ({| trace :=
          [ EvGetDeal "r1";
            EvSearchOpportunities
              [("name", JStr "Big Deal"); ("per_page", JNum "20")];
            EvUpdateOpportunity "o2"
              [ ("name", JStr "Big Deal");
                ("description", JStr Examples.twoMarkers) ] ];
        apolloStagesCache := None;
        apolloOpportunityStagesCache := None |},
     Ok {| created := 0; updated := 1 |})
  /\ Spec.occurrences Examples.twoMarkers
       (SyncDealToApollo.attioRecordIdMarker "r1") = 2.
Proof. split; reflexivity. Qed.

(** The create path appends the marker without looking for it: a source
    description that is the marker is sent with two. *)
Lemma create_path_repeats_marker :
  SyncDealToApollo.descriptionWithMarker "r1" (Some "[Attio Record ID: r1]")
  = "[Attio Record ID: r1]" ++ SyncDealToApollo.LF ++ SyncDealToApollo.LF
      ++ "[Attio Record ID: r1]"
  /\ Spec.occurrences
       (SyncDealToApollo.descriptionWithMarker "r1" (Some "[Attio Record ID: r1]"))
       (SyncDealToApollo.attioRecordIdMarker "r1") = 2.
Proof. split; reflexivity. Qed.

(** C10 (amended): for every deal sync of record ID r that returns, the
    description field sent to the target platform, on the create path and
    on the update path, contains the marker "[Attio Record ID: r]"; it
    contains it exactly once when r has no line feed and the description
    of the source record does not contain the marker; and a search result
    whose description contains the marker is matched before any matching
    by name. *)
Theorem deal_description_carries_marker :
  forall recordId : string,
    (forall (w : World) (st st' : State) (r : SyncResult),
        SyncDealToApollo.syncDealToApollo w recordId st = (st', Ok r) ->
        Spec.deal_description_sent w recordId st st')
    /\ (forall description : option string,
          includes (SyncDealToApollo.updateDescription recordId description)
                   (SyncDealToApollo.attioRecordIdMarker recordId) = true
          /\ includes (SyncDealToApollo.descriptionWithMarker recordId description)
                      (SyncDealToApollo.attioRecordIdMarker recordId) = true)
    /\ (forall description : option string,
          Spec.mem_char Spec.lf recordId = false ->
          Spec.marker_free recordId description ->
          Spec.occurrences
            (SyncDealToApollo.updateDescription recordId description)
            (SyncDealToApollo.attioRecordIdMarker recordId) = 1
          /\ Spec.occurrences
               (SyncDealToApollo.descriptionWithMarker recordId description)
               (SyncDealToApollo.attioRecordIdMarker recordId) = 1)
    /\ (forall (dealName : value) (opps : list ApolloOpportunity)
               (o : ApolloOpportunity),
          find (SyncDealToApollo.marker_match recordId) opps = Some o ->
          SyncDealToApollo.findMatchedOpp recordId dealName opps = Ok (Some o)).
Proof.
  intros recordId. split; [ | split; [ | split ] ].
  - intros w st st' r. apply deal_run_description.
  - intros description. split.
    + apply updateDescription_includes.
    + apply descriptionWithMarker_includes.
  - intros description Hlf Hfree. split.
    + apply updateDescription_once; assumption.
    + apply descriptionWithMarker_once; assumption.
  - intros dealName opps o. apply findMatchedOpp_marker_first.
Qed.

Lemma deal_description_carries_marker_witness :
  Spec.deal_description_sent
    (Examples.dealWorld "hello" [Examples.bigDealOpp]) "r1" initial
    (fst (SyncDealToApollo.syncDealToApollo
            (Examples.dealWorld "hello" [Examples.bigDealOpp]) "r1" initial))
  /\ Spec.occurrences
       (SyncDealToApollo.updateDescription "r1" (Some "hello"))
       (SyncDealToApollo.attioRecordIdMarker "r1") = 1
  /\ SyncDealToApollo.findMatchedOpp "r1" (JStr "Big Deal")
       [Examples.bigDealOpp; Examples.markedOpp]
     = Ok (Some Examples.markedOpp).
Proof.
  destruct (deal_description_carries_marker "r1")
    as [Hsent [_ [Honce Hfirst]]].
  split; [ | split ].
  - apply (Hsent (Examples.dealWorld "hello" [Examples.bigDealOpp]) initial _
             {| created := 0; updated := 1 |}).
    reflexivity.
  - apply (Honce (Some "hello")); reflexivity.
  - apply Hfirst. reflexivity.
Defined.

(* ===================================================================== *)
(** * Further properties                                                  *)
(* ===================================================================== *)

(** ** The stage caches *)

Lemma map_stage_eta (stages : list Stage) :
  map (fun s => {| stage_id := stage_id s; stage_name := stage_name s |}) stages
  = stages.
Proof.
  induction stages as [ | [i n] l IH ]; simpl; [reflexivity |].
  rewrite IH. reflexivity.
Qed.

(** X1: when the cache is unset and the fetch succeeds, [getApolloStages]
    (and [getApolloOpportunityStages]) makes one call, answers the fetched
    list and caches it, and every later call answers the same list from
    the cache without any call, whatever the target platform would answer
    then. *)
Theorem stage_fetch_is_cached :
  forall (w : World) (st : State) (stages : list Stage),
    (apolloStagesCache st = None ->
     listApolloContactStages w (trace st) = Ok stages ->
     exists st' : State,
       StageMapping.getApolloStages w st = (st', Ok stages)
       /\ trace st' = (trace st ++ [EvListContactStages])%list
       /\ apolloStagesCache st' = Some stages
       /\ forall w' : World,
            StageMapping.getApolloStages w' st' = (st', Ok stages))
    /\ (apolloOpportunityStagesCache st = None ->
        listApolloOpportunityStages w (trace st) = Ok stages ->
        exists st' : State,
          OpportunityStageMapping.getApolloOpportunityStages w st = (st', Ok stages)
          /\ trace st' = (trace st ++ [EvListOpportunityStages])%list
          /\ apolloOpportunityStagesCache st' = Some stages
          /\ forall w' : World,
               OpportunityStageMapping.getApolloOpportunityStages w' st'
               = (st', Ok stages)).
Proof.
  intros w st stages. split; intros Hc Hl.
  - unfold StageMapping.getApolloStages at 1. rewrite Hc.
    unfold try_catch, bind, call. rewrite Hl, map_stage_eta.
    eexists. split; [reflexivity |]. split; [reflexivity |].
    split; [reflexivity |]. intros w'. reflexivity.
  - unfold OpportunityStageMapping.getApolloOpportunityStages at 1. rewrite Hc.
    unfold try_catch, bind, call. rewrite Hl, map_stage_eta.
    eexists. split; [reflexivity |]. split; [reflexivity |].
    split; [reflexivity |]. intros w'. reflexivity.
Qed.

Lemma stage_fetch_is_cached_witness :
  exists st' : State,
    StageMapping.getApolloStages MoreExamples.pipelineWorld initial
    = (st', Ok MoreExamples.pipeline)
    /\ trace st' = (trace initial ++ [EvListContactStages])%list
    /\ apolloStagesCache st' = Some MoreExamples.pipeline
    /\ forall w' : World,
         StageMapping.getApolloStages w' st' = (st', Ok MoreExamples.pipeline).
Proof.
  apply (proj1 (stage_fetch_is_cached MoreExamples.pipelineWorld initial
                  MoreExamples.pipeline));
    reflexivity.
Defined.

Lemma getApolloStages_failed (w : World) (st : State) (e : exn) :
  apolloStagesCache st = None ->
  listApolloContactStages w (trace st) = Throw e ->
  exists st' : State,
    StageMapping.getApolloStages w st = (st', Ok [])
    /\ apolloStagesCache st' = None
    /\ trace st' = (trace st ++ [EvListContactStages])%list.
Proof.
  intros Hc Hl. unfold StageMapping.getApolloStages. rewrite Hc.
  unfold try_catch, bind, call. rewrite Hl. unfold ret.
  eexists. split; [reflexivity |]. split; [exact Hc | reflexivity].
Qed.

Lemma getApolloStages_fetches (w : World) (st : State) :
  apolloStagesCache st = None ->
  trace (fst (StageMapping.getApolloStages w st))
  = (trace st ++ [EvListContactStages])%list.
Proof.
  intros Hc. unfold StageMapping.getApolloStages. rewrite Hc.
  unfold try_catch, bind, call, ret.
  destruct (listApolloContactStages w (trace st)); reflexivity.
Qed.

Lemma getApolloOpportunityStages_fetches (w : World) (st : State) :
  apolloOpportunityStagesCache st = None ->
  trace (fst (OpportunityStageMapping.getApolloOpportunityStages w st))
  = (trace st ++ [EvListOpportunityStages])%list.
Proof.
  intros Hc. unfold OpportunityStageMapping.getApolloOpportunityStages.
  rewrite Hc. unfold try_catch, bind, call, ret.
  destruct (listApolloOpportunityStages w (trace st)); reflexivity.
Qed.

(** X2: [getApolloStages] and [getApolloOpportunityStages] never throw.
    When the wrapper they call throws, they answer the empty list and
    leave the cache unset, so that the next call calls the wrapper again.
    When the wrapper answers the empty list, which is what
    [listApolloOpportunityStages] does after every endpoint has failed,
    the empty list is cached like any other answer and the next call does
    not fetch again. *)
Theorem stage_fetch_failure_is_swallowed :
  forall (w : World) (st : State),
    (exists (st' : State) (stages : list Stage),
        StageMapping.getApolloStages w st = (st', Ok stages))
    /\ (exists (st' : State) (stages : list Stage),
           OpportunityStageMapping.getApolloOpportunityStages w st
           = (st', Ok stages))
    /\ (forall e : exn,
          apolloStagesCache st = None ->
          listApolloContactStages w (trace st) = Throw e ->
          exists st' : State,
            StageMapping.getApolloStages w st = (st', Ok [])
            /\ apolloStagesCache st' = None
            /\ trace st' = (trace st ++ [EvListContactStages])%list
            /\ forall w' : World,
                 trace (fst (StageMapping.getApolloStages w' st'))
                 = (trace st' ++ [EvListContactStages])%list)
    /\ (forall e : exn,
          apolloOpportunityStagesCache st = None ->
          listApolloOpportunityStages w (trace st) = Throw e ->
          exists st' : State,
            OpportunityStageMapping.getApolloOpportunityStages w st = (st', Ok [])
            /\ apolloOpportunityStagesCache st' = None
            /\ trace st' = (trace st ++ [EvListOpportunityStages])%list
            /\ forall w' : World,
                 trace (fst (OpportunityStageMapping.getApolloOpportunityStages
                               w' st'))
                 = (trace st' ++ [EvListOpportunityStages])%list)
    /\ (apolloOpportunityStagesCache st = None ->
        listApolloOpportunityStages w (trace st) = Ok [] ->
        exists st' : State,
          OpportunityStageMapping.getApolloOpportunityStages w st = (st', Ok [])
          /\ apolloOpportunityStagesCache st' = Some []
          /\ forall w' : World,
               OpportunityStageMapping.getApolloOpportunityStages w' st'
               = (st', Ok [])).
Proof.
  intros w st. split; [ | split; [ | split; [ | split ] ] ].
  - unfold StageMapping.getApolloStages.
    destruct (apolloStagesCache st); [do 2 eexists; reflexivity |].
    unfold try_catch, bind, call.
    destruct (listApolloContactStages w (trace st)); do 2 eexists; reflexivity.
  - unfold OpportunityStageMapping.getApolloOpportunityStages.
    destruct (apolloOpportunityStagesCache st); [do 2 eexists; reflexivity |].
    unfold try_catch, bind, call.
    destruct (listApolloOpportunityStages w (trace st));
      do 2 eexists; reflexivity.
  - intros e Hc Hl.
    destruct (getApolloStages_failed w st e Hc Hl) as (st' & Hget & Hc' & Htr).
    exists st'. repeat split; try assumption.
    intros w'. apply getApolloStages_fetches. exact Hc'.
  - intros e Hc Hl.
    unfold OpportunityStageMapping.getApolloOpportunityStages at 1.
    rewrite Hc. unfold try_catch, bind, call. rewrite Hl. unfold ret.
    eexists. split; [reflexivity |]. split; [exact Hc |].
    split; [reflexivity |].
    intros w'. apply getApolloOpportunityStages_fetches. exact Hc.
  - intros Hc Hl.
    unfold OpportunityStageMapping.getApolloOpportunityStages at 1. rewrite Hc.
    unfold try_catch, bind, call. rewrite Hl. cbn [map].
    eexists. split; [reflexivity |]. split; [reflexivity |].
    intros w'. reflexivity.
Qed.

Lemma stage_fetch_failure_is_swallowed_witness :
  exists st' : State,
    StageMapping.getApolloStages (Examples.apollo_down None) initial = (st', Ok [])
    /\ apolloStagesCache st' = None
    /\ trace st' = (trace initial ++ [EvListContactStages])%list
    /\ forall w' : World,
         trace (fst (StageMapping.getApolloStages w' st'))
         = (trace st' ++ [EvListContactStages])%list.
Proof.
  apply (proj1 (proj2 (proj2 (stage_fetch_failure_is_swallowed
                                (Examples.apollo_down None) initial)))
           (Error "down"));
    reflexivity.
Defined.

(** X3: when the stage list cannot be fetched (the wrapper throws),
    [mapStageToApollo] still returns on a non-empty stage name for which
    the lookup in the manual table fails, both for the name and for its
    normalised form (no entry, and no name of a member inherited from
    [Object.prototype]): it passes the name through unchanged, after one
    attempt to fetch the list, and leaves the cache unset. *)
Theorem stage_passes_through_when_list_unavailable :
  forall (w : World) (st : State) (input : string) (e : exn),
    apolloStagesCache st = None ->
    listApolloContactStages w (trace st) = Throw e ->
    Spec.misses StageMapping.STAGE_NAME_MAPPING input ->
    Spec.misses StageMapping.STAGE_NAME_MAPPING
      (match StageMapping.normalizeName input with Some x => x | None => "" end) ->
    input <> "" ->
    exists st' : State,
      StageMapping.mapStageToApollo w (JStr input) st = (st', Ok (JStr input))
      /\ trace st' = (trace st ++ [EvListContactStages])%list
      /\ apolloStagesCache st' = None.
Proof.
  intros w st input e Hc Hl Hm1 Hm2 Hne.
  pose proof (table_get_misses _ _ Hm1) as Ht1.
  pose proof (table_get_misses _ _ Hm2) as Ht2.
  destruct (getApolloStages_failed w st e Hc Hl) as (st' & Hget & Hc' & Htr).
  exists st'. split; [ | split; assumption ].
  unfold StageMapping.mapStageToApollo.
  pose proof (not_empty_string input Hne) as Hin.
  assert (Hn : StageMapping.normalizeStage (JStr input)
               = Ok (StageMapping.normalizeName input)).
  { unfold StageMapping.normalizeStage. cbn [truthy]. rewrite Hin. reflexivity. }
  cbn [truthy]. rewrite Hin. cbn [negb].
  unfold StageMapping.mappedName. cbn [toString]. rewrite Ht1. cbn [table_truthy].
  rewrite Hn. cbn [rbind]. rewrite Ht2.
  cbv beta iota delta [bind lift ret].
  unfold StageMapping.findApolloStageIdByName,
    StageMapping.findApolloStageIdByName_lookup.
  cbv beta iota delta [bind lift ret].
  rewrite Hget, Hn.
  cbn [StageMapping.findInStages find StageMapping.lookup_result truthy].
  destruct (looks_like_stage_id input); reflexivity.
Qed.

Lemma stage_passes_through_when_list_unavailable_witness :
  exists st' : State,
    StageMapping.mapStageToApollo (Examples.apollo_down None) (JStr "Lead") initial
    = (st', Ok (JStr "Lead"))
    /\ trace st' = (trace initial ++ [EvListContactStages])%list
    /\ apolloStagesCache st' = None.
Proof.
  apply (stage_passes_through_when_list_unavailable
           (Examples.apollo_down None) initial "Lead" (Error "down"));
    try reflexivity.
  - split; [reflexivity |]. simpl. intuition discriminate.
  - split; [reflexivity |]. simpl. intuition discriminate.
  - discriminate.
Defined.

(** ** Stage lookups: case, white space and blank names *)

(** X4: against a cached stage list, the two stage-name lookups do not
    see the case or the surrounding white space of the name: two names
    that are not empty and are equal case-insensitively after trimming get
    the same answer. *)
Theorem stage_lookup_ignores_case_and_space :
  forall (w : World) (st : State) (stages : list Stage) (a b : string),
    a <> "" -> b <> "" ->
    Spec.ci_equal a b ->
    (apolloStagesCache st = Some stages ->
     StageMapping.findApolloStageIdByName w (JStr a) st
     = StageMapping.findApolloStageIdByName w (JStr b) st)
    /\ (apolloOpportunityStagesCache st = Some stages ->
        OpportunityStageMapping.findApolloOpportunityStageIdByName w (JStr a) st
        = OpportunityStageMapping.findApolloOpportunityStageIdByName w (JStr b) st).
Proof.
  intros w st stages a b Ha Hb Heq. unfold Spec.ci_equal in Heq.
  pose proof (not_empty_string a Ha) as Hae.
  pose proof (not_empty_string b Hb) as Hbe.
  split; intros Hc.
  - rewrite !(contact_find_cached w st stages _ Hc).
    rewrite (normalizeStage_string a Hae), (normalizeStage_string b Hbe), Heq.
    reflexivity.
  - rewrite !(opportunity_find_cached w st stages _ Hc).
    unfold Spec.opportunity_lookup.
    rewrite (opportunity_normalizeStage_string a Hae),
      (opportunity_normalizeStage_string b Hbe), Heq.
    reflexivity.
Qed.

Lemma stage_lookup_ignores_case_and_space_witness :
  StageMapping.findApolloStageIdByName MoreExamples.pipelineWorld
    (JStr "  CLOSED lost ") MoreExamples.pipelineCached
  = StageMapping.findApolloStageIdByName MoreExamples.pipelineWorld
      (JStr "closed lost") MoreExamples.pipelineCached.
Proof.
  apply (proj1 (stage_lookup_ignores_case_and_space MoreExamples.pipelineWorld
                  MoreExamples.pipelineCached MoreExamples.pipeline
                  "  CLOSED lost " "closed lost"
                  ltac:(discriminate) ltac:(discriminate) eq_refl)).
  reflexivity.
Defined.




(** ** What the stage mappings can answer *)

Lemma looks_like_stage_id_not_empty (s : string) :
  looks_like_stage_id s = true -> is_empty s = false.
Proof.
  unfold looks_like_stage_id, alphanumeric. destruct s; [discriminate | reflexivity].
Qed.

Lemma contact_lookup_answer (stages : list Stage) (n : option string) :
  StageMapping.lookup_result (StageMapping.findInStages stages n) = JNull
  \/ exists s, In s stages
               /\ StageMapping.lookup_result (StageMapping.findInStages stages n)
                  = JStr (stage_id s).
Proof.
  unfold StageMapping.findInStages.
  destruct (find (StageMapping.exact n) stages) as [m | ] eqn:He.
  - right. exists m. apply find_some in He as [Hin _]. auto.
  - destruct (find (StageMapping.partial n) stages) as [m | ] eqn:Hp.
    + right. exists m. apply find_some in Hp as [Hin _]. auto.
    + left. reflexivity.
Qed.

Lemma opportunity_lookup_answer (stages : list Stage) (n : option string) :
  OpportunityStageMapping.lookup_result
    (OpportunityStageMapping.findInStages stages n) = JNull
  \/ exists s, In s stages
               /\ OpportunityStageMapping.lookup_result
                    (OpportunityStageMapping.findInStages stages n)
                  = JStr (stage_id s).
Proof.
  unfold OpportunityStageMapping.findInStages.
  destruct n as [search | ]; [ | left; reflexivity].
  destruct (is_empty search); [left; reflexivity |].
  destruct (find (OpportunityStageMapping.exact search) stages) as [m | ] eqn:He.
  - right. exists m. apply find_some in He as [Hin _]. auto.
  - destruct (find (OpportunityStageMapping.partial search) stages)
      as [m | ] eqn:Hp.
    + right. exists m. apply find_some in Hp as [Hin _]. auto.
    + left. reflexivity.
Qed.

(** A truthy answer of a cached contact lookup is the identifier of a
    stage of the list. *)
Lemma contact_find_truthy (w : World) (st st' : State) (stages : list Stage)
    (stageName r : value) :
  apolloStagesCache st = Some stages ->
  StageMapping.findApolloStageIdByName w stageName st = (st', Ok r) ->
  st' = st
  /\ (truthy r = false
      \/ exists s, In s stages /\ r = JStr (stage_id s)).
Proof.
  intros Hc H. rewrite (contact_find_cached w st stages _ Hc) in H.
  destruct (StageMapping.normalizeStage stageName) as [n | e]; [ | discriminate H].
  cbn [rbind] in H. inversion H; subst. split; [reflexivity |].
  destruct (contact_lookup_answer stages n) as [-> | (s & Hin & ->)]; eauto.
Qed.

Lemma opportunity_find_truthy (w : World) (st st' : State) (stages : list Stage)
    (stageName r : value) :
  apolloOpportunityStagesCache st = Some stages ->
  OpportunityStageMapping.findApolloOpportunityStageIdByName w stageName st
  = (st', Ok r) ->
  st' = st
  /\ (truthy r = false
      \/ exists s, In s stages /\ r = JStr (stage_id s)).
Proof.
  intros Hc H. rewrite (opportunity_find_cached w st stages _ Hc) in H.
  unfold Spec.opportunity_lookup in H.
  destruct stages as [ | s0 l ].
  { cbn [rbind] in H. inversion H; subst. auto. }
  destruct (OpportunityStageMapping.normalizeStage stageName) as [n | e];
    [ | discriminate H].
  cbn [rbind] in H. inversion H; subst. split; [reflexivity |].
  destruct (opportunity_lookup_answer (s0 :: l) n) as [-> | (s & Hin & ->)]; eauto.
Qed.

(** One step of the inversion of a run that returned, with names. *)
Ltac run_bind H st1 a Hm :=
  apply bind_ok_inv in H; destruct H as (st1 & a & Hm & H).

(** X6: against a cached stage list, [mapStageToApollo] answers either its
    input as it is or the identifier of a stage of the list, and
    [mapDealStageToApollo] answers its input as it is (a falsy one), its
    input trimmed, or the identifier of a stage of the list: no other
    identifier is ever made up. *)
Theorem stage_mapping_answers_known_stage_or_input :
  forall (w : World) (st st' : State) (stages : list Stage)
         (attioStage r : value),
    (apolloStagesCache st = Some stages ->
     StageMapping.mapStageToApollo w attioStage st = (st', Ok r) ->
     r = attioStage \/ exists s, In s stages /\ r = JStr (stage_id s))
    /\ (apolloOpportunityStagesCache st = Some stages ->
        OpportunityStageMapping.mapDealStageToApollo w attioStage st = (st', Ok r) ->
        r = attioStage
        \/ (exists name, attioStage = JStr name /\ r = JStr (trim name))
        \/ exists s, In s stages /\ r = JStr (stage_id s)).
Proof.
  intros w st st' stages attioStage r. split; intros Hc H.
  - unfold StageMapping.mapStageToApollo in H.
    destruct (negb (truthy attioStage)).
    { apply ret_inv in H as [_ ->]. auto. }
    run_bind H sta mapped Hmapped. apply lift_ok_inv in Hmapped as [-> _].
    run_bind H stb via Hvia.
    assert (Hv : stb = st
                 /\ (via = None
                     \/ exists s, In s stages /\ via = Some (JStr (stage_id s)))).
    { destruct mapped as [name | | ].
      - destruct (negb (is_empty name)).
        + run_bind Hvia stc stageId Hfind.
          destruct (contact_find_truthy _ _ _ _ _ _ Hc Hfind) as [-> Hr].
          apply ret_inv in Hvia as [-> ->]. split; [reflexivity |].
          destruct Hr as [-> | (s & Hin & ->)]; [left; reflexivity |].
          destruct (truthy (JStr (stage_id s))); eauto.
        + apply ret_inv in Hvia as [-> ->]. auto.
      - unfold bind in Hvia.
        rewrite (contact_find_inherited_cached w st stages Hc) in Hvia.
        discriminate Hvia.
      - apply ret_inv in Hvia as [-> ->]. auto. }
    destruct Hv as [-> [-> | (s & Hin & ->)]].
    + run_bind H stc stageId Hfind.
      destruct (contact_find_truthy _ _ _ _ _ _ Hc Hfind) as [-> Hr].
      destruct Hr as [Hf | (s & Hin & ->)].
      * rewrite Hf in H.
        destruct (match attioStage with
                  | JStr s => looks_like_stage_id s
                  | _ => false
                  end);
          apply ret_inv in H as [_ ->]; auto.
      * destruct (truthy (JStr (stage_id s))).
        -- apply ret_inv in H as [_ ->]. eauto.
        -- destruct (match attioStage with
                     | JStr s => looks_like_stage_id s
                     | _ => false
                     end);
             apply ret_inv in H as [_ ->]; auto.
    + apply ret_inv in H as [_ ->]. eauto.
  - unfold OpportunityStageMapping.mapDealStageToApollo in H.
    destruct (negb (truthy attioStage)).
    { apply ret_inv in H as [_ ->]. auto. }
    run_bind H sta name Hname. apply lift_ok_inv in Hname as [-> Hs].
    assert (Hattio : attioStage = JStr name).
    { destruct attioStage; simpl in Hs; try discriminate Hs.
      inversion Hs. reflexivity. }
    destruct (looks_like_stage_id (trim name)).
    { apply ret_inv in H as [_ ->]. right. left. eauto. }
    assert (Hvia : forall key stx res,
               OpportunityStageMapping.viaTable w key st = (stx, Ok res) ->
               stx = st
               /\ (res = None
                   \/ exists s, In s stages /\ res = Some (JStr (stage_id s)))).
    { intros key stx res Hv. unfold OpportunityStageMapping.viaTable in Hv.
      destruct (table_get OpportunityStageMapping.OPPORTUNITY_STAGE_NAME_MAPPING key)
        as [mappedName | | ].
      - destruct (negb (is_empty mappedName)).
        + run_bind Hv stc stageId Hfind.
          destruct (opportunity_find_truthy _ _ _ _ _ _ Hc Hfind) as [-> Hr].
          apply ret_inv in Hv as [-> ->]. split; [reflexivity |].
          destruct Hr as [-> | (s & Hin & ->)]; [left; reflexivity |].
          destruct (truthy (JStr (stage_id s))); eauto.
        + apply ret_inv in Hv as [-> ->]. auto.
      - run_bind Hv stc stageId Hfind.
        unfold OpportunityStageMapping.findApolloOpportunityStageIdByName_inherited
          in Hfind.
        rewrite (bind_run _ _ _ _ _
                   (getApolloOpportunityStages_cached w st stages Hc)) in Hfind.
        destruct stages as [ | s0 l ]; [ | discriminate Hfind].
        apply ret_inv in Hfind as [-> ->].
        apply ret_inv in Hv as [-> ->]. auto.
      - apply ret_inv in Hv as [-> ->]. auto. }
    run_bind H stb direct Hdirect. destruct (Hvia _ _ _ Hdirect) as [-> Hd].
    destruct Hd as [-> | (s & Hin & ->)];
      [ | apply ret_inv in H as [_ ->]; eauto ].
    run_bind H stc byNormalized Hnormalized.
    assert (Hnorm : stc = st
                    /\ (byNormalized = None
                        \/ exists s, In s stages
                                     /\ byNormalized = Some (JStr (stage_id s)))).
    { destruct (OpportunityStageMapping.normalizeName (trim name)) as [n | ].
      - destruct (negb (is_empty n) && negb (String.eqb n (trim name))).
        + exact (Hvia _ _ _ Hnormalized).
        + apply ret_inv in Hnormalized as [-> ->]. auto.
      - apply ret_inv in Hnormalized as [-> ->]. auto. }
    destruct Hnorm as [-> [-> | (s & Hin & ->)]];
      [ | apply ret_inv in H as [_ ->]; eauto ].
    run_bind H std stageId Hfind.
    destruct (opportunity_find_truthy _ _ _ _ _ _ Hc Hfind) as [-> Hr].
    destruct Hr as [Hf | (s & Hin & ->)].
    + rewrite Hf in H. apply ret_inv in H as [_ ->]. right. left. eauto.
    + destruct (truthy (JStr (stage_id s)));
        apply ret_inv in H as [_ ->]; eauto.
Qed.

Lemma stage_mapping_answers_known_stage_or_input_witness :
  JStr (stage_id MoreExamples.wonStage) = JStr "closed won"
  \/ exists s, In s MoreExamples.pipeline
               /\ JStr (stage_id MoreExamples.wonStage) = JStr (stage_id s).
Proof.
  apply (proj1 (stage_mapping_answers_known_stage_or_input
                  MoreExamples.pipelineWorld MoreExamples.pipelineCached
                  MoreExamples.pipelineCached MoreExamples.pipeline
                  (JStr "closed won") (JStr (stage_id MoreExamples.wonStage))));
    reflexivity.
Defined.

(** ** The reverse mapping *)

Lemma contact_exact_lookup (stages : list Stage) (name : string) (s : Stage) :
  trim name <> "" ->
  find (fun x => Spec.ci_equalb (stage_name x) name) stages = Some s ->
  StageMapping.findInStages stages (StageMapping.normalizeName name)
  = StageMapping.ExactMatch (stage_id s).
Proof.
  intros Hne Hfind. unfold StageMapping.findInStages.
  rewrite (find_agree _ (fun x => Spec.ci_equalb (stage_name x) name)).
  - rewrite Hfind. reflexivity.
  - intros x. apply contact_exact_ci. exact Hne.
Qed.

Lemma is_stage_id_string (w : World) (s : string) :
  StageMappingToAttio.is_stage_id w (JStr s) = Ok (looks_like_stage_id s).
Proof.
  unfold StageMappingToAttio.is_stage_id, looks_like_stage_id.
  cbn [StageMappingToAttio.long rbind].
  destruct (20 <? String.length s)%nat; reflexivity.
Qed.

(** X7: round trip between the two directions of the contact-stage
    mapping, against a cached stage list.  For a stage whose identifier
    has the shape of an Apollo identifier, whose name is not blank and is
    not a member inherited by the mapping table, and which is the first
    stage of the list with its identifier and with its name:
    [mapStageToAttio] maps the identifier to the name and
    [mapStageToApollo] maps the name back to the identifier, neither
    making a call. *)
Theorem stage_id_name_round_trip :
  forall (w : World) (st : State) (stages : list Stage) (s : Stage),
    apolloStagesCache st = Some stages ->
    looks_like_stage_id (stage_id s) = true ->
    find (StageMapping.has_id (stage_id s)) stages = Some s ->
    trim (stage_name s) <> "" ->
    find (fun x => Spec.ci_equalb (stage_name x) (stage_name s)) stages = Some s ->
    table_get StageMapping.STAGE_NAME_MAPPING (stage_name s) = TUndefined ->
    table_get StageMapping.STAGE_NAME_MAPPING
      (match StageMapping.normalizeName (stage_name s) with
       | Some x => x
       | None => ""
       end) = TUndefined ->
    StageMappingToAttio.mapStageToAttio w (JStr (stage_id s)) st
    = (st, Ok (JStr (stage_name s)))
    /\ StageMapping.mapStageToApollo w (JStr (stage_name s)) st
       = (st, Ok (JStr (stage_id s))).
Proof.
  intros w st stages s Hc Hid Hfid Hne Hfname Ht1 Ht2.
  pose proof (looks_like_stage_id_not_empty _ Hid) as Hide.
  pose proof (trim_nonempty_input _ Hne) as Hnamee.
  split.
  - unfold StageMappingToAttio.mapStageToAttio.
    cbn [truthy]. rewrite Hide. cbn [negb].
    rewrite is_stage_id_string, Hid.
    cbv beta iota delta [bind lift ret].
    rewrite (getApolloStages_cached w st stages Hc).
    cbn [StageMappingToAttio.findById]. rewrite Hfid. reflexivity.
  - unfold StageMapping.mapStageToApollo.
    assert (Hn : StageMapping.normalizeStage (JStr (stage_name s))
                 = Ok (StageMapping.normalizeName (stage_name s))).
    { unfold StageMapping.normalizeStage. cbn [truthy]. rewrite Hnamee.
      reflexivity. }
    cbn [truthy]. rewrite Hnamee. cbn [negb].
    unfold StageMapping.mappedName. cbn [toString]. rewrite Ht1.
    cbn [table_truthy]. rewrite Hn. cbn [rbind]. rewrite Ht2.
    cbv beta iota delta [bind lift ret].
    rewrite (contact_find_cached w st stages _ Hc), Hn. cbn [rbind].
    rewrite (contact_exact_lookup stages _ s Hne Hfname).
    cbn [StageMapping.lookup_result truthy]. rewrite Hide. reflexivity.
Qed.

Lemma stage_id_name_round_trip_witness :
  StageMappingToAttio.mapStageToAttio MoreExamples.pipelineWorld
    (JStr (stage_id MoreExamples.lostStage)) MoreExamples.pipelineCached
  = (MoreExamples.pipelineCached, Ok (JStr "Closed Lost"))
  /\ StageMapping.mapStageToApollo MoreExamples.pipelineWorld
       (JStr "Closed Lost") MoreExamples.pipelineCached
     = (MoreExamples.pipelineCached, Ok (JStr (stage_id MoreExamples.lostStage))).
Proof.
  apply (stage_id_name_round_trip MoreExamples.pipelineWorld
           MoreExamples.pipelineCached MoreExamples.pipeline
           MoreExamples.lostStage);
    try reflexivity.
  vm_compute. discriminate.
Defined.

(** ** Lookups that only read *)

(** X8: [detectObjectType] never throws and never calls the target
    platform: it makes at most three reads of the source CRM, in the order
    person, company, deal, and a record that is answered as a person is
    reported as "people" after that single read, whatever the other two
    reads would answer. *)
Theorem detectObjectType_only_reads :
  forall (w : World) (recordId : string) (st : State),
    exists (st' : State) (r : option DetectObjectType.ObjectType)
           (evs : list Event),
      DetectObjectType.detectObjectType w recordId st = (st', Ok r)
      /\ trace st' = (trace st ++ evs)%list
      /\ List.length evs <= 3
      /\ forallb Effects.is_attio_read evs = true
      /\ (forall data : fields,
            getPerson w (trace st) recordId = Ok (Some data) ->
            r = Some DetectObjectType.People /\ evs = [EvGetPerson recordId])
      /\ (r = None ->
          evs = [EvGetPerson recordId; EvGetCompany recordId; EvGetDeal recordId]).
Proof.
  intros w recordId st.
  unfold DetectObjectType.detectObjectType, DetectObjectType.answered,
    try_catch, bind, call, ret.
  destruct (getPerson w (trace st) recordId) as [[dp | ] | ep] eqn:Hp;
    cbn [trace].
  1:{ do 3 eexists. split; [reflexivity |]. split; [reflexivity |].
      split; [simpl; lia |]. split; [reflexivity |].
      split; [intros; split; reflexivity | discriminate]. }
  all: destruct (getCompany w (trace st ++ [EvGetPerson recordId]) recordId)
         as [[dc | ] | ec] eqn:Hcm; cbn [trace].
  all: try (do 3 eexists; split; [reflexivity |];
            split; [rewrite <- app_assoc; reflexivity |];
            split; [simpl; lia |]; split; [reflexivity |];
            split; [intros; discriminate | discriminate]).
  all: destruct (getDeal w
                   ((trace st ++ [EvGetPerson recordId]) ++ [EvGetCompany recordId])
                   recordId) as [[dd | ] | ed] eqn:Hd; cbn [trace].
  all: do 3 eexists; split; [reflexivity |];
         split; [rewrite <- !app_assoc; reflexivity |];
         split; [simpl; lia |]; split; [reflexivity |];
         split; [intros; discriminate | ];
         first [discriminate | intros _; reflexivity].
Qed.

Lemma detectObjectType_only_reads_witness :
  exists (st' : State) (r : option DetectObjectType.ObjectType)
         (evs : list Event),
    DetectObjectType.detectObjectType MoreExamples.pipelineWorld "r1" initial
    = (st', Ok r)
    /\ r = Some DetectObjectType.People /\ evs = [EvGetPerson "r1"].
Proof.
  destruct (detectObjectType_only_reads MoreExamples.pipelineWorld "r1" initial)
    as (st' & r & evs & Hrun & _ & _ & _ & Hperson & _).
  exists st', r, evs. split; [exact Hrun |].
  apply (Hperson Examples.ada). reflexivity.
Defined.

(** X9: [getApolloContactId] only reads.  On a record without an email
    address it throws after the read of the source record, before any
    call to the target platform; when it returns, it has made that read
    and one search by the email of the record, and it answers the
    identifier of the first contact the search answered, or [null]. *)
Theorem getApolloContactId_reads_first_contact :
  forall (w : World) (recordId : string) (st : State) (data : fields),
    getPerson w (trace st) recordId = Ok (Some data) ->
    (Spec.NoEmail (Spec.values_of data) ->
     exists st' : State,
       GetApolloContactId.getApolloContactId w recordId st
       = (st', Throw (Error ("No email address found for record " ++ recordId
                               ++ ". Email is required to find Apollo contact.")))
       /\ Spec.added st st' = [EvGetPerson recordId])
    /\ (forall (st' : State) (r : value),
          GetApolloContactId.getApolloContactId w recordId st = (st', Ok r) ->
          exists contacts : list ApolloContact,
            searchApolloContacts w (trace st ++ [EvGetPerson recordId])%list
              (SyncToApollo.searchParams
                 (SyncToApollo.extractEmail (Spec.values_of data)))
            = Ok contacts
            /\ r = GetApolloContactId.first_id contacts
            /\ Spec.added st st'
               = [ EvGetPerson recordId;
                   EvSearchContacts
                     (SyncToApollo.searchParams
                        (SyncToApollo.extractEmail (Spec.values_of data))) ]).
Proof.
  intros w recordId st data Hget. split.
  - intros Hno. unfold GetApolloContactId.getApolloContactId, bind, call.
    rewrite Hget. fold (Spec.values_of data).
    rewrite (no_email_falsy _ Hno). cbn [negb].
    eexists. split; [reflexivity |].
    unfold Spec.added. cbn [trace]. apply skipn_all_app.
  - intros st' r H.
    unfold GetApolloContactId.getApolloContactId, bind, call in H.
    rewrite Hget in H. fold (Spec.values_of data) in H.
    destruct (negb (truthy (SyncToApollo.extractEmail (Spec.values_of data))));
      [discriminate H |].
    cbn [trace] in H.
    destruct (searchApolloContacts w (trace st ++ [EvGetPerson recordId])
                (SyncToApollo.searchParams
                   (SyncToApollo.extractEmail (Spec.values_of data))))
      as [contacts | e]; [ | discriminate H].
    unfold ret in H. inversion H; subst.
    exists contacts. split; [reflexivity |]. split; [reflexivity |].
    unfold Spec.added. cbn [trace]. rewrite <- app_assoc.
    apply skipn_all_app.
Qed.

Lemma getApolloContactId_reads_first_contact_witness :
  GetApolloContactId.getApolloContactId Examples.adaWorld "r1" initial
  = (fst (GetApolloContactId.getApolloContactId Examples.adaWorld "r1" initial),
     Ok (JStr "c1"))
  /\ exists contacts : list ApolloContact,
       JStr "c1" = GetApolloContactId.first_id contacts.
Proof.
  split; [reflexivity |].
  destruct (proj2 (getApolloContactId_reads_first_contact Examples.adaWorld "r1"
                     initial Examples.ada eq_refl)
              (fst (GetApolloContactId.getApolloContactId Examples.adaWorld
                      "r1" initial))
              (JStr "c1") eq_refl)
    as (contacts & _ & Hr & _).
  exists contacts. exact Hr.
Defined.

Lemma findByName_none (dealName : value) (opps : list ApolloOpportunity) :
  (forall o, In o opps -> Spec.deal_name_matches dealName o = false) ->
  forall matched,
    GetApolloOpportunityId.findByName dealName opps = Ok matched ->
    matched = None.
Proof.
  intros Hno matched. unfold GetApolloOpportunityId.findByName.
  destruct dealName;
    try (destruct (existsb SyncDealToApollo.has_name opps);
         [discriminate | intros H; inversion H; reflexivity]).
  intros H. inversion H as [Hf].
  destruct (find (SyncDealToApollo.name_match s) opps) as [o | ] eqn:Hfind;
    [ | reflexivity ].
  apply find_some in Hfind as [Hin Hm].
  specialize (Hno o Hin). simpl in Hno. congruence.
Qed.

Lemma chooseId_known (matched : option ApolloOpportunity)
    (opps : list ApolloOpportunity) :
  (forall o, matched = Some o -> In o opps) ->
  GetApolloOpportunityId.chooseId matched opps = JNull
  \/ exists o id, In o opps /\ opp_id o = Some id
                  /\ GetApolloOpportunityId.chooseId matched opps = JStr id.
Proof.
  intros Hin. unfold GetApolloOpportunityId.chooseId.
  assert (Hid : forall o id, GetApolloOpportunityId.id_of o = Some id ->
                             opp_id o = Some id).
  { intros o id. unfold GetApolloOpportunityId.id_of.
    destruct (opp_id o) as [ [ | c s ] | ]; intros H; inversion H; reflexivity. }
  destruct matched as [m | ].
  - destruct (GetApolloOpportunityId.id_of m) as [id | ] eqn:Hm.
    + right. exists m, id. auto.
    + destruct opps as [ | f rest ]; [left; reflexivity |].
      destruct (GetApolloOpportunityId.id_of f) as [id | ] eqn:Hf.
      * right. exists f, id. split; [left; reflexivity | auto].
      * left. reflexivity.
  - destruct opps as [ | f rest ]; [left; reflexivity |].
    destruct (GetApolloOpportunityId.id_of f) as [id | ] eqn:Hf.
    + right. exists f, id. split; [left; reflexivity | auto].
    + left. reflexivity.
Qed.

Lemma findByName_some (dealName : value) (opps : list ApolloOpportunity)
    (matched : option ApolloOpportunity) :
  GetApolloOpportunityId.findByName dealName opps = Ok matched ->
  forall o, matched = Some o -> In o opps.
Proof.
  unfold GetApolloOpportunityId.findByName. intros H o ->.
  destruct dealName;
    try (destruct (existsb SyncDealToApollo.has_name opps); discriminate H).
  inversion H as [Hf]. apply find_some in Hf as [Hin _]. exact Hin.
Qed.

(** X10: when [getApolloOpportunityId] returns, its answer is [null] or
    the identifier of an opportunity that the search answered; and when no
    search result has the name of the deal, it answers the identifier of
    the first result. *)
Theorem getApolloOpportunityId_answers_search_result :
  forall (w : World) (recordId : string) (st st' : State) (r : value),
    GetApolloOpportunityId.getApolloOpportunityId w recordId st = (st', Ok r) ->
    exists (data : fields) (tr : list Event) (params : fields)
           (opps : list ApolloOpportunity),
      getDeal w (trace st) recordId = Ok (Some data)
      /\ searchApolloOpportunities w tr params = Ok opps
      /\ (r = JNull
          \/ exists o id, In o opps /\ opp_id o = Some id /\ r = JStr id)
      /\ ((forall o, In o opps ->
             Spec.deal_name_matches
               (SyncDealToApollo.extractDealName (Spec.values_of data)) o = false) ->
          r = GetApolloOpportunityId.chooseId None opps).
Proof.
  intros w recordId st st' r H.
  unfold GetApolloOpportunityId.getApolloOpportunityId in H.
  run_bind H sta attioRecord Hget. apply call_ok_inv in Hget as (Hget & _).
  destruct attioRecord as [data | ]; [ | discriminate H].
  fold (Spec.values_of data) in H.
  destruct (negb (truthy (SyncDealToApollo.extractDealName (Spec.values_of data))));
    [discriminate H |].
  run_bind H stb found Hfirst.
  run_bind H stc opps Hsecond.
  assert (Hsearch : exists tr params,
             searchApolloOpportunities w tr params = Ok opps).
  { destruct found as [ | o0 l0 ].
    - apply call_ok_inv in Hsecond as (Hs & _). eauto.
    - apply ret_inv in Hsecond as [_ ->].
      apply call_ok_inv in Hfirst as (Hs & _). eauto. }
  destruct Hsearch as (tr & params & Hsearch).
  run_bind H std matched Hmatch. apply lift_ok_inv in Hmatch as [_ Hmatch].
  apply ret_inv in H as [_ ->].
  exists data, tr, params, opps.
  split; [exact Hget |]. split; [exact Hsearch |]. split.
  - apply chooseId_known. exact (findByName_some _ _ _ Hmatch).
  - intros Hno. rewrite (findByName_none _ _ Hno _ Hmatch). reflexivity.
Qed.

Lemma getApolloOpportunityId_answers_search_result_witness :
  exists (data : fields) (tr : list Event) (params : fields)
         (opps : list ApolloOpportunity),
    getDeal (Examples.dealWorld "hello" [MoreExamples.otherOpp]) (trace initial) "r1"
    = Ok (Some data)
    /\ searchApolloOpportunities
         (Examples.dealWorld "hello" [MoreExamples.otherOpp]) tr params = Ok opps
    /\ (JStr "o9" = JNull
        \/ exists o id, In o opps /\ opp_id o = Some id /\ JStr "o9" = JStr id)
    /\ ((forall o, In o opps ->
           Spec.deal_name_matches
             (SyncDealToApollo.extractDealName (Spec.values_of data)) o = false) ->
        JStr "o9" = GetApolloOpportunityId.chooseId None opps).
Proof.
  exact (getApolloOpportunityId_answers_search_result
           (Examples.dealWorld "hello" [MoreExamples.otherOpp]) "r1" initial
           (fst (GetApolloOpportunityId.getApolloOpportunityId
                   (Examples.dealWorld "hello" [MoreExamples.otherOpp]) "r1" initial))
           (JStr "o9") eq_refl).
Defined.

(** ** What a run writes *)

Lemma runs_weaken {A : Type} (m : M A) (Q Q' : Result A -> list Event -> Prop) :
  Effects.Runs m Q -> (forall r evs, Q r evs -> Q' r evs) -> Effects.Runs m Q'.
Proof.
  intros Hm Himp st st' r Hrun.
  destruct (Hm st st' r Hrun) as (evs & Htr & HQ). exists evs. auto.
Qed.

Lemma runs_ret {A : Type} (a : A) (Q : Result A -> list Event -> Prop) :
  Q (Ok a) [] -> Effects.Runs (ret a) Q.
Proof.
  intros HQ st st' r H. unfold ret in H. inversion H; subst.
  exists []. rewrite app_nil_r. auto.
Qed.

Lemma runs_lift {A : Type} (x : Result A) (Q : Result A -> list Event -> Prop) :
  Q x [] -> Effects.Runs (lift x) Q.
Proof.
  intros HQ st st' r H. unfold lift in H. inversion H; subst.
  exists []. rewrite app_nil_r. auto.
Qed.

Lemma runs_throw {A : Type} (e : exn) (Q : Result A -> list Event -> Prop) :
  Q (Throw e) [] -> Effects.Runs (throw e) Q.
Proof.
  intros HQ st st' r H. unfold throw in H. inversion H; subst.
  exists []. rewrite app_nil_r. auto.
Qed.

Lemma runs_call {A : Type} (ev : Event) (answer : list Event -> Result A)
    (Q : Result A -> list Event -> Prop) :
  (forall r, Q r [ev]) -> Effects.Runs (call ev answer) Q.
Proof.
  intros HQ st st' r H. unfold call in H. inversion H; subst.
  exists [ev]. split; [reflexivity | apply HQ].
Qed.

Lemma runs_bind {A B : Type} (m : M A) (k : A -> M B)
    (Q1 : Result A -> list Event -> Prop)
    (Q2 Q : Result B -> list Event -> Prop) :
  Effects.Runs m Q1 ->
  (forall a, Effects.Runs (k a) Q2) ->
  (forall e evs, Q1 (Throw e) evs -> Q (Throw e) evs) ->
  (forall a evs1 r evs2, Q1 (Ok a) evs1 -> Q2 r evs2 -> Q r (evs1 ++ evs2)%list) ->
  Effects.Runs (bind m k) Q.
Proof.
  intros Hm Hk Hthrow Hseq st st' r H. unfold bind in H.
  destruct (m st) as [st1 [a | e]] eqn:Hrun.
  - destruct (Hm _ _ _ Hrun) as (evs1 & Htr1 & HQ1).
    destruct (Hk a _ _ _ H) as (evs2 & Htr2 & HQ2).
    exists (evs1 ++ evs2)%list. split.
    + rewrite Htr2, Htr1, app_assoc. reflexivity.
    + eapply Hseq; eassumption.
  - inversion H; subst.
    destruct (Hm _ _ _ Hrun) as (evs1 & Htr1 & HQ1).
    exists evs1. auto.
Qed.

Lemma runs_try_catch {A : Type} (m : M A) (handler : exn -> M A)
    (Q1 Q2 Q : Result A -> list Event -> Prop) :
  Effects.Runs m Q1 ->
  (forall e, Effects.Runs (handler e) Q2) ->
  (forall a evs, Q1 (Ok a) evs -> Q (Ok a) evs) ->
  (forall e evs1 r evs2, Q1 (Throw e) evs1 -> Q2 r evs2 -> Q r (evs1 ++ evs2)%list) ->
  Effects.Runs (try_catch m handler) Q.
Proof.
  intros Hm Hh Hok Hseq st st' r H. unfold try_catch in H.
  destruct (m st) as [st1 [a | e]] eqn:Hrun.
  - inversion H; subst.
    destruct (Hm _ _ _ Hrun) as (evs1 & Htr1 & HQ1). exists evs1. auto.
  - destruct (Hm _ _ _ Hrun) as (evs1 & Htr1 & HQ1).
    destruct (Hh e _ _ _ H) as (evs2 & Htr2 & HQ2).
    exists (evs1 ++ evs2)%list. split.
    + rewrite Htr2, Htr1, app_assoc. reflexivity.
    + eapply Hseq; eassumption.
Qed.

Lemma create_calls_app (a b : list Event) :
  Effects.create_calls (a ++ b) = Effects.create_calls a + Effects.create_calls b.
Proof. unfold Effects.create_calls. rewrite filter_app, length_app. reflexivity. Qed.

Lemma update_calls_app (a b : list Event) :
  Effects.update_calls (a ++ b) = Effects.update_calls a + Effects.update_calls b.
Proof. unfold Effects.update_calls. rewrite filter_app, length_app. reflexivity. Qed.

Lemma quiet_ret {A : Type} (a : A) : Effects.Runs (ret a) Effects.quiet.
Proof. apply runs_ret. split; reflexivity. Qed.

Lemma quiet_lift {A : Type} (x : Result A) : Effects.Runs (lift x) Effects.quiet.
Proof. apply runs_lift. split; reflexivity. Qed.

Lemma quiet_throw {A : Type} (e : exn) :
  Effects.Runs (@throw A e) Effects.quiet.
Proof. apply runs_throw. split; reflexivity. Qed.

Lemma quiet_call {A : Type} (ev : Event) (answer : list Event -> Result A) :
  Effects.is_create_call ev = false -> Effects.is_update_call ev = false ->
  Effects.Runs (call ev answer) Effects.quiet.
Proof.
  intros Hc Hu. apply runs_call. intros r.
  unfold Effects.quiet, Effects.create_calls, Effects.update_calls. simpl.
  rewrite Hc, Hu. split; reflexivity.
Qed.

Lemma quiet_app {A B : Type} (r1 : Result A) (r2 : Result B)
    (evs1 evs2 : list Event) :
  Effects.quiet r1 evs1 -> Effects.quiet r2 evs2 ->
  Effects.quiet r2 (evs1 ++ evs2)%list.
Proof.
  unfold Effects.quiet. intros [Hc1 Hu1] [Hc2 Hu2].
  rewrite create_calls_app, update_calls_app. lia.
Qed.

Lemma quiet_bind {A B : Type} (m : M A) (k : A -> M B) :
  Effects.Runs m Effects.quiet ->
  (forall a, Effects.Runs (k a) Effects.quiet) ->
  Effects.Runs (bind m k) Effects.quiet.
Proof.
  intros Hm Hk.
  apply (runs_bind m k Effects.quiet Effects.quiet Effects.quiet Hm Hk).
  - intros e evs H. exact H.
  - intros a evs1 r evs2 H1 H2. exact (quiet_app _ _ _ _ H1 H2).
Qed.

Lemma quiet_try_catch {A : Type} (m : M A) (handler : exn -> M A) :
  Effects.Runs m Effects.quiet ->
  (forall e, Effects.Runs (handler e) Effects.quiet) ->
  Effects.Runs (try_catch m handler) Effects.quiet.
Proof.
  intros Hm Hh.
  apply (runs_try_catch m handler Effects.quiet Effects.quiet Effects.quiet Hm Hh).
  - intros a evs H. exact H.
  - intros e evs1 r evs2 H1 H2. exact (quiet_app _ _ _ _ H1 H2).
Qed.

Ltac quiet_step :=
  lazymatch goal with
  | |- Effects.Runs (ret _) _ => apply quiet_ret
  | |- Effects.Runs (lift _) _ => apply quiet_lift
  | |- Effects.Runs (throw _) _ => apply quiet_throw
  | |- Effects.Runs (call _ _) _ => apply quiet_call; reflexivity
  | |- Effects.Runs (bind _ _) _ => apply quiet_bind; [ | intros ? ]
  | |- Effects.Runs (try_catch _ _) _ => apply quiet_try_catch; [ | intros ? ]
  | |- Effects.Runs (match ?x with _ => _ end) _ => destruct x
  | |- Effects.Runs (if ?c then _ else _) _ => destruct c
  end.

Lemma getApolloStages_quiet (w : World) :
  Effects.Runs (StageMapping.getApolloStages w) Effects.quiet.
Proof.
  intros st st' r H. unfold StageMapping.getApolloStages in H.
  destruct (apolloStagesCache st) as [cached | ].
  - inversion H; subst. exists []. rewrite app_nil_r.
    split; [reflexivity | split; reflexivity].
  - unfold try_catch, bind, call, ret in H.
    destruct (listApolloContactStages w (trace st)) as [stages | e];
      inversion H; subst; cbn [trace];
      exists [EvListContactStages]; (split; [reflexivity | split; reflexivity]).
Qed.

Lemma getApolloOpportunityStages_quiet (w : World) :
  Effects.Runs (OpportunityStageMapping.getApolloOpportunityStages w) Effects.quiet.
Proof.
  intros st st' r H.
  unfold OpportunityStageMapping.getApolloOpportunityStages in H.
  destruct (apolloOpportunityStagesCache st) as [cached | ].
  - inversion H; subst. exists []. rewrite app_nil_r.
    split; [reflexivity | split; reflexivity].
  - unfold try_catch, bind, call, ret in H.
    destruct (listApolloOpportunityStages w (trace st)) as [stages | e];
      inversion H; subst; cbn [trace];
      exists [EvListOpportunityStages]; (split; [reflexivity | split; reflexivity]).
Qed.

Ltac quiet_tac :=
  repeat (cbv zeta;
          first [ apply getApolloStages_quiet
                | apply getApolloOpportunityStages_quiet
                | quiet_step ]).

Lemma mapStageToApollo_quiet (w : World) (attioStage : value) :
  Effects.Runs (StageMapping.mapStageToApollo w attioStage) Effects.quiet.
Proof.
  unfold StageMapping.mapStageToApollo, StageMapping.findApolloStageIdByName,
    StageMapping.findApolloStageIdByName_lookup,
    StageMapping.findApolloStageIdByName_inherited.
  quiet_tac.
Qed.

Lemma validateStageMapping_quiet (w : World) (attioStage apolloStage : value) :
  Effects.Runs (StageMapping.validateStageMapping w attioStage apolloStage)
    Effects.quiet.
Proof.
  unfold StageMapping.validateStageMapping.
  apply quiet_bind.
  - destruct (truthy attioStage); [ | apply quiet_ret ].
    apply quiet_bind; [apply mapStageToApollo_quiet | intros mapped; quiet_tac].
  - intros warnings. quiet_tac.
Qed.

Lemma mapStageToAttio_quiet (w : World) (apolloStage : value) :
  Effects.Runs (StageMappingToAttio.mapStageToAttio w apolloStage) Effects.quiet.
Proof. unfold StageMappingToAttio.mapStageToAttio. quiet_tac. Qed.

Lemma viaTable_quiet (w : World) (key : string) :
  Effects.Runs (OpportunityStageMapping.viaTable w key) Effects.quiet.
Proof.
  unfold OpportunityStageMapping.viaTable,
    OpportunityStageMapping.findApolloOpportunityStageIdByName,
    OpportunityStageMapping.findApolloOpportunityStageIdByName_lookup,
    OpportunityStageMapping.findApolloOpportunityStageIdByName_inherited.
  quiet_tac.
Qed.

Lemma mapDealStageToApollo_quiet (w : World) (attioStage : value) :
  Effects.Runs (OpportunityStageMapping.mapDealStageToApollo w attioStage)
    Effects.quiet.
Proof.
  unfold OpportunityStageMapping.mapDealStageToApollo,
    OpportunityStageMapping.findApolloOpportunityStageIdByName,
    OpportunityStageMapping.findApolloOpportunityStageIdByName_lookup.
  repeat (cbv zeta;
          first [ apply viaTable_quiet
                | apply getApolloOpportunityStages_quiet
                | quiet_step ]).
Qed.

Lemma stageFields_quiet (w : World) (attioStage : option string) :
  Effects.Runs (SyncDealToApollo.stageFields w attioStage) Effects.quiet.
Proof.
  unfold SyncDealToApollo.stageFields.
  repeat (cbv zeta; first [ apply mapDealStageToApollo_quiet | quiet_step ]).
Qed.

Lemma getApolloContactId_quiet (w : World) (recordId : string) :
  Effects.Runs (GetApolloContactId.getApolloContactId w recordId) Effects.quiet.
Proof. unfold GetApolloContactId.getApolloContactId. quiet_tac. Qed.

Lemma getApolloOpportunityId_quiet (w : World) (recordId : string) :
  Effects.Runs (GetApolloOpportunityId.getApolloOpportunityId w recordId)
    Effects.quiet.
Proof. unfold GetApolloOpportunityId.getApolloOpportunityId. quiet_tac. Qed.

Lemma detectObjectType_quiet (w : World) (recordId : string) :
  Effects.Runs (DetectObjectType.detectObjectType w recordId) Effects.quiet.
Proof.
  unfold DetectObjectType.detectObjectType, DetectObjectType.answered.
  quiet_tac.
Qed.

(** X11: the stage lookups and the identifier lookups never write to the
    target platform: whatever the two platforms answer, and whether the
    lookup returns or throws, the calls it adds to the log hold no
    creation and no update of a contact, an opportunity or an account. *)
Theorem lookups_never_write :
  forall (w : World) (recordId : string) (stage other : value),
    Effects.Runs (StageMapping.mapStageToApollo w stage) Effects.quiet
    /\ Effects.Runs (StageMappingToAttio.mapStageToAttio w stage) Effects.quiet
    /\ Effects.Runs (StageMapping.validateStageMapping w stage other) Effects.quiet
    /\ Effects.Runs (OpportunityStageMapping.mapDealStageToApollo w stage)
         Effects.quiet
    /\ Effects.Runs (GetApolloContactId.getApolloContactId w recordId) Effects.quiet
    /\ Effects.Runs (GetApolloOpportunityId.getApolloOpportunityId w recordId)
         Effects.quiet
    /\ Effects.Runs (DetectObjectType.detectObjectType w recordId) Effects.quiet.
Proof.
  intros w recordId stage other.
  repeat split;
    auto using mapStageToApollo_quiet, mapStageToAttio_quiet,
      validateStageMapping_quiet, mapDealStageToApollo_quiet,
      getApolloContactId_quiet, getApolloOpportunityId_quiet,
      detectObjectType_quiet.
Qed.

Lemma lookups_never_write_witness :
  exists evs : list Event,
    trace (fst (StageMapping.mapStageToApollo MoreExamples.pipelineWorld
                  (JStr "closed won") initial))
    = (trace initial ++ evs)%list
    /\ Effects.quiet
         (snd (StageMapping.mapStageToApollo MoreExamples.pipelineWorld
                 (JStr "closed won") initial))
         evs.
Proof.
  apply (proj1 (lookups_never_write MoreExamples.pipelineWorld "r1"
                  (JStr "closed won") JNull) initial).
  reflexivity.
Defined.

Lemma counted_throw (e : exn) : Effects.Runs (throw e) Effects.counted.
Proof.
  apply runs_throw. split; [cbv; lia | intros res H; discriminate H].
Qed.

Lemma counted_bind {A : Type} (m : M A) (k : A -> M SyncResult) :
  Effects.Runs m Effects.quiet ->
  (forall a, Effects.Runs (k a) Effects.counted) ->
  Effects.Runs (bind m k) Effects.counted.
Proof.
  intros Hm Hk.
  apply (runs_bind m k Effects.quiet Effects.counted Effects.counted Hm Hk).
  - intros e evs [Hc Hu]. split; [lia | intros res H; discriminate H].
  - intros a evs1 r evs2 [Hc Hu] [Hle Hres]. unfold Effects.counted.
    rewrite create_calls_app, update_calls_app, Hc, Hu. simpl. split; [exact Hle |].
    exact Hres.
Qed.

Lemma returned_ret (res : SyncResult) :
  Effects.Runs (ret res) (Effects.returned res).
Proof.
  apply runs_ret. split; [reflexivity |]. split; [reflexivity |].
  intros res' H. inversion H. reflexivity.
Qed.

Lemma returned_bind {A : Type} (m : M A) (k : A -> M SyncResult)
    (res : SyncResult) :
  Effects.Runs m Effects.quiet ->
  (forall a, Effects.Runs (k a) (Effects.returned res)) ->
  Effects.Runs (bind m k) (Effects.returned res).
Proof.
  intros Hm Hk.
  apply (runs_bind m k Effects.quiet (Effects.returned res)
           (Effects.returned res) Hm Hk).
  - intros e evs [Hc Hu]. split; [exact Hc |]. split; [exact Hu |].
    intros res' H; discriminate H.
  - intros a evs1 r evs2 [Hc Hu] (Hc2 & Hu2 & Hres). unfold Effects.returned.
    rewrite create_calls_app, update_calls_app, Hc, Hu, Hc2, Hu2.
    split; [reflexivity |]. split; [reflexivity | exact Hres].
Qed.

Lemma counted_create {A : Type} (ev : Event) (answer : list Event -> Result A)
    (k : A -> M SyncResult) :
  Effects.is_create_call ev = true -> Effects.is_update_call ev = false ->
  (forall a, Effects.Runs (k a)
               (Effects.returned {| created := 1; updated := 0 |})) ->
  Effects.Runs (bind (call ev answer) k) Effects.counted.
Proof.
  intros Hc Hu Hk.
  apply (runs_bind (call ev answer) k (fun _ evs => evs = [ev])
           (Effects.returned {| created := 1; updated := 0 |}) Effects.counted).
  - apply runs_call. reflexivity.
  - exact Hk.
  - intros e evs ->. unfold Effects.counted, Effects.create_calls, Effects.update_calls.
    simpl. rewrite Hc, Hu. simpl. split; [lia | intros res H; discriminate H].
  - intros a evs1 r evs2 -> (Hc2 & Hu2 & Hres).
    unfold Effects.counted. rewrite create_calls_app, update_calls_app, Hc2, Hu2.
    unfold Effects.create_calls, Effects.update_calls. simpl. rewrite Hc, Hu. simpl.
    split; [lia |]. intros res Hr. rewrite (Hres res Hr). split; reflexivity.
Qed.

Lemma counted_update {A : Type} (ev : Event) (answer : list Event -> Result A)
    (k : A -> M SyncResult) :
  Effects.is_create_call ev = false -> Effects.is_update_call ev = true ->
  (forall a, Effects.Runs (k a)
               (Effects.returned {| created := 0; updated := 1 |})) ->
  Effects.Runs (bind (call ev answer) k) Effects.counted.
Proof.
  intros Hc Hu Hk.
  apply (runs_bind (call ev answer) k (fun _ evs => evs = [ev])
           (Effects.returned {| created := 0; updated := 1 |}) Effects.counted).
  - apply runs_call. reflexivity.
  - exact Hk.
  - intros e evs ->. unfold Effects.counted, Effects.create_calls, Effects.update_calls.
    simpl. rewrite Hc, Hu. simpl. split; [lia | intros res H; discriminate H].
  - intros a evs1 r evs2 -> (Hc2 & Hu2 & Hres).
    unfold Effects.counted. rewrite create_calls_app, update_calls_app, Hc2, Hu2.
    unfold Effects.create_calls, Effects.update_calls. simpl. rewrite Hc, Hu. simpl.
    split; [lia |]. intros res Hr. rewrite (Hres res Hr). split; reflexivity.
Qed.

Ltac returned_tac :=
  repeat first [ apply returned_ret
               | apply returned_bind; [ quiet_tac | intros ? ] ].

Ltac counted_step :=
  cbv zeta;
  first [ apply counted_throw
        | apply counted_create; [ reflexivity | reflexivity | intros ?; returned_tac ]
        | apply counted_update; [ reflexivity | reflexivity | intros ?; returned_tac ]
        | apply counted_bind; [ | intros ? ]
        | lazymatch goal with
          | |- Effects.Runs (match ?x with _ => _ end) Effects.counted => destruct x
          | |- Effects.Runs (if ?c then _ else _) Effects.counted => destruct c
          end ].

Lemma syncToApollo_counted (w : World) (recordId : string) :
  Effects.Runs (SyncToApollo.syncToApollo w recordId) Effects.counted.
Proof.
  unfold SyncToApollo.syncToApollo.
  repeat first
    [ apply mapStageToApollo_quiet
    | apply validateStageMapping_quiet
    | progress quiet_tac
    | counted_step ].
Qed.

Lemma syncDealToApollo_counted (w : World) (recordId : string) :
  Effects.Runs (SyncDealToApollo.syncDealToApollo w recordId) Effects.counted.
Proof.
  unfold SyncDealToApollo.syncDealToApollo.
  repeat first
    [ apply stageFields_quiet
    | progress quiet_tac
    | counted_step ].
Qed.

Lemma syncCompanyToApollo_counted (w : World) (recordId : string) :
  Effects.Runs (SyncCompanyToApollo.syncCompanyToApollo w recordId)
    Effects.counted.
Proof.
  unfold SyncCompanyToApollo.syncCompanyToApollo.
  repeat first [ progress quiet_tac | counted_step ].
Qed.

(** X12: each of the three syncs calls a wrapper that writes to the
    target platform (one of the three create wrappers and the three
    update wrappers) at most once per run, also when it throws, and when
    it returns [{created, updated}], these two counters are the number of
    its calls of a create wrapper and the number of its calls of an
    update wrapper.  The counters report the wrapper called, not what the
    wrapper did: [updateApolloAccount] creates the account when its
    preliminary read fails, and the company sync still answers
    [updated: 1]. *)
Theorem sync_calls_one_writer_and_counts_it :
  forall (w : World) (recordId : string),
    Effects.Runs (SyncToApollo.syncToApollo w recordId) Effects.counted
    /\ Effects.Runs (SyncDealToApollo.syncDealToApollo w recordId) Effects.counted
    /\ Effects.Runs (SyncCompanyToApollo.syncCompanyToApollo w recordId)
         Effects.counted.
Proof.
  intros w recordId.
  split; [apply syncToApollo_counted |].
  split; [apply syncDealToApollo_counted | apply syncCompanyToApollo_counted].
Qed.

Lemma sync_calls_one_writer_and_counts_it_witness :
  exists evs : list Event,
    trace (fst (SyncToApollo.syncToApollo Examples.adaWorld "r1" initial))
    = (trace initial ++ evs)%list
    /\ Effects.counted
         (snd (SyncToApollo.syncToApollo Examples.adaWorld "r1" initial)) evs.
Proof.
  apply (proj1 (sync_calls_one_writer_and_counts_it Examples.adaWorld "r1") initial).
  reflexivity.
Defined.

(** ** The company sync *)

Lemma findExactNameMatch_some (companyName : value)
    (accounts : list ApolloAccount) (account : ApolloAccount) :
  SyncCompanyToApollo.findExactNameMatch companyName accounts = Ok (Some account) ->
  In account accounts
  /\ exists name : string,
       companyName = JStr name
       /\ SyncCompanyToApollo.name_match name account = true.
Proof.
  unfold SyncCompanyToApollo.findExactNameMatch. intros H.
  destruct companyName;
    try (destruct (existsb SyncCompanyToApollo.has_name accounts); discriminate H).
  inversion H as [Hf]. apply find_some in Hf as [Hin Hm].
  split; [exact Hin |]. eauto.
Qed.

(** X13: a company sync that returns has either updated an account that a
    search by the company name answered, and whose name equals the company
    name (or, failing that, whose domain equals the domain of the record),
    each up to case and surrounding blanks, or it has created an account;
    the write is the last call of the run. *)
Theorem company_sync_updates_only_a_match :
  forall (w : World) (recordId : string) (st st' : State) (r : SyncResult),
    SyncCompanyToApollo.syncCompanyToApollo w recordId st = (st', Ok r) ->
    Effects.company_outcome w recordId st st' r.
Proof.
  intros w recordId st st' r H.
  unfold SyncCompanyToApollo.syncCompanyToApollo in H.
  run_bind H sta attioRecord Hget. apply call_ok_inv in Hget as (Hget & _).
  destruct attioRecord as [data | ]; [ | discriminate H].
  exists data. split; [exact Hget |].
  fold (Spec.values_of data) in H. cbv zeta in H.
  destruct (negb (truthy (SyncCompanyToApollo.extractCompanyName
                            (Spec.values_of data)))); [discriminate H |].
  run_bind H stb domain0 Hd0. apply lift_ok_inv in Hd0 as [_ Hd0].
  run_bind H stc domain Hd1. apply lift_ok_inv in Hd1 as [_ Hd1].
  run_bind H std found Hfound. apply call_ok_inv in Hfound as (Hfound & _).
  run_bind H ste exactNameMatch Hname. apply lift_ok_inv in Hname as [_ Hname].
  run_bind H stf apolloAccounts Hacc.
  assert (Hmatch :
            forall account rest, apolloAccounts = account :: rest ->
              exists (tr : list Event) (accounts : list ApolloAccount),
                searchApolloAccounts w tr
                  [ ("name", SyncCompanyToApollo.extractCompanyName
                               (Spec.values_of data));
                    ("per_page", JNum "50") ]
                = Ok accounts
                /\ In account accounts
                /\ ((exists name : string,
                        SyncCompanyToApollo.extractCompanyName (Spec.values_of data)
                        = JStr name
                        /\ SyncCompanyToApollo.name_match name account = true)
                    \/ (exists (fromDomains : value) (d : string),
                           SyncCompanyToApollo.domainFromDomains
                             (Spec.values_of data) = Ok fromDomains
                           /\ SyncCompanyToApollo.domainFromWebsite w
                                (Spec.values_of data) fromDomains = Ok (JStr d)
                           /\ SyncCompanyToApollo.domain_match w
                                (trim (toLowerCase d)) account = true))).
  { intros account rest Heq.
    destruct exactNameMatch as [m | ].
    - apply ret_inv in Hacc as [_ Hacc]. subst apolloAccounts.
      inversion Heq; subst.
      destruct (findExactNameMatch_some _ _ _ Hname) as (Hin & name & Hn & Hm).
      do 2 eexists. split; [exact Hfound |]. split; [exact Hin |].
      left. eauto.
    - destruct domain as [ | | | | d | | ];
        try (apply ret_inv in Hacc as [_ Hacc]; subst apolloAccounts;
             discriminate Heq).
      destruct d as [ | c d ];
        [apply ret_inv in Hacc as [_ Hacc]; subst apolloAccounts;
         discriminate Heq |].
      run_bind Hacc stg domainResults Hdom.
      apply call_ok_inv in Hdom as (Hdom & _).
      destruct (find (SyncCompanyToApollo.domain_match w
                        (trim (toLowerCase (String c d)))) domainResults)
        as [m | ] eqn:Hfind.
      + apply ret_inv in Hacc as [_ Hacc]. subst apolloAccounts.
        inversion Heq; subst.
        apply find_some in Hfind as [Hin Hm].
        do 2 eexists. split; [exact Hdom |]. split; [exact Hin |].
        right. exists domain0, (String c d). auto.
      + apply ret_inv in Hacc as [_ Hacc]. subst apolloAccounts.
        discriminate Heq. }
  destruct apolloAccounts as [ | bestMatch rest ].
  - right. run_bind H stg newAccount Hcreate.
    apply call_ok_inv in Hcreate as (_ & Htr & _).
    apply ret_inv in H as [-> ->]. split; [reflexivity |]. eauto.
  - destruct (account_id bestMatch) as [ [ | c accountId ] | ] eqn:Hid.
    + right. run_bind H stg newAccount Hcreate.
      apply call_ok_inv in Hcreate as (_ & Htr & _).
      apply ret_inv in H as [-> ->]. split; [reflexivity |]. eauto.
    + left. run_bind H stg updatedAccount Hupdate.
      apply call_ok_inv in Hupdate as (_ & Htr & _).
      apply ret_inv in H as [-> ->].
      destruct (Hmatch bestMatch rest eq_refl)
        as (tr & accounts & Hs & Hin & Hwhy).
      exists tr, accounts, bestMatch, (String c accountId).
      do 2 eexists. split; [exact Hs |]. split; [exact Hin |].
      split; [exact Hid |]. split; [exact Hwhy |].
      split; [reflexivity | exact Htr].
    + right. run_bind H stg newAccount Hcreate.
      apply call_ok_inv in Hcreate as (_ & Htr & _).
      apply ret_inv in H as [-> ->]. split; [reflexivity |]. eauto.
Qed.

Lemma company_sync_updates_only_a_match_witness :
  Effects.company_outcome MoreExamples.acmeWorld "r1" initial
    (fst (SyncCompanyToApollo.syncCompanyToApollo MoreExamples.acmeWorld "r1"
            initial))
    {| created := 0; updated := 1 |}.
Proof.
  apply (company_sync_updates_only_a_match MoreExamples.acmeWorld "r1" initial).
  reflexivity.
Defined.

(** ** Records without a name *)

Lemma extractDealName_falsy (values : value) :
  Effects.NoName ["name"; "value"; "title"]
    (js_or (get values "name") (get values "title")) ->
  truthy (SyncDealToApollo.extractDealName values) = false.
Proof.
  unfold SyncDealToApollo.extractDealName. cbv zeta.
  intros [Hfalsy | Hempty | entry rest Harr Hkeys | fs Hobj Hkeys].
  - destruct (js_or (get values "name") (get values "title"));
      simpl in Hfalsy |- *;
      first [reflexivity | exact Hfalsy | discriminate Hfalsy].
  - rewrite Hempty. reflexivity.
  - rewrite Harr.
    unfold SyncDealToApollo.or_chain, SyncToApollo.or_chain.
    rewrite (Hkeys "name"), (Hkeys "value"), (Hkeys "title");
      simpl; auto.
  - rewrite Hobj in *.
    unfold SyncDealToApollo.or_chain, SyncToApollo.or_chain.
    rewrite (Hkeys "name"), (Hkeys "value"), (Hkeys "title");
      simpl; auto.
Qed.

Lemma extractCompanyName_falsy (values : value) :
  Effects.NoName ["name"; "value"] (get values "name") ->
  truthy (SyncCompanyToApollo.extractCompanyName values) = false.
Proof.
  unfold SyncCompanyToApollo.extractCompanyName. cbv zeta.
  intros [Hfalsy | Hempty | entry rest Harr Hkeys | fs Hobj Hkeys].
  - destruct (get values "name"); simpl in Hfalsy |- *;
      first [reflexivity | exact Hfalsy | discriminate Hfalsy].
  - rewrite Hempty. reflexivity.
  - rewrite Harr.
    unfold SyncCompanyToApollo.or_chain, SyncToApollo.or_chain.
    rewrite (Hkeys "name"), (Hkeys "value"); simpl; auto.
  - rewrite Hobj in *.
    unfold SyncCompanyToApollo.or_chain, SyncToApollo.or_chain.
    rewrite (Hkeys "name"), (Hkeys "value"); simpl; auto.
Qed.

(** X14: a deal that holds no name under [name], or failing it under
    [title], and a company that holds none under [name], are not synced.
    No name means: the field is missing, [null] or the empty string, or
    an empty list, or a list whose first entry (or an object that) has
    nothing truthy under [name], [value] and, for a deal, [title].  The
    run throws the error that names the record, and its only call is the
    read of the record; nothing is searched, created or updated on the
    target platform. *)
Theorem nameless_record_is_not_synced :
  forall (w : World) (recordId : string) (st : State) (data : fields),
    (getDeal w (trace st) recordId = Ok (Some data) ->
     Effects.NoName ["name"; "value"; "title"]
       (js_or (get (Spec.values_of data) "name")
              (get (Spec.values_of data) "title")) ->
     exists st' : State,
       SyncDealToApollo.syncDealToApollo w recordId st
       = (st', Throw (Error ("No deal name found for record " ++ recordId
                               ++ ". Name is required for syncing.")))
       /\ Spec.added st st' = [EvGetDeal recordId])
    /\ (getCompany w (trace st) recordId = Ok (Some data) ->
        Effects.NoName ["name"; "value"] (get (Spec.values_of data) "name") ->
        exists st' : State,
          SyncCompanyToApollo.syncCompanyToApollo w recordId st
          = (st', Throw (Error ("No company name found for record " ++ recordId
                                  ++ ". Name is required for syncing.")))
          /\ Spec.added st st' = [EvGetCompany recordId]).
Proof.
  intros w recordId st data. split.
  - intros Hget Hname.
    unfold SyncDealToApollo.syncDealToApollo, bind, call.
    rewrite Hget. fold (Spec.values_of data). cbv zeta.
    rewrite (extractDealName_falsy _ Hname). cbn [negb].
    eexists. split; [reflexivity |].
    unfold Spec.added. cbn [trace]. apply skipn_all_app.
  - intros Hget Hname.
    unfold SyncCompanyToApollo.syncCompanyToApollo, bind, call.
    rewrite Hget. fold (Spec.values_of data). cbv zeta.
    rewrite (extractCompanyName_falsy _ Hname). cbn [negb].
    eexists. split; [reflexivity |].
    unfold Spec.added. cbn [trace]. apply skipn_all_app.
Qed.

Lemma nameless_record_is_not_synced_witness :
  (exists st' : State,
      SyncDealToApollo.syncDealToApollo MoreExamples.namelessWorld "r1" initial
      = (st', Throw (Error ("No deal name found for record " ++ "r1"
                              ++ ". Name is required for syncing.")))
      /\ Spec.added initial st' = [EvGetDeal "r1"])
  /\ (exists st' : State,
         SyncCompanyToApollo.syncCompanyToApollo MoreExamples.namelessWorld "r1"
           initial
         = (st', Throw (Error ("No company name found for record " ++ "r1"
                                 ++ ". Name is required for syncing.")))
         /\ Spec.added initial st' = [EvGetCompany "r1"]).
Proof.
  destruct (nameless_record_is_not_synced MoreExamples.namelessWorld "r1" initial
              MoreExamples.nameless) as [Hdeal Hcompany].
  split.
  - apply (Hdeal eq_refl).
    apply (Effects.NoName_first _ _ (JObj [ ("value", JStr "") ]) []);
      [reflexivity |].
    intros k [<- | [<- | [<- | []]]]; reflexivity.
  - apply (Hcompany eq_refl).
    apply (Effects.NoName_first _ _ (JObj [ ("value", JStr "") ]) []);
      [reflexivity |].
    intros k [<- | [<- | []]]; reflexivity.
Defined.

(** ** The attributes of a person *)

Lemma rbind_ok_inv {A B : Type} (r : Result A) (k : A -> Result B) (b : B) :
  rbind r k = Ok b -> exists a, r = Ok a /\ k a = Ok b.
Proof.
  destruct r as [a | e]; simpl; intros H; [eauto | discriminate H].
Qed.

Lemma url_field_inv (attioValues : value) (src dst who : string)
    (mk : string -> string) (acc acc' : AttributeMapping.fields) :
  (forall s, startsWith (mk s) "http" = true) ->
  AttributeMapping.url_field attioValues src dst who mk acc = Ok acc' ->
  acc' = acc
  \/ exists u : string,
       startsWith u "http" = true /\ acc' = (acc ++ [(dst, JStr u)])%list.
Proof.
  intros Hmk. unfold AttributeMapping.url_field.
  destruct (truthy (get attioValues src)); [ | intros H; inversion H; auto ].
  intros H. apply rbind_ok_inv in H as (v & _ & H).
  destruct (truthy v); [ | inversion H; auto ].
  apply rbind_ok_inv in H as (s & _ & H). inversion H.
  right. exists (mk s). auto.
Qed.

Lemma linkedin_url_absolute (s : string) :
  startsWith (AttributeMapping.linkedin_url s) "http" = true.
Proof.
  unfold AttributeMapping.linkedin_url.
  destruct (startsWith s "http") eqn:H; [exact H |].
  destruct (startsWith s "linkedin.com" || startsWith s "/"); reflexivity.
Qed.

Lemma twitter_url_absolute (s : string) :
  startsWith (AttributeMapping.twitter_url s) "http" = true.
Proof.
  unfold AttributeMapping.twitter_url.
  destruct (startsWith s "http") eqn:H; [exact H |].
  destruct (startsWith s "twitter.com" || startsWith s "x.com"); reflexivity.
Qed.

Lemma facebook_url_absolute (s : string) :
  startsWith (AttributeMapping.facebook_url s) "http" = true.
Proof.
  unfold AttributeMapping.facebook_url.
  destruct (startsWith s "http") eqn:H; [exact H | reflexivity].
Qed.

Lemma instagram_url_absolute (s : string) :
  startsWith (AttributeMapping.instagram_url s) "http" = true.
Proof.
  unfold AttributeMapping.instagram_url.
  destruct (startsWith s "http") eqn:H; [exact H | reflexivity].
Qed.

(** What [extractAttioAttributes] returns: the seven entries it may set,
    each one there or not. *)
Lemma extractAttioAttributes_shape (attioValues : value)
    (apolloFields : AttributeMapping.fields) :
  AttributeMapping.extractAttioAttributes attioValues = Ok apolloFields ->
  exists a1 a2 a3 a4 a5 a6 a7 : AttributeMapping.fields,
    apolloFields = (a1 ++ a2 ++ a3 ++ a4 ++ a5 ++ a6 ++ a7)%list
    /\ (a1 = [] \/ exists t, a1 = [("title", t)])
    /\ (a2 = [] \/ exists c, truthy c = true /\ a2 = [("organization_name", c)])
    /\ (a3 = [] \/ exists u, startsWith u "http" = true
                             /\ a3 = [("linkedin_url", JStr u)])
    /\ (a4 = [] \/ exists u, startsWith u "http" = true
                             /\ a4 = [("twitter_url", JStr u)])
    /\ (a5 = [] \/ exists u, startsWith u "http" = true
                             /\ a5 = [("facebook_url", JStr u)])
    /\ (a6 = [] \/ exists u, startsWith u "http" = true
                             /\ a6 = [("instagram_url", JStr u)])
    /\ (a7 = [] \/ exists b, a7 = [("bio", b)]).
Proof.
  unfold AttributeMapping.extractAttioAttributes. cbv zeta. intros H.
  apply rbind_ok_inv in H as (acc1 & H1 & H).
  apply rbind_ok_inv in H as (acc2 & H2 & H).
  apply rbind_ok_inv in H as (acc3 & H3 & H).
  apply rbind_ok_inv in H as (acc4 & H4 & H).
  apply rbind_ok_inv in H as (acc5 & H5 & H).
  apply rbind_ok_inv in H as (acc6 & H6 & H).
  apply rbind_ok_inv in H as (acc7 & H7 & H).
  apply rbind_ok_inv in H as (loc & _ & H). inversion H; subst apolloFields.
  assert (E1 : exists a1, acc1 = a1 /\ (a1 = [] \/ exists t, a1 = [("title", t)])).
  { destruct (truthy (get attioValues "job_title")).
    - apply rbind_ok_inv in H1 as (t & _ & H1). inversion H1. eauto.
    - inversion H1. eauto. }
  destruct E1 as (a1 & -> & E1).
  assert (E2 : exists a2, acc2 = (a1 ++ a2)%list
                          /\ (a2 = [] \/ exists c, truthy c = true
                                                   /\ a2 = [("organization_name", c)])).
  { destruct (truthy (get attioValues "company")).
    - apply rbind_ok_inv in H2 as (c & _ & H2).
      destruct (truthy c) eqn:Hc; inversion H2.
      + exists [("organization_name", c)]. eauto.
      + exists []. rewrite app_nil_r. auto.
    - inversion H2. exists []. rewrite app_nil_r. auto. }
  destruct E2 as (a2 & -> & E2).
  apply (url_field_inv _ _ _ _ _ _ _ linkedin_url_absolute) in H3.
  apply (url_field_inv _ _ _ _ _ _ _ twitter_url_absolute) in H4.
  apply (url_field_inv _ _ _ _ _ _ _ facebook_url_absolute) in H5.
  apply (url_field_inv _ _ _ _ _ _ _ instagram_url_absolute) in H6.
  assert (E3 : exists a3, acc3 = ((a1 ++ a2) ++ a3)%list
                          /\ (a3 = [] \/ exists u, startsWith u "http" = true
                                                   /\ a3 = [("linkedin_url", JStr u)])).
  { destruct H3 as [-> | (u & Hu & ->)];
      [ exists []; rewrite app_nil_r; auto
      | eexists; split; [reflexivity | right; exists u; auto] ]. }
  destruct E3 as (a3 & -> & E3).
  assert (E4 : exists a4, acc4 = (((a1 ++ a2) ++ a3) ++ a4)%list
                          /\ (a4 = [] \/ exists u, startsWith u "http" = true
                                                   /\ a4 = [("twitter_url", JStr u)])).
  { destruct H4 as [-> | (u & Hu & ->)];
      [ exists []; rewrite app_nil_r; auto
      | eexists; split; [reflexivity | right; exists u; auto] ]. }
  destruct E4 as (a4 & -> & E4).
  assert (E5 : exists a5, acc5 = ((((a1 ++ a2) ++ a3) ++ a4) ++ a5)%list
                          /\ (a5 = [] \/ exists u, startsWith u "http" = true
                                                   /\ a5 = [("facebook_url", JStr u)])).
  { destruct H5 as [-> | (u & Hu & ->)];
      [ exists []; rewrite app_nil_r; auto
      | eexists; split; [reflexivity | right; exists u; auto] ]. }
  destruct E5 as (a5 & -> & E5).
  assert (E6 : exists a6, acc6 = (((((a1 ++ a2) ++ a3) ++ a4) ++ a5) ++ a6)%list
                          /\ (a6 = [] \/ exists u, startsWith u "http" = true
                                                   /\ a6 = [("instagram_url", JStr u)])).
  { destruct H6 as [-> | (u & Hu & ->)];
      [ exists []; rewrite app_nil_r; auto
      | eexists; split; [reflexivity | right; exists u; auto] ]. }
  destruct E6 as (a6 & -> & E6).
  assert (E7 : exists a7, acc7 = ((((((a1 ++ a2) ++ a3) ++ a4) ++ a5) ++ a6) ++ a7)%list
                          /\ (a7 = [] \/ exists b, a7 = [("bio", b)])).
  { destruct (truthy (get attioValues "description")).
    - apply rbind_ok_inv in H7 as (b & _ & H7). inversion H7. eauto.
    - inversion H7. exists []. rewrite app_nil_r. auto. }
  destruct E7 as (a7 & -> & E7).
  exists a1, a2, a3, a4, a5, a6, a7.
  rewrite <- !app_assoc. repeat split; assumption.
Qed.

(** X15: when [extractAttioAttributes] returns, the keys of its result are
    some of [title], [organization_name], the four social URLs and [bio],
    in this order and none twice (no phone number among them); every
    social URL it gives is a string that starts with "http", and an
    [organization_name] it gives is never empty. *)
Theorem extracted_attributes_are_well_formed :
  forall (attioValues : value) (apolloFields : AttributeMapping.fields),
    AttributeMapping.extractAttioAttributes attioValues = Ok apolloFields ->
    Effects.subsequence (map fst apolloFields) Effects.mapped_keys = true
    /\ (forall (k : string) (v : value),
          In (k, v) apolloFields -> In k Effects.social_keys ->
          Effects.absolute_url v)
    /\ (forall v : value,
          In ("organization_name", v) apolloFields -> truthy v = true).
Proof.
  intros attioValues apolloFields H.
  destruct (extractAttioAttributes_shape _ _ H)
    as (a1 & a2 & a3 & a4 & a5 & a6 & a7 & -> & E1 & E2 & E3 & E4 & E5 & E6 & E7).
  split; [ | split ].
  - destruct E1 as [-> | (t & ->)];
    destruct E2 as [-> | (c & _ & ->)];
    destruct E3 as [-> | (u3 & _ & ->)];
    destruct E4 as [-> | (u4 & _ & ->)];
    destruct E5 as [-> | (u5 & _ & ->)];
    destruct E6 as [-> | (u6 & _ & ->)];
    destruct E7 as [-> | (b & ->)]; reflexivity.
  - intros k v Hin Hk.
    assert (Hsocial : k = "linkedin_url" \/ k = "twitter_url"
                      \/ k = "facebook_url" \/ k = "instagram_url").
    { simpl in Hk. intuition auto. }
    clear Hk.
    rewrite !in_app_iff in Hin.
    destruct Hin as [Hin | [Hin | [Hin | [Hin | [Hin | [Hin | Hin]]]]]].
    + destruct E1 as [-> | (t & ->)]; [destruct Hin |].
      destruct Hin as [Heq | []]. inversion Heq; subst.
      exfalso. intuition discriminate.
    + destruct E2 as [-> | (c & _ & ->)]; [destruct Hin |].
      destruct Hin as [Heq | []]. inversion Heq; subst.
      exfalso. intuition discriminate.
    + destruct E3 as [-> | (u & Hu & ->)]; [destruct Hin |].
      destruct Hin as [Heq | []]. inversion Heq; subst. exists u. auto.
    + destruct E4 as [-> | (u & Hu & ->)]; [destruct Hin |].
      destruct Hin as [Heq | []]. inversion Heq; subst. exists u. auto.
    + destruct E5 as [-> | (u & Hu & ->)]; [destruct Hin |].
      destruct Hin as [Heq | []]. inversion Heq; subst. exists u. auto.
    + destruct E6 as [-> | (u & Hu & ->)]; [destruct Hin |].
      destruct Hin as [Heq | []]. inversion Heq; subst. exists u. auto.
    + destruct E7 as [-> | (b & ->)]; [destruct Hin |].
      destruct Hin as [Heq | []]. inversion Heq; subst.
      exfalso. intuition discriminate.
  - intros v Hin. rewrite !in_app_iff in Hin.
    destruct Hin as [Hin | [Hin | [Hin | [Hin | [Hin | [Hin | Hin]]]]]].
    + destruct E1 as [-> | (t & ->)]; [destruct Hin |].
      destruct Hin as [Heq | []]. discriminate Heq.
    + destruct E2 as [-> | (c & Hc & ->)]; [destruct Hin |].
      destruct Hin as [Heq | []]. inversion Heq; subst. exact Hc.
    + destruct E3 as [-> | (u & Hu & ->)]; [destruct Hin |].
      destruct Hin as [Heq | []]. discriminate Heq.
    + destruct E4 as [-> | (u & Hu & ->)]; [destruct Hin |].
      destruct Hin as [Heq | []]. discriminate Heq.
    + destruct E5 as [-> | (u & Hu & ->)]; [destruct Hin |].
      destruct Hin as [Heq | []]. discriminate Heq.
    + destruct E6 as [-> | (u & Hu & ->)]; [destruct Hin |].
      destruct Hin as [Heq | []]. discriminate Heq.
    + destruct E7 as [-> | (b & ->)]; [destruct Hin |].
      destruct Hin as [Heq | []]. discriminate Heq.
Qed.

Lemma extracted_attributes_are_well_formed_witness :
  AttributeMapping.extractAttioAttributes MoreExamples.adaValues
  = Ok [ ("title", JStr "CTO"); ("organization_name", JStr "Acme");
         ("linkedin_url", JStr "https://in/ada");
         ("twitter_url", JStr "https://twitter.com/ada") ]
  /\ Effects.absolute_url (JStr "https://in/ada").
Proof.
  split; [reflexivity |].
  apply (proj1 (proj2 (extracted_attributes_are_well_formed MoreExamples.adaValues
                         _ eq_refl)) "linkedin_url").
  - simpl. auto 10.
  - simpl. auto.
Defined.

(** ** The stage of a deal update *)

Lemma stageFields_result (w : World) (attioStage : option string)
    (st st' : State) (r : Result fields) :
  SyncDealToApollo.stageFields w attioStage st = (st', r) ->
  (r = Ok [] /\ SyncDealToApollo.nonempty attioStage = false)
  \/ exists stage : string,
       attioStage = Some stage
       /\ (r = Ok [("stage_name", JStr stage)]
           \/ exists id : string,
                looks_like_stage_id id = true
                /\ r = Ok [("stage_id", JStr id)]).
Proof.
  unfold SyncDealToApollo.stageFields.
  destruct attioStage as [ [ | c stage ] | ];
    try (intros H; inversion H; left; split; reflexivity).
  intros H. right. exists (String c stage). split; [reflexivity |].
  unfold try_catch, bind in H.
  destruct (OpportunityStageMapping.mapDealStageToApollo w
              (JStr (String c stage)) st) as [st1 [stageId | e]].
  - destruct stageId as [ | | b | n | id | l | o ];
      try (inversion H; left; reflexivity).
    destruct (negb (is_empty id) && looks_like_stage_id id) eqn:Hid.
    + inversion H. right. exists id.
      apply andb_true_iff in Hid as [_ Hid]. auto.
    + inversion H. left. reflexivity.
  - inversion H. left. reflexivity.
Qed.

(** X16: the stage put in a deal update never makes the sync fail: the
    step returns also when the stage lookup throws, and it gives no stage
    for a deal without one, else exactly one of [stage_id] (an identifier
    of the target platform) and [stage_name] (the stage of the deal as it
    is), never both. *)
Theorem deal_stage_is_id_or_name :
  forall (w : World) (attioStage : option string) (st : State),
    exists (st' : State) (stage : fields),
      SyncDealToApollo.stageFields w attioStage st = (st', Ok stage)
      /\ ((stage = [] /\ SyncDealToApollo.nonempty attioStage = false)
          \/ exists name : string,
               attioStage = Some name
               /\ (stage = [("stage_name", JStr name)]
                   \/ exists id : string,
                        looks_like_stage_id id = true
                        /\ stage = [("stage_id", JStr id)])).
Proof.
  intros w attioStage st.
  destruct (SyncDealToApollo.stageFields w attioStage st) as [st' r] eqn:Hrun.
  destruct (stageFields_result _ _ _ _ _ Hrun)
    as [[-> Hnone] | (name & Hname & [-> | (id & Hid & ->)])].
  - exists st', []. auto.
  - exists st', [("stage_name", JStr name)]. split; [reflexivity |]. right. eauto.
  - exists st', [("stage_id", JStr id)]. split; [reflexivity |]. right. eauto 6.
Qed.

(** ** What an update sends *)

Lemma each_ret {A : Type} (P : Event -> Prop) (a : A) :
  Effects.Runs (ret a) (Effects.each P).
Proof. apply runs_ret. constructor. Qed.

Lemma each_lift {A : Type} (P : Event -> Prop) (x : Result A) :
  Effects.Runs (lift x) (Effects.each P).
Proof. apply runs_lift. constructor. Qed.

Lemma each_throw {A : Type} (P : Event -> Prop) (e : exn) :
  Effects.Runs (@throw A e) (Effects.each P).
Proof. apply runs_throw. constructor. Qed.

Lemma each_call {A : Type} (P : Event -> Prop) (ev : Event)
    (answer : list Event -> Result A) :
  P ev -> Effects.Runs (call ev answer) (Effects.each P).
Proof.
  intros HP. apply runs_call. intros r. constructor; [exact HP | constructor].
Qed.

Lemma each_bind {A B : Type} (P : Event -> Prop) (m : M A) (k : A -> M B) :
  Effects.Runs m (Effects.each P) ->
  (forall a, Effects.Runs (k a) (Effects.each P)) ->
  Effects.Runs (bind m k) (Effects.each P).
Proof.
  intros Hm Hk.
  apply (runs_bind m k (Effects.each P) (Effects.each P) (Effects.each P) Hm Hk).
  - intros e evs H. exact H.
  - intros a evs1 r evs2 H1 H2. apply Forall_app. split; assumption.
Qed.

Lemma each_bind_result {A B : Type} (P : Event -> Prop) (R : A -> Prop)
    (m : M A) (k : A -> M B) :
  Effects.Runs m (Effects.each P) ->
  (forall st st' a, m st = (st', Ok a) -> R a) ->
  (forall a, R a -> Effects.Runs (k a) (Effects.each P)) ->
  Effects.Runs (bind m k) (Effects.each P).
Proof.
  intros Hm HR Hk st st' r H. unfold bind in H.
  destruct (m st) as [st1 [a | e]] eqn:Hrun.
  - destruct (Hm _ _ _ Hrun) as (evs1 & Htr1 & HQ1).
    destruct (Hk a (HR _ _ _ Hrun) _ _ _ H) as (evs2 & Htr2 & HQ2).
    exists (evs1 ++ evs2)%list. split.
    + rewrite Htr2, Htr1, app_assoc. reflexivity.
    + apply Forall_app. split; assumption.
  - inversion H; subst.
    destruct (Hm _ _ _ Hrun) as (evs1 & Htr1 & HQ1). exists evs1. auto.
Qed.

Lemma each_try_catch {A : Type} (P : Event -> Prop) (m : M A)
    (handler : exn -> M A) :
  Effects.Runs m (Effects.each P) ->
  (forall e, Effects.Runs (handler e) (Effects.each P)) ->
  Effects.Runs (try_catch m handler) (Effects.each P).
Proof.
  intros Hm Hh.
  apply (runs_try_catch m handler (Effects.each P) (Effects.each P)
           (Effects.each P) Hm Hh).
  - intros a evs H. exact H.
  - intros e evs1 r evs2 H1 H2. apply Forall_app. split; assumption.
Qed.

Lemma no_update_filter (evs : list Event) :
  Effects.update_calls evs = 0 -> Forall (fun ev => Effects.is_update_call ev = false) evs.
Proof.
  unfold Effects.update_calls. induction evs as [ | ev evs IH ]; intros H.
  - constructor.
  - simpl in H. destruct (Effects.is_update_call ev) eqn:Hev.
    + simpl in H. discriminate H.
    + constructor; [exact Hev | exact (IH H)].
Qed.

Lemma no_null_of_quiet {A : Type} (m : M A) :
  Effects.Runs m Effects.quiet ->
  Effects.Runs m (Effects.each Effects.update_has_no_null).
Proof.
  intros Hm. apply (runs_weaken m _ _ Hm).
  intros r evs [_ Hu]. apply no_update_filter in Hu.
  unfold Effects.each. apply (Forall_impl _ (P := fun ev => Effects.is_update_call ev = false));
    [ | exact Hu ].
  intros ev Hev. destruct ev; simpl in Hev; first [exact I | discriminate Hev].
Qed.

Lemma truthy_not_nullish (v : value) : truthy v = true -> is_nullish v = false.
Proof. destruct v; simpl; intros H; first [reflexivity | discriminate H]. Qed.

Lemma add_if_truthy_in (k k' : string) (v v' : value) :
  In (k', v') (SyncCompanyToApollo.add_if_truthy k v) -> is_nullish v' = false.
Proof.
  unfold SyncCompanyToApollo.add_if_truthy.
  destruct (truthy v) eqn:Hv; [ | intros [] ].
  intros [Heq | []]. inversion Heq; subst. exact (truthy_not_nullish _ Hv).
Qed.

Lemma company_extractNumberValue_defined (w : World) (attioData : value) :
  SyncCompanyToApollo.extractNumberValue w attioData <> JUndefined.
Proof.
  unfold SyncCompanyToApollo.extractNumberValue.
  destruct (negb (truthy attioData)); [discriminate |]. cbv zeta.
  destruct attioData as [ | | b | n | s | [ | entry l ] | o ];
    try discriminate.
  - destruct (to_number w (JStr s)); discriminate.
  - destruct (negb (is_nullish (oget entry "value")));
      [destruct (to_number w (get entry "value")) |]; discriminate.
Qed.

Lemma person_update_has_no_null (email firstName lastName apolloStage : value)
    (additionalAttributes : fields) :
  truthy email = true ->
  Effects.no_null_except ["first_name"; "last_name"]
    (SyncToApollo.updateData email firstName lastName apolloStage
       additionalAttributes).
Proof.
  intros Hemail k v Hin Hnull. unfold SyncToApollo.updateData in Hin.
  rewrite !in_app_iff in Hin.
  destruct Hin as [Hin | [Hin | [Hin | [Hin | Hin]]]].
  - destruct Hin as [Heq | []]. inversion Heq; subst.
    rewrite (truthy_not_nullish _ Hemail) in Hnull. discriminate Hnull.
  - destruct Hin as [Heq | []]. inversion Heq. left. reflexivity.
  - destruct Hin as [Heq | []]. inversion Heq. right. left. reflexivity.
  - destruct (negb (is_nullish apolloStage) && negb (SyncToApollo.strict_empty apolloStage))
      eqn:Hs; [ | destruct Hin ].
    destruct Hin as [Heq | []]. inversion Heq; subst.
    apply andb_true_iff in Hs as [Hs _]. rewrite Hnull in Hs. discriminate Hs.
  - apply in_flat_map in Hin as (key & _ & Hin).
    destruct (negb (is_nullish (SyncToApollo.attribute additionalAttributes key)))
      eqn:Ha; [ | destruct Hin ].
    destruct Hin as [Heq | []]. inversion Heq; subst.
    rewrite Hnull in Ha. discriminate Ha.
Qed.

Ltac no_null_step :=
  cbv zeta;
  lazymatch goal with
  | |- Effects.Runs (ret _) _ => apply each_ret
  | |- Effects.Runs (lift _) _ => apply each_lift
  | |- Effects.Runs (throw _) _ => apply each_throw
  | |- Effects.Runs (bind _ _) _ => apply each_bind; [ | intros ? ]
  | |- Effects.Runs (match ?x with _ => _ end) _ => destruct x eqn:?
  | |- Effects.Runs (if ?c then _ else _) _ => destruct c eqn:?
  end.

Lemma syncToApollo_has_no_null (w : World) (recordId : string) :
  Effects.Runs (SyncToApollo.syncToApollo w recordId)
    (Effects.each Effects.update_has_no_null).
Proof.
  unfold SyncToApollo.syncToApollo.
  repeat first
    [ apply no_null_of_quiet;
      solve [ apply mapStageToApollo_quiet
            | apply validateStageMapping_quiet
            | quiet_tac ]
    | apply each_call;
      apply person_update_has_no_null;
      match goal with
      | H : negb (truthy ?e) = false |- truthy ?e = true =>
          apply negb_false_iff in H; exact H
      end
    | apply each_call; exact I
    | no_null_step ].
Qed.

Lemma syncCompanyToApollo_has_no_null (w : World) (recordId : string) :
  Effects.Runs (SyncCompanyToApollo.syncCompanyToApollo w recordId)
    (Effects.each Effects.update_has_no_null).
Proof.
  unfold SyncCompanyToApollo.syncCompanyToApollo.
  repeat first
    [ apply no_null_of_quiet; solve [ quiet_tac ]
    | apply each_call;
      intros k v Hin Hnull; exfalso;
      rewrite !in_app_iff in Hin;
      repeat (destruct Hin as [Hin | Hin]);
      try (rewrite (add_if_truthy_in _ _ _ _ Hin) in Hnull; discriminate Hnull);
      match type of Hin with
      | In _ (match SyncCompanyToApollo.extractNumberValue ?w0 ?x with _ => _ end) =>
          pose proof (company_extractNumberValue_defined w0 x) as Hdef;
          destruct (SyncCompanyToApollo.extractNumberValue w0 x);
          try destruct Hin as [Heq | []];
          try (inversion Heq; subst; discriminate Hnull);
          try (exfalso; apply Hdef; reflexivity);
          try destruct Hin
      end
    | apply each_call; exact I
    | no_null_step ].
Qed.

Lemma stageFields_no_null (w : World) (attioStage : option string)
    (st st' : State) (stage : fields) :
  SyncDealToApollo.stageFields w attioStage st = (st', Ok stage) ->
  Effects.no_null_except [] stage.
Proof.
  intros H k v Hin Hnull. exfalso.
  destruct (stageFields_result _ _ _ _ _ H)
    as [[Heq _] | (name & _ & [Heq | (id & _ & Heq)])];
    inversion Heq; subst; simpl in Hin;
    repeat (destruct Hin as [Hin | Hin]);
    first [ contradiction | inversion Hin; subst; discriminate Hnull ].
Qed.

Lemma deal_update_has_no_null
    (dealName accountId accountName amount probability : value)
    (stage : fields) (closeDate : option string) (description : string) :
  truthy dealName = true ->
  Effects.no_null_except [] stage ->
  Effects.no_null_except []
    ([("name", dealName)]
     ++ (if truthy accountId then [("account_id", accountId)]
         else if truthy accountName then [("account_name", accountName)] else [])
     ++ (if negb (is_nullish amount) then [("amount", amount)] else [])
     ++ stage
     ++ (if negb (is_nullish probability)
         then [("probability", probability)] else [])
     ++ (if SyncDealToApollo.nonempty closeDate
         then [("close_date", SyncDealToApollo.of_nullable closeDate)] else [])
     ++ [("description", JStr description)])%list.
Proof.
  intros Hname Hstage k v Hin Hnull. exfalso.
  rewrite !in_app_iff in Hin.
  destruct Hin as [Hin | [Hin | [Hin | [Hin | [Hin | [Hin | Hin]]]]]].
  - destruct Hin as [Heq | []]. inversion Heq; subst.
    rewrite (truthy_not_nullish _ Hname) in Hnull. discriminate Hnull.
  - destruct (truthy accountId) eqn:Ha.
    + destruct Hin as [Heq | []]. inversion Heq; subst.
      rewrite (truthy_not_nullish _ Ha) in Hnull. discriminate Hnull.
    + destruct (truthy accountName) eqn:Hn; [ | destruct Hin ].
      destruct Hin as [Heq | []]. inversion Heq; subst.
      rewrite (truthy_not_nullish _ Hn) in Hnull. discriminate Hnull.
  - destruct (negb (is_nullish amount)) eqn:Ha; [ | destruct Hin ].
    destruct Hin as [Heq | []]. inversion Heq; subst.
    rewrite Hnull in Ha. discriminate Ha.
  - exact (Hstage k v Hin Hnull).
  - destruct (negb (is_nullish probability)) eqn:Hp; [ | destruct Hin ].
    destruct Hin as [Heq | []]. inversion Heq; subst.
    rewrite Hnull in Hp. discriminate Hp.
  - destruct closeDate as [ [ | c d ] | ]; simpl in Hin;
      try contradiction.
    destruct Hin as [Heq | []]. inversion Heq; subst. discriminate Hnull.
  - destruct Hin as [Heq | []]. inversion Heq; subst. discriminate Hnull.
Qed.

Lemma syncDealToApollo_has_no_null (w : World) (recordId : string) :
  Effects.Runs (SyncDealToApollo.syncDealToApollo w recordId)
    (Effects.each Effects.update_has_no_null).
Proof.
  unfold SyncDealToApollo.syncDealToApollo.
  repeat first
    [ apply no_null_of_quiet; solve [ quiet_tac ]
    | apply (each_bind_result _ (Effects.no_null_except []));
      [ apply no_null_of_quiet; apply stageFields_quiet
      | intros st st' stage Hrun; exact (stageFields_no_null _ _ _ _ _ Hrun)
      | intros stage Hstage ]
    | apply each_call; exact I
    | apply each_call;
      apply deal_update_has_no_null;
      [ match goal with
        | H : negb (truthy ?e) = false |- truthy ?e = true =>
            apply negb_false_iff in H; exact H
        end
      | assumption ]
    | no_null_step ].
Qed.

(** X17: in every run of the three syncs, also one that throws, the
    object handed to an update wrapper holds no [null] and no [undefined],
    the first and the last name of a contact apart (they are handed on as
    [null] when the person has none). *)
Theorem updates_never_send_null :
  forall (w : World) (recordId : string),
    Effects.Runs (SyncToApollo.syncToApollo w recordId)
      (Effects.each Effects.update_has_no_null)
    /\ Effects.Runs (SyncDealToApollo.syncDealToApollo w recordId)
         (Effects.each Effects.update_has_no_null)
    /\ Effects.Runs (SyncCompanyToApollo.syncCompanyToApollo w recordId)
         (Effects.each Effects.update_has_no_null).
Proof.
  intros w recordId.
  split; [apply syncToApollo_has_no_null |].
  split; [apply syncDealToApollo_has_no_null
         | apply syncCompanyToApollo_has_no_null].
Qed.

Lemma updates_never_send_null_witness :
  exists evs : list Event,
    trace (fst (SyncToApollo.syncToApollo Examples.adaWorld "r1" initial))
    = (trace initial ++ evs)%list
    /\ Effects.each Effects.update_has_no_null
         (snd (SyncToApollo.syncToApollo Examples.adaWorld "r1" initial)) evs.
Proof.
  apply (proj1 (updates_never_send_null Examples.adaWorld "r1") initial).
  reflexivity.
Defined.

(** An empty string can be among the values handed on: the blank job
    title [[{value: ""}]] reaches the update as [title: ""]. *)
Lemma blank_title_is_handed_on :
  exists payload : fields,
    In (EvUpdateContact "c1" payload)
       (trace (fst (SyncToApollo.syncToApollo MoreExamples.blankTitleWorld "r1"
                      initial)))
    /\ In ("title", JStr "") payload.
Proof.
  eexists. split.
  - vm_compute. right. right. left. reflexivity.
  - vm_compute. auto 10.
Qed.

(** ** What [updatePerson] writes, read back *)

(** X18: the values [updatePerson] writes for an email, two names and a
    stage are read back by the extractors of the person sync: the email
    as it is, each name trimmed ([null] when it is blank), and the stage
    as it is ([null] when it is empty). *)
Theorem updatePerson_is_read_back :
  forall email first_name last_name stage : string,
    let values :=
      JObj (AttioApi.updatePerson_values (JStr email) (JStr first_name)
              (JStr last_name) (JStr stage)) in
    SyncToApollo.extractEmail values = JStr email
    /\ SyncToApollo.extractName values
       = (Effects.nonempty_or_null (trim first_name),
          Effects.nonempty_or_null (trim last_name))
    /\ SyncToApollo.extractStageName values (JObj [])
       = Effects.nonempty_or_null stage.
Proof.
  intros email first_name last_name stage values. subst values.
  unfold AttioApi.updatePerson_values, AttioApi.nameField,
    Effects.nonempty_or_null.
  cbn [toString is_nullish negb andb].
  destruct (trim first_name) as [ | c1 f ] eqn:Hf;
    destruct (trim last_name) as [ | c2 l ] eqn:Hl;
    destruct stage as [ | c3 s ];
    cbn [is_empty negb app];
    (split; [reflexivity | split; reflexivity]).
Qed.
(** ** Surrounding blanks of a deal stage *)

Lemma trimEnd_idempotent (s : string) : trimEnd (trimEnd s) = trimEnd s.
Proof.
  induction s as [ | c rest IH ]; [reflexivity |].
  cbn [trimEnd].
  destruct (is_space c && is_empty (trimEnd rest)) eqn:Hc; [reflexivity |].
  cbn [trimEnd]. rewrite IH, Hc. reflexivity.
Qed.

Lemma trimStart_trimEnd (s : string) :
  trimStart (trimEnd (trimStart s)) = trimEnd (trimStart s).
Proof.
  induction s as [ | c rest IH ]; [reflexivity |].
  cbn [trimStart]. destruct (is_space c) eqn:Hc; [exact IH |].
  cbn [trimEnd]. rewrite Hc. cbn [andb trimStart]. rewrite Hc. reflexivity.
Qed.

Lemma trim_idempotent (s : string) : trim (trim s) = trim s.
Proof.
  unfold trim. rewrite trimStart_trimEnd. apply trimEnd_idempotent.
Qed.

(** X19: the blanks around the stage of a deal do not count: unless the
    stage is blank, [mapDealStageToApollo] does on it what it does on the
    trimmed stage, same calls, same answer. *)
Theorem deal_stage_blanks_do_not_count :
  forall (w : World) (stage : string) (st : State),
    trim stage <> "" ->
    OpportunityStageMapping.mapDealStageToApollo w (JStr stage) st
    = OpportunityStageMapping.mapDealStageToApollo w (JStr (trim stage)) st.
Proof.
  intros w stage st Hblank.
  unfold OpportunityStageMapping.mapDealStageToApollo.
  assert (Hs : is_empty stage = false).
  { destruct stage; [exfalso; apply Hblank; reflexivity | reflexivity]. }
  assert (Ht : is_empty (trim stage) = false).
  { destruct (trim stage); [exfalso; apply Hblank; reflexivity | reflexivity]. }
  cbn [truthy]. rewrite Hs, Ht. cbn [negb as_string].
  cbv beta iota zeta delta [bind lift].
  rewrite trim_idempotent. reflexivity.
Qed.

Lemma deal_stage_blanks_do_not_count_witness :
  OpportunityStageMapping.mapDealStageToApollo MoreExamples.pipelineWorld
    (JStr " Closed Won ") initial
  = OpportunityStageMapping.mapDealStageToApollo MoreExamples.pipelineWorld
      (JStr (trim " Closed Won ")) initial.
Proof.
  apply deal_stage_blanks_do_not_count. vm_compute. discriminate.
Defined.
(** ** Numbers *)

Lemma number_of_number (w : World) (v n : value) :
  SyncDealToApollo.number_of w v = Some n -> exists repr, n = JNum repr.
Proof.
  unfold SyncDealToApollo.number_of.
  destruct (is_nullish v); [discriminate |].
  destruct (to_number w v) as [repr | ]; [ | discriminate ].
  intros H. inversion H. eauto.
Qed.

Lemma first_number_candidates (w : World) (o n : value) :
  SyncDealToApollo.first_number (SyncDealToApollo.number_candidates w o) = Some n ->
  exists repr, n = JNum repr.
Proof.
  unfold SyncDealToApollo.number_candidates.
  set (c1 := match get o "attribute_type" with
             | JStr "currency" =>
                 SyncDealToApollo.number_of w (get o "currency_value")
             | _ => None
             end).
  assert (H1 : forall n, c1 = Some n -> exists repr, n = JNum repr).
  { subst c1. intros m H.
    destruct (get o "attribute_type") as [ | | | | t | | ]; try discriminate.
    apply (number_of_number w (get o "currency_value")).
    revert H.
    repeat (destruct t as [ | [[] [] [] [] [] [] [] []] t ]; try discriminate).
    exact (fun H => H). }
  clearbody c1.
  cbn [SyncDealToApollo.first_number].
  destruct c1 as [m | ]; [intros H; inversion H; subst; auto |].
  destruct (SyncDealToApollo.number_of w (get o "value")) as [m | ] eqn:H2;
    [intros H; inversion H; subst; eapply number_of_number; eassumption |].
  destruct (SyncDealToApollo.number_of w (get o "numeric_value")) as [m | ] eqn:H3;
    [intros H; inversion H; subst; eapply number_of_number; eassumption |].
  destruct (SyncDealToApollo.number_of w (get o "amount")) as [m | ] eqn:H4;
    [intros H; inversion H; subst; eapply number_of_number; eassumption |].
  discriminate.
Qed.

(** X20: the amounts, probabilities and head counts read from a record
    are numbers or [null]: [extractNumberValue], for deals and for
    companies, never hands on a string, an object or [undefined]. *)
Theorem extracted_numbers_are_numbers_or_null :
  forall (w : World) (attioData : value),
    ((exists repr, SyncDealToApollo.extractNumberValue w attioData = JNum repr)
     \/ SyncDealToApollo.extractNumberValue w attioData = JNull)
    /\ ((exists repr,
           SyncCompanyToApollo.extractNumberValue w attioData = JNum repr)
        \/ SyncCompanyToApollo.extractNumberValue w attioData = JNull).
Proof.
  intros w attioData. split.
  - unfold SyncDealToApollo.extractNumberValue.
    destruct (negb (truthy attioData)); [right; reflexivity |]. cbv zeta.
    destruct attioData as [ | | b | n | s | [ | entry l ] | o ];
      try (right; reflexivity).
    + left. eauto.
    + destruct (to_number w (JStr (trim (SyncDealToApollo.strip_currency s))));
        [left; eauto | right; reflexivity].
    + destruct (SyncDealToApollo.first_number
                  (SyncDealToApollo.number_candidates w entry)) as [m | ] eqn:Hm.
      * left. exact (first_number_candidates _ _ _ Hm).
      * destruct (SyncDealToApollo.first_number
                    (SyncDealToApollo.number_candidates w (JArr (entry :: l))))
          as [m | ] eqn:Hm'; [ | right; reflexivity ].
        left. exact (first_number_candidates _ _ _ Hm').
    + destruct (SyncDealToApollo.first_number
                  (SyncDealToApollo.number_candidates w (JObj o))) as [m | ] eqn:Hm;
        [ | right; reflexivity ].
      left. exact (first_number_candidates _ _ _ Hm).
  - unfold SyncCompanyToApollo.extractNumberValue.
    destruct (negb (truthy attioData)); [right; reflexivity |]. cbv zeta.
    destruct attioData as [ | | b | n | s | [ | entry l ] | o ];
      try (right; reflexivity).
    + left. eauto.
    + destruct (to_number w (JStr s)); [left; eauto | right; reflexivity].
    + destruct (negb (is_nullish (oget entry "value")));
        [ | right; reflexivity ].
      destruct (to_number w (get entry "value"));
        [left; eauto | right; reflexivity].
Qed.
(** ** The reverse mapping returns *)

Lemma getApolloStages_total (w : World) (st : State) :
  exists (st' : State) (stages : list Stage),
    StageMapping.getApolloStages w st = (st', Ok stages).
Proof.
  unfold StageMapping.getApolloStages.
  destruct (apolloStagesCache st); [do 2 eexists; reflexivity |].
  unfold try_catch, bind, call, ret.
  destruct (listApolloContactStages w (trace st)); do 2 eexists; reflexivity.
Qed.

(** X21: [mapStageToAttio] returns on every string, on [null] and
    [undefined] and on every other value on which its test for an
    identifier, [apolloStage.length > 20 && /^[a-zA-Z0-9]+$/.test(apolloStage)],
    returns, whatever the target platform answers (the manual table being
    empty): its answer is the input as it is, or, for an input that is the
    identifier of a stage of the fetched list, the name of that stage; and
    an input that has not the shape of an identifier is answered without
    any call.  When the test throws (the value is long and cannot be
    converted to a string, or its [length] cannot be converted to a
    number), the mapping throws that error before any call. *)
Theorem mapStageToAttio_returns :
  forall (w : World) (apolloStage : value) (st : State),
    (typeof_string apolloStage = true ->
     exists b : bool, StageMappingToAttio.is_stage_id w apolloStage = Ok b)
    /\ (truthy apolloStage = false
        \/ (exists b : bool, StageMappingToAttio.is_stage_id w apolloStage = Ok b) ->
        exists (st' : State) (r : value),
          StageMappingToAttio.mapStageToAttio w apolloStage st = (st', Ok r)
          /\ (r = apolloStage
              \/ exists (st1 : State) (stages : list Stage) (stage : Stage),
                   StageMapping.getApolloStages w st = (st1, Ok stages)
                   /\ In stage stages
                   /\ apolloStage = JStr (stage_id stage)
                   /\ r = JStr (stage_name stage))
          /\ (StageMappingToAttio.is_stage_id w apolloStage = Ok false ->
              st' = st))
    /\ (forall e : exn,
          truthy apolloStage = true ->
          StageMappingToAttio.is_stage_id w apolloStage = Throw e ->
          StageMappingToAttio.mapStageToAttio w apolloStage st = (st, Throw e)).
Proof.
  intros w apolloStage st. split; [ | split ].
  - destruct apolloStage; try discriminate. intros _.
    eexists. apply is_stage_id_string.
  - intros Hdom. unfold StageMappingToAttio.mapStageToAttio.
    destruct (truthy apolloStage) eqn:Htruthy; cbn [negb].
    2:{ exists st, apolloStage. split; [reflexivity |]. split; [left |]; auto. }
    destruct Hdom as [Hfalsy | [b Hb]]; [discriminate Hfalsy |].
    cbv beta iota delta [bind lift]. rewrite Hb.
    destruct b.
    + destruct (getApolloStages_total w st) as (st1 & stages & Hget).
      rewrite Hget.
      destruct (StageMappingToAttio.findById apolloStage stages)
        as [stage | ] eqn:Hfind.
      * exists st1, (JStr (stage_name stage)). split; [reflexivity |].
        split; [ | intros H; discriminate H ].
        right. exists st1, stages, stage.
        destruct apolloStage as [ | | | | s | | ]; try discriminate Hfind.
        cbn [StageMappingToAttio.findById] in Hfind.
        apply find_some in Hfind as [Hin Hs].
        apply String.eqb_eq in Hs. subst s. auto.
      * exists st1, apolloStage. split; [reflexivity |].
        split; [left; reflexivity | intros H; discriminate H].
    + exists st, apolloStage. split; [reflexivity |]. split; [left |]; auto.
  - intros e Htruthy He. unfold StageMappingToAttio.mapStageToAttio.
    rewrite Htruthy. cbn [negb].
    cbv beta iota delta [bind lift]. rewrite He. reflexivity.
Qed.

Lemma mapStageToAttio_returns_witness :
  exists (st' : State) (r : value),
    StageMappingToAttio.mapStageToAttio MoreExamples.pipelineWorld
      (JStr (stage_id MoreExamples.wonStage)) initial
    = (st', Ok r)
    /\ r = JStr "Closed Won".
Proof.
  destruct (proj1 (proj2 (mapStageToAttio_returns MoreExamples.pipelineWorld
                            (JStr (stage_id MoreExamples.wonStage)) initial)))
    as (st' & r & Hrun & _ & _).
  - right. exists true. reflexivity.
  - exists st', r. split; [exact Hrun |].
    vm_compute in Hrun. inversion Hrun. reflexivity.
Defined.

(** On [{length: 21, toString: null}] the identifier test reaches
    [regex.test], whose conversion throws: so does the mapping. *)
Lemma mapStageToAttio_throws_on_unconvertible :
  StageMappingToAttio.mapStageToAttio MoreExamples.pipelineWorld
    Examples.longUnconvertible initial
  = (initial, Throw conversion_error).
Proof. reflexivity. Qed.
